(** * PAPERGEN: retrieval ladder, cache keys, content formatter and the
    browser-side progress-stream consumer.

    The development follows the repository layout:
    - [Js]              strings as the browser sees them (UTF-16 code units);
    - [Main]            static/js/main.js (notifications, loading overlay);
    - [PaperGeneration] static/js/paper-generation.js (generatePaper,
                        displayGeneratedPaper);
    - [LiteratureSurvey] static/js/literature-survey.js (generateSurvey);
    further modules embed the Python routines quoted in
    PROJECT_DOCUMENTATION.md. *)

From Stdlib Require Import String Ascii.
From Stdlib Require Import List ZArith NArith Bool Lia Arith.
From Stdlib Require Import Sorting.Sorted Sorting.Permutation.
Import ListNotations.

Set Implicit Arguments.

(* ===================================================================== *)
(** ** JavaScript strings *)
(* ===================================================================== *)

Module Js.

(** A JavaScript string is a finite sequence of UTF-16 code units. *)
Definition char := N.
Definition str := list char.

(** ASCII literals of the source, as code-unit sequences. *)
Definition lit (s : string) : str := map N_of_ascii (list_ascii_of_string s).

(** [a === b] on strings *)
Fixpoint str_eqb (a b : str) : bool :=
  match a, b with
  | [], [] => true
  | x :: a', y :: b' => N.eqb x y && str_eqb a' b'
  | _, _ => false
  end.

(** [s.startsWith(p)] *)
Fixpoint startsWith (p s : str) : bool :=
  match p, s with
  | [], _ => true
  | _ :: _, [] => false
  | a :: p', b :: s' => N.eqb a b && startsWith p' s'
  end.

(** [s.slice(n)] for [0 <= n] *)
Definition slice (n : nat) (s : str) : str := skipn n s.

Definition nl : char := 10%N.

(** [s.split('\n\n')]: the separator is searched left to right, each
    occurrence found ends a piece and the search resumes after it.  [cur]
    holds the current piece, reversed. *)
Fixpoint split_nn_aux (cur : str) (s : str) : list str :=
  match s with
  | [] => [rev cur]
  | c :: s' =>
      match s' with
      | d :: s'' =>
          if N.eqb c nl && N.eqb d nl
          then rev cur :: split_nn_aux [] s''
          else split_nn_aux (c :: cur) s'
      | [] => split_nn_aux (c :: cur) s'
      end
  end.

Definition split_nn (s : str) : list str := split_nn_aux [] s.

(** [lines.pop()] on a non-empty array returns the last element and
    removes it; [split] never returns an empty array. *)
Definition pop (l : list str) : str * list str := (last l [], removelast l).

(** WhiteSpace and LineTerminator code units, the ones [trim] removes. *)
Definition is_trim_space (c : char) : bool :=
  existsb (N.eqb c)
    [9; 10; 11; 12; 13; 32; 160; 5760; 8232; 8233; 8239; 8287; 12288; 65279]%N
  || (N.leb 8192 c && N.leb c 8202).

Fixpoint trim_start (s : str) : str :=
  match s with
  | c :: s' => if is_trim_space c then trim_start s' else s
  | [] => []
  end.

Definition trim (s : str) : str := rev (trim_start (rev (trim_start s))).

(** Truthiness of a string value: only the empty string is falsy. *)
Definition truthy (s : str) : bool :=
  match s with [] => false | _ => true end.

(** Own string-keyed properties of an object, in insertion order. *)
Definition obj (V : Type) := list (str * V).

Fixpoint get {V} (o : obj V) (k : str) : option V :=
  match o with
  | [] => None
  | (k', v) :: o' => if str_eqb k' k then Some v else get o' k
  end.

End Js.

(* ===================================================================== *)
(** ** The response body decoder *)
(* ===================================================================== *)

(** [new TextDecoder()] with [decode(value, {stream: true})]: the platform's
    UTF-8 decoder consumes the bytes one at a time and keeps the bytes of an
    unfinished sequence between calls. *)
Module Utf8.

Record dstate := {
  cp : N;           (* code point under construction *)
  seen : N;         (* continuation bytes seen *)
  needed : N;       (* continuation bytes needed *)
  lower : N;        (* lower boundary of the next byte *)
  upper : N;        (* upper boundary of the next byte *)
  bom_seen : bool   (* the first code point has been looked at *)
}.

Definition init : dstate :=
  {| cp := 0; seen := 0; needed := 0; lower := 128; upper := 191;
     bom_seen := false |}.

Definition reset (bs : bool) : dstate :=
  {| cp := 0; seen := 0; needed := 0; lower := 128; upper := 191;
     bom_seen := bs |}.

(** Code point to UTF-16 code units. *)
Definition units (c : N) : Js.str :=
  if N.ltb c 65536 then [c]
  else let c' := (c - 65536)%N in
       [(55296 + N.shiftr c' 10)%N; (56320 + N.land c' 1023)%N].

(** A decoded code point is appended to the output; a byte order mark in
    first position is dropped. *)
Definition emit (bs : bool) (c : N) : dstate * Js.str :=
  (reset true, if negb bs && N.eqb c 65279 then [] else units c).

Definition in_range (lo hi b : N) : bool := N.leb lo b && N.leb b hi.

Definition lead (bs : bool) (b : N) : dstate * Js.str :=
  if N.leb b 127 then emit bs b
  else if in_range 194 223 b then
    ({| cp := N.land b 31; seen := 0; needed := 1; lower := 128; upper := 191;
        bom_seen := bs |}, [])
  else if in_range 224 239 b then
    ({| cp := N.land b 15; seen := 0; needed := 2;
        lower := if N.eqb b 224 then 160 else 128;
        upper := if N.eqb b 237 then 159 else 191;
        bom_seen := bs |}, [])
  else if in_range 240 244 b then
    ({| cp := N.land b 7; seen := 0; needed := 3;
        lower := if N.eqb b 240 then 144 else 128;
        upper := if N.eqb b 244 then 143 else 191;
        bom_seen := bs |}, [])
  else emit bs 65533.

Definition step (d : dstate) (byte : Byte.byte) : dstate * Js.str :=
  let b := Byte.to_N byte in
  if N.eqb (needed d) 0 then lead (bom_seen d) b
  else if negb (in_range (lower d) (upper d) b) then
    (* malformed: U+FFFD, then the byte is looked at again as a lead byte *)
    let '(d1, o1) := emit (bom_seen d) 65533 in
    let '(d2, o2) := lead (bom_seen d1) b in
    (d2, o1 ++ o2)
  else
    let c := N.lor (N.shiftl (cp d) 6) (N.land b 63) in
    if N.eqb (seen d + 1) (needed d) then emit (bom_seen d) c
    else ({| cp := c; seen := seen d + 1; needed := needed d;
             lower := 128; upper := 191; bom_seen := bom_seen d |}, []).


(** Decoding one chunk: the bytes are fed to [step] in order. *)
Fixpoint decode (d : dstate) (chunk : list Byte.byte) : dstate * Js.str :=
  match chunk with
  | [] => (d, [])
  | b :: chunk' =>
      let '(d1, o1) := step d b in
      let '(d2, o2) := decode d1 chunk' in
      (d2, o1 ++ o2)
  end.

End Utf8.

(* ===================================================================== *)
(** ** static/js/main.js *)
(* ===================================================================== *)

Module Main.

(** The second argument of [showNotification]. *)
Inductive ntype := error | warning | success | info.

Inductive exn_kind := Error | TypeError | SyntaxError | NetworkError.

(** A thrown value: its constructor and its [message]. *)
Record exn := Exn { kind : exn_kind; emessage : Js.str }.

End Main.

(* ===================================================================== *)
(** ** static/js/paper-generation.js *)
(* ===================================================================== *)

Module PaperGeneration.
Import Main.

Record author := { name : Js.str; email : Js.str; affiliation : Js.str }.

(** The paper object carried by a [complete] event, as the server's
    ResearchPaper serialises it.  [sections] keeps the key order of the
    object. *)
Record paper := {
  title : Js.str;
  authors : list author;
  generated_date : Js.str;
  sections : Js.obj Js.str
}.

(** A parsed progress event: the fields the consumer reads.  [status] and
    [section] are [None] when the field is missing or not a string;
    [message] and [count] are the texts the page shows for [data.message]
    and [data.count]; [paper] is [None] when [data.paper] is undefined. *)
Record event := {
  status : option Js.str;
  message : Js.str;
  count : Js.str;
  section : option Js.str;
  paper_of : option paper
}.

(** One [<div class="paper-section">] block. *)
Record block := { heading : Js.str; body : Js.str }.

(** What [displayGeneratedPaper] writes to [#paperContent]: the header and
    the section blocks.  (Figures and references follow the section blocks
    and do not depend on them.) *)
Record rendered := {
  r_title : Js.str;
  r_authors : list author;
  r_date : Js.str;
  r_blocks : list block
}.

Record payload := {
  topic : Js.str;
  p_authors : list author;
  use_rag : bool;
  user_data : option (Js.str * Js.str)
}.

Record request := { url : Js.str; req_body : payload }.

(** The page and the globals that [generatePaper] reads and writes. *)
Record page := {
  loading_hidden : bool;
  progress_hidden : bool;
  loadingText : Js.str;
  progressBar_width : Z;            (* progressBar.style.width, in percent *)
  progressMessage : Js.str;
  currentPaper : option paper;
  paperContent : option rendered;   (* #paperContent.innerHTML *)
  displays : list paper;            (* completed calls of displayGeneratedPaper *)
  alerts : list (Js.str * ntype);   (* showNotification calls, oldest first *)
  console : list exn;               (* console.error calls, oldest first *)
  requests : list request           (* fetch calls, oldest first *)
}.

Definition set_width (w : Z) (p : page) : page :=
  {| loading_hidden := loading_hidden p; progress_hidden := progress_hidden p;
     loadingText := loadingText p; progressBar_width := w;
     progressMessage := progressMessage p; currentPaper := currentPaper p;
     paperContent := paperContent p; displays := displays p;
     alerts := alerts p; console := console p; requests := requests p |}.

Definition set_message (m : Js.str) (p : page) : page :=
  {| loading_hidden := loading_hidden p; progress_hidden := progress_hidden p;
     loadingText := loadingText p; progressBar_width := progressBar_width p;
     progressMessage := m; currentPaper := currentPaper p;
     paperContent := paperContent p; displays := displays p;
     alerts := alerts p; console := console p; requests := requests p |}.

Definition set_currentPaper (c : option paper) (p : page) : page :=
  {| loading_hidden := loading_hidden p; progress_hidden := progress_hidden p;
     loadingText := loadingText p; progressBar_width := progressBar_width p;
     progressMessage := progressMessage p; currentPaper := c;
     paperContent := paperContent p; displays := displays p;
     alerts := alerts p; console := console p; requests := requests p |}.

Definition show (d : paper) (r : rendered) (p : page) : page :=
  {| loading_hidden := loading_hidden p; progress_hidden := progress_hidden p;
     loadingText := loadingText p; progressBar_width := progressBar_width p;
     progressMessage := progressMessage p; currentPaper := currentPaper p;
     paperContent := Some r; displays := displays p ++ [d];
     alerts := alerts p; console := console p; requests := requests p |}.

Definition showNotification (m : Js.str) (t : ntype) (p : page) : page :=
  {| loading_hidden := loading_hidden p; progress_hidden := progress_hidden p;
     loadingText := loadingText p; progressBar_width := progressBar_width p;
     progressMessage := progressMessage p; currentPaper := currentPaper p;
     paperContent := paperContent p; displays := displays p;
     alerts := alerts p ++ [(m, t)]; console := console p;
     requests := requests p |}.

Definition console_error (e : exn) (p : page) : page :=
  {| loading_hidden := loading_hidden p; progress_hidden := progress_hidden p;
     loadingText := loadingText p; progressBar_width := progressBar_width p;
     progressMessage := progressMessage p; currentPaper := currentPaper p;
     paperContent := paperContent p; displays := displays p;
     alerts := alerts p; console := console p ++ [e];
     requests := requests p |}.

Definition fetch (r : request) (p : page) : page :=
  {| loading_hidden := loading_hidden p; progress_hidden := progress_hidden p;
     loadingText := loadingText p; progressBar_width := progressBar_width p;
     progressMessage := progressMessage p; currentPaper := currentPaper p;
     paperContent := paperContent p; displays := displays p;
     alerts := alerts p; console := console p;
     requests := requests p ++ [r] |}.

Definition set_loading (loading progress : bool) (t : Js.str) (p : page) : page :=
  {| loading_hidden := loading; progress_hidden := progress;
     loadingText := t; progressBar_width := progressBar_width p;
     progressMessage := progressMessage p; currentPaper := currentPaper p;
     paperContent := paperContent p; displays := displays p;
     alerts := alerts p; console := console p; requests := requests p |}.

(** *** displayGeneratedPaper *)

Definition sections_order : list Js.str :=
  map Js.lit ["abstract"; "introduction"; "literature_review";
              "methodology"; "results"; "discussion"; "conclusion"]%string.

(** [\w] of a JavaScript regular expression without the [u] flag. *)
Definition is_word (c : Js.char) : bool :=
  (N.leb 48 c && N.leb c 57) || (N.leb 65 c && N.leb c 90)
  || (N.leb 97 c && N.leb c 122) || N.eqb c 95.

(** [l.toUpperCase()] for one [\w] character. *)
Definition toUpperCase (c : Js.char) : Js.char :=
  if N.leb 97 c && N.leb c 122 then (c - 32)%N else c.

(** [s.replace('_', ' ')]: the first underscore only. *)
Fixpoint replace_first_underscore (s : Js.str) : Js.str :=
  match s with
  | [] => []
  | c :: s' => if N.eqb c 95 then 32%N :: s' else c :: replace_first_underscore s'
  end.

(** [s.replace(/\b\w/g, l => l.toUpperCase())]: a word character that does
    not follow a word character is put in upper case. *)
Fixpoint capitalize_words (prev_word : bool) (s : Js.str) : Js.str :=
  match s with
  | [] => []
  | c :: s' =>
      (if is_word c && negb prev_word then toUpperCase c else c)
        :: capitalize_words (is_word c) s'
  end.

(** [s.replace(/\n/g, '<br>')] *)
Fixpoint nl_to_br (s : Js.str) : Js.str :=
  match s with
  | [] => []
  | c :: s' => (if N.eqb c Js.nl then Js.lit "<br>" else [c]) ++ nl_to_br s'
  end.

(** The body of [sections.forEach(section => ...)]. *)
Definition section_block (data_sections : Js.obj Js.str) (section : Js.str)
  : list block :=
  match Js.get data_sections section with
  | Some text =>
      if Js.truthy text
      then [{| heading := capitalize_words false
                            (replace_first_underscore section);
               body := nl_to_br text |}]
      else []
  | None => []
  end.

Definition section_blocks (data_sections : Js.obj Js.str) : list block :=
  flat_map (section_block data_sections) sections_order.

(** The heading of a section name. *)
Definition section_heading (section : Js.str) : Js.str :=
  capitalize_words false (replace_first_underscore section).

(** The names for which [if (data.sections[section])] holds. *)
Definition is_rendered (data_sections : Js.obj Js.str) (section : Js.str)
  : bool :=
  match Js.get data_sections section with
  | Some text => Js.truthy text
  | None => false
  end.

(** The section blocks as the claim words them: one block for each name of
    the fixed list that is present in [data.sections]. *)
Definition section_blocks_if_present (data_sections : Js.obj Js.str)
  : list block :=
  flat_map
    (fun section =>
       match Js.get data_sections section with
       | Some text => [{| heading := section_heading section;
                          body := nl_to_br text |}]
       | None => []
       end)
    sections_order.

Definition displayGeneratedPaper (data : paper) : rendered :=
  {| r_title := title data; r_authors := authors data;
     r_date := generated_date data;
     r_blocks := section_blocks (sections data) |}.

(** *** generatePaper *)

Record author_entry := {
  author_name : Js.str; author_email : Js.str; author_affiliation : Js.str
}.

(** The form fields read at the start of [generatePaper]. *)
Record form := {
  paperTitle_value : Js.str;
  useRAG : bool;
  hasUserData : bool;
  author_entries : list author_entry;
  methodology_value : Js.str;
  results_value : Js.str
}.

(** [authorEntries.forEach(...)]: an entry is kept when its three trimmed
    fields are non-empty. *)
Definition collect_authors (es : list author_entry) : list author :=
  flat_map
    (fun e =>
       let n := Js.trim (author_name e) in
       let m := Js.trim (author_email e) in
       let a := Js.trim (author_affiliation e) in
       if Js.truthy n && Js.truthy m && Js.truthy a
       then [{| name := n; email := m; affiliation := a |}] else [])
    es.

Definition userExperimentalData (f : form) : option (Js.str * Js.str) :=
  if hasUserData f then
    let m := Js.trim (methodology_value f) in
    let r := Js.trim (results_value f) in
    if Js.truthy m || Js.truthy r then Some (m, r) else None
  else None.

Definition sectionMap : Js.obj Z :=
  [(Js.lit "introduction", 55); (Js.lit "literature_review", 62);
   (Js.lit "methodology", 69); (Js.lit "results", 76);
   (Js.lit "discussion", 83); (Js.lit "conclusion", 90)]%Z.

(** U+2705, the check mark of the success notification. *)
Definition check_mark : Js.char := 9989%N.

Definition success_message : Js.str :=
  check_mark :: Js.lit " Research paper generated successfully!".

(** The statements of the inner [try] that follow [JSON.parse]: the chain
    of comparisons on [data.status].  The result is the page and the value
    thrown, if any.  In the [section_start] branch a section name that is
    not an own key of [sectionMap] leaves the width as it is (a name
    inherited from [Object.prototype] gives a value that is no CSS length,
    and the assignment is dropped by the style object). *)
Definition handle (data : event) (p : page) : page * option exn :=
  match status data with
  | None => (p, None)
  | Some s =>
      if Js.str_eqb s (Js.lit "start") then
        (set_message (message data) (set_width 10 p), None)
      else if Js.str_eqb s (Js.lit "title") then
        (set_message (message data) (set_width 20 p), None)
      else if Js.str_eqb s (Js.lit "rag_start") then
        (set_message (message data) (set_width 30 p), None)
      else if Js.str_eqb s (Js.lit "rag_complete") then
        (set_message (Js.lit "Retrieved " ++ count data ++ Js.lit " papers")
           (set_width 40 p), None)
      else if Js.str_eqb s (Js.lit "abstract") then
        (set_message (message data) (set_width 50 p), None)
      else if Js.str_eqb s (Js.lit "section_start") then
        let p1 :=
          match section data with
          | Some sec =>
              match Js.get sectionMap sec with
              | Some w => set_width w p
              | None => p
              end
          | None => p
          end in
        (set_message (message data) p1, None)
      else if Js.str_eqb s (Js.lit "references") then
        (set_message (message data) (set_width 95 p), None)
      else if Js.str_eqb s (Js.lit "complete") then
        let p1 := set_currentPaper (paper_of data)
                    (set_message (Js.lit "Done!") (set_width 100 p)) in
        match paper_of data with
        | None =>
            (* displayGeneratedPaper(undefined) throws on data.title *)
            (p1, Some (Exn TypeError (Js.lit "data is undefined")))
        | Some d =>
            (showNotification success_message success
               (show d (displayGeneratedPaper d) p1), None)
        end
      else if Js.str_eqb s (Js.lit "error") then
        (p, Some (Exn Error (message data)))
      else (p, None)
  end.

(** [try { ...handle... } catch (e) { console.error('Error parsing stream:', e) }]
    once [JSON.parse] has returned. *)
Definition on_event (p : page) (data : event) : page :=
  let '(p1, thrown) := handle data p in
  match thrown with
  | Some e => console_error e p1
  | None => p1
  end.

(** The complete frames of a decoded stream: the pieces that a ["\n\n"]
    separator ends; the piece after the last separator is not one. *)
Definition frames (text : Js.str) : list Js.str :=
  removelast (Js.split_nn text).

(** The frames that begin with ["data: "], without that prefix. *)
Definition payloads (text : Js.str) : list Js.str :=
  map (Js.slice 6) (filter (Js.startsWith (Js.lit "data: ")) (frames text)).

(** The statuses of the progress protocol. *)
Definition known_statuses : list Js.str :=
  map Js.lit ["start"; "title"; "rag_start"; "rag_complete"; "abstract";
              "section_start"; "references"; "complete"; "error"]%string.

Definition known_status (e : event) : bool :=
  match status e with
  | Some s => existsb (Js.str_eqb s) known_statuses
  | None => false
  end.

(** The events of a successful run, in order: the status and, for
    [section_start], the section. *)
Definition successful_order : list (Js.str * option Js.str) :=
  map (fun x => (Js.lit (fst x), option_map Js.lit (snd x)))
    [("start", None); ("title", None); ("rag_start", None);
     ("rag_complete", None); ("abstract", None);
     ("section_start", Some "introduction");
     ("section_start", Some "literature_review");
     ("section_start", Some "methodology");
     ("section_start", Some "results");
     ("section_start", Some "discussion");
     ("section_start", Some "conclusion");
     ("references", None); ("complete", None)]%string.

(** The stage an event stands for. *)
Definition stage (e : event) : option (Js.str * option Js.str) :=
  match status e with
  | Some s =>
      Some (s, if Js.str_eqb s (Js.lit "section_start") then section e
               else None)
  | None => None
  end.

Section Consumer.

(** [JSON.parse] followed by the first read of [data.status]: [inl e] when
    the text is no JSON ([SyntaxError]) or parses to [null] ([TypeError]),
    otherwise the event fields read from the parsed value. *)
Variable parse : Js.str -> exn + event.

(** The [try] statement applied to the text that follows ["data: "]. *)
Definition on_payload (p : page) (text : Js.str) : page :=
  match parse text with
  | inl e => console_error e p
  | inr data => on_event p data
  end.

(** The body of [for (const line of lines)]. *)
Definition on_line (p : page) (line : Js.str) : page :=
  if Js.startsWith (Js.lit "data: ") line then on_payload p (Js.slice 6 line)
  else p.

(** The variables of the read loop. *)
Record reader := { decoder : Utf8.dstate; buffer : Js.str; pg : page }.

(** One iteration of [while (true)] in which [reader.read()] gave [value]. *)
Definition on_chunk (st : reader) (value : list Byte.byte) : reader :=
  let '(d, text) := Utf8.decode (decoder st) value in
  let '(rest, lines) := Js.pop (Js.split_nn (buffer st ++ text)) in
  {| decoder := d; buffer := rest; pg := fold_left on_line lines (pg st) |}.

Definition read_loop (chunks : list (list Byte.byte)) (p : page) : reader :=
  fold_left on_chunk chunks {| decoder := Utf8.init; buffer := []; pg := p |}.

(** How the response body ends: [done], or a rejected [read()]. *)
Inductive body_end := Done | ReadFails (e : exn).

(** What the network gives back to [fetch]. *)
Inductive response :=
| FetchFails (e : exn)
| Body (chunks : list (list Byte.byte)) (fin : body_end).

Definition ui_setup (p : page) : page :=
  set_message (Js.lit "Starting...")
    (set_width 5
       (set_loading false false (Js.lit "Generating Research Paper...") p)).

(** The outer [catch (error)]. *)
Definition on_failure (e : exn) (p : page) : page :=
  console_error e
    (showNotification (Js.lit "Failed to generate paper: " ++ emessage e) error p).

(** The [finally] block. *)
Definition finally (p : page) : page :=
  set_loading true true (loadingText p) p.

Definition generatePaper (f : form) (net : response) (p : page) : page :=
  let paperTitle := Js.trim (paperTitle_value f) in
  let authors := collect_authors (author_entries f) in
  if negb (Js.truthy paperTitle) then
    showNotification (Js.lit "Please enter a paper topic") error p
  else if Nat.ltb (length paperTitle) 10 then
    showNotification (Js.lit "Topic too short. Minimum 10 characters.") warning p
  else if Nat.eqb (length authors) 0 then
    showNotification
      (Js.lit "Please add at least one author with complete details") error p
  else
    let payload := {| topic := paperTitle; p_authors := authors;
                      use_rag := useRAG f;
                      user_data := userExperimentalData f |} in
    let p1 := fetch {| url := Js.lit "/api/generate-paper-stream";
                       req_body := payload |} (ui_setup p) in
    finally
      match net with
      | FetchFails e => on_failure e p1
      | Body chunks fin =>
          let p2 := pg (read_loop chunks p1) in
          match fin with
          | Done => p2
          | ReadFails e => on_failure e p2
          end
      end.

End Consumer.

(** The page after each event of a sequence, in order. *)
Fixpoint pages_after (p : page) (evs : list event) : list page :=
  match evs with
  | [] => []
  | e :: evs' => let p1 := on_event p e in p1 :: pages_after p1 evs'
  end.

End PaperGeneration.

(* ===================================================================== *)
(** ** static/js/literature-survey.js *)
(* ===================================================================== *)

Module LiteratureSurvey.
Import Main.

(** The JSON answer of [/api/retrieve-papers]; [error] and [papers] are
    [None] when falsy. *)
Record retrieve_data := {
  r_success : bool;
  r_error : option Js.str;
  r_papers : option (list Js.str)
}.

(** The JSON answer of [/api/generate-survey]; [s_text] is
    [surveyData.survey || surveyData.content]. *)
Record survey_data := {
  s_success : bool;
  s_error : option Js.str;
  s_text : Js.str
}.

(** What a [fetch] gives: a rejection, or a response with its [ok] flag,
    its status (as printed) and the outcome of [response.json()]. *)
Inductive http (A : Type) :=
| Rejected (e : exn)
| Answer (ok : bool) (status : Js.str) (json : exn + A).

Inductive request :=
| RetrievePapers (topic : Js.str) (count : Z)
| GenerateSurvey (topic : Js.str) (papers : list Js.str).

Record page := {
  loading : option Js.str;          (* the overlay text, [None] when hidden *)
  surveyTopic : Js.str;
  surveyRetrievedPapers : list Js.str;
  surveyGeneratedContent : Js.str;
  shown : list survey_data;         (* calls of displaySurvey *)
  alerts : list (Js.str * ntype);
  console : list exn;
  requests : list request
}.

Definition showLoading (m : Js.str) (p : page) : page :=
  {| loading := Some m; surveyTopic := surveyTopic p;
     surveyRetrievedPapers := surveyRetrievedPapers p;
     surveyGeneratedContent := surveyGeneratedContent p; shown := shown p;
     alerts := alerts p; console := console p; requests := requests p |}.

Definition hideLoading (p : page) : page :=
  {| loading := None; surveyTopic := surveyTopic p;
     surveyRetrievedPapers := surveyRetrievedPapers p;
     surveyGeneratedContent := surveyGeneratedContent p; shown := shown p;
     alerts := alerts p; console := console p; requests := requests p |}.

Definition showNotification (m : Js.str) (t : ntype) (p : page) : page :=
  {| loading := loading p; surveyTopic := surveyTopic p;
     surveyRetrievedPapers := surveyRetrievedPapers p;
     surveyGeneratedContent := surveyGeneratedContent p; shown := shown p;
     alerts := alerts p ++ [(m, t)]; console := console p;
     requests := requests p |}.

Definition console_error (e : exn) (p : page) : page :=
  {| loading := loading p; surveyTopic := surveyTopic p;
     surveyRetrievedPapers := surveyRetrievedPapers p;
     surveyGeneratedContent := surveyGeneratedContent p; shown := shown p;
     alerts := alerts p; console := console p ++ [e];
     requests := requests p |}.

Definition fetch (r : request) (p : page) : page :=
  {| loading := loading p; surveyTopic := surveyTopic p;
     surveyRetrievedPapers := surveyRetrievedPapers p;
     surveyGeneratedContent := surveyGeneratedContent p; shown := shown p;
     alerts := alerts p; console := console p;
     requests := requests p ++ [r] |}.

Definition set_topic (t : Js.str) (p : page) : page :=
  {| loading := loading p; surveyTopic := t;
     surveyRetrievedPapers := surveyRetrievedPapers p;
     surveyGeneratedContent := surveyGeneratedContent p; shown := shown p;
     alerts := alerts p; console := console p; requests := requests p |}.

Definition set_papers (l : list Js.str) (p : page) : page :=
  {| loading := loading p; surveyTopic := surveyTopic p;
     surveyRetrievedPapers := l;
     surveyGeneratedContent := surveyGeneratedContent p; shown := shown p;
     alerts := alerts p; console := console p; requests := requests p |}.

Definition set_content (c : Js.str) (p : page) : page :=
  {| loading := loading p; surveyTopic := surveyTopic p;
     surveyRetrievedPapers := surveyRetrievedPapers p;
     surveyGeneratedContent := c; shown := shown p;
     alerts := alerts p; console := console p; requests := requests p |}.

Definition displaySurvey (d : survey_data) (p : page) : page :=
  {| loading := loading p; surveyTopic := surveyTopic p;
     surveyRetrievedPapers := surveyRetrievedPapers p;
     surveyGeneratedContent := surveyGeneratedContent p;
     shown := shown p ++ [d];
     alerts := alerts p; console := console p; requests := requests p |}.

Definition or_unknown (e : option Js.str) : Js.str :=
  match e with Some m => m | None => Js.lit "Unknown error" end.

(** The [catch] block of [generateSurvey]. *)
Definition on_failure (e : exn) (p : page) : page :=
  showNotification (Js.lit "Failed to generate survey. Please try again.") error
    (console_error e p).

(** [await fetch(...)], the [ok] test and [await response.json()]: the
    parsed answer, or the value thrown. *)
Definition answer {A} (r : http A) : exn + A :=
  match r with
  | Rejected _ e => inl e
  | Answer false st _ => inl (Exn Error (Js.lit "HTTP " ++ st))
  | Answer true _ j => j
  end.

Definition success_message : Js.str :=
  9989%N :: Js.lit " Literature survey generated successfully!".

Definition generateSurvey (topic_value : Js.str)
  (net1 : http retrieve_data) (net2 : http survey_data) (p : page) : page :=
  let topic := Js.trim topic_value in
  if negb (Js.truthy topic) then
    showNotification (Js.lit "Please enter a research topic") error p
  else if Nat.ltb (length topic) 10 then
    showNotification
      (Js.lit "Topic too short. Please provide at least 10 characters.")
      warning p
  else
    let p1 := showLoading
                (Js.lit "Step 1/2: Retrieving papers from Semantic Scholar...")
                (set_topic topic p) in
    let p2 := fetch (RetrievePapers topic 10) p1 in
    hideLoading
      match answer net1 with
      | inl e => on_failure e p2
      | inr retrieveData =>
          if negb (r_success retrieveData) then
            hideLoading
              (showNotification
                 (Js.lit "Failed to retrieve papers: "
                    ++ or_unknown (r_error retrieveData)) error p2)
          else
            let papers :=
              match r_papers retrieveData with Some l => l | None => [] end in
            let p3 := showLoading
                        (Js.lit "Step 2/2: Generating literature survey...")
                        (set_papers papers p2) in
            let p4 := fetch (GenerateSurvey topic papers) p3 in
            match answer net2 with
            | inl e => on_failure e p4
            | inr surveyData =>
                if s_success surveyData then
                  showNotification success_message success
                    (displaySurvey surveyData
                       (set_content (s_text surveyData) p4))
                else
                  showNotification
                    (Js.lit "Error generating survey: "
                       ++ or_unknown (s_error surveyData)) error p4
            end
      end.

End LiteratureSurvey.

(* ===================================================================== *)
(** ** static/js/paper-generation.js: download and recovery *)
(* ===================================================================== *)

Module PaperDownload.
Import Main PaperGeneration.

(** [/[a-z0-9]/i] on one code unit: without the [u] flag a character
    beyond ASCII is never folded onto an ASCII letter. *)
Definition is_alnum (c : Js.char) : bool :=
  (N.leb 48 c && N.leb c 57) || (N.leb 65 c && N.leb c 90)
  || (N.leb 97 c && N.leb c 122).

(** [title.replace(/[^a-z0-9]/gi, '_')] *)
Definition safe_name (title : Js.str) : Js.str :=
  map (fun c => if is_alnum c then c else 95%N) title.

(** The page of [generatePaper] with what [downloadPaper] adds to it: the
    requests it posts (endpoint, [undefined] as [None], and paper) and the
    names of the files saved through the temporary link. *)
Record dpage := {
  ui : page;
  posted : list (option Js.str * paper);
  saved : list Js.str
}.

Definition on_ui (f : page -> page) (d : dpage) : dpage :=
  {| ui := f (ui d); posted := posted d; saved := saved d |}.

(** [showLoading(message)] and [hideLoading()] of main.js. *)
Definition showLoading (m : Js.str) (p : page) : page :=
  set_loading false (progress_hidden p) m p.

Definition hideLoading (p : page) : page :=
  set_loading true (progress_hidden p) (loadingText p) p.

Definition endpoint (format : Js.str) : option Js.str :=
  if Js.str_eqb format (Js.lit "pdf") then Some (Js.lit "/api/download-pdf")
  else if Js.str_eqb format (Js.lit "docx") then Some (Js.lit "/api/download-docx")
  else if Js.str_eqb format (Js.lit "pptx") then Some (Js.lit "/api/download-pptx")
  else None.

Section Download.

(** [String.prototype.toUpperCase] *)
Variable toUpperCase : Js.str -> Js.str.

(** [downloadPaper(format)]; [net] is the outcome of the [fetch]: the
    value it rejects with, or the [ok] flag of the response. *)
Definition downloadPaper (format : Js.str) (net : exn + bool) (d : dpage)
  : dpage :=
  match currentPaper (ui d) with
  | None => on_ui (showNotification (Js.lit "No paper to download") error) d
  | Some paper =>
      let d1 := on_ui (showLoading (Js.lit "Preparing " ++ toUpperCase format
                                    ++ Js.lit " download...")) d in
      let d2 := {| ui := ui d1;
                   posted := posted d1 ++ [(endpoint format, paper)];
                   saved := saved d1 |} in
      on_ui hideLoading
        match net with
        | inl e =>
            on_ui (fun p => showNotification
                              (Js.lit "Download failed. Please try again.")
                              error (console_error e p)) d2
        | inr true =>
            on_ui (showNotification
                     (Js.lit "Paper downloaded as " ++ toUpperCase format
                      ++ Js.lit "!") success)
              {| ui := ui d2; posted := posted d2;
                 saved := saved d2
                          ++ [safe_name (title paper) ++ Js.lit "." ++ format] |}
        | inr false =>
            on_ui (showNotification (Js.lit "Download failed") error) d2
        end
  end.

End Download.

(** The JSON answer of [/api/latest-paper]: the truth value of
    [data.success] and [data.paper], [None] when it is undefined or null. *)
Record latest := { l_success : bool; l_paper : option paper }.

(** [recoverLastPaper()]; [net] is the outcome of the [fetch] and of
    [response.json()]: the value thrown, or the answer.  With a successful
    answer [currentPaper] is assigned first; without a paper the read of
    [data.paper.title] then throws and the [catch] block runs. *)
Definition recoverLastPaper (net : exn + latest) (p : page) : page :=
  let p0 := showLoading (Js.lit "Recovering last generated paper...") p in
  hideLoading
    match net with
    | inl e =>
        showNotification (Js.lit "Failed to recover paper") error
          (console_error e p0)
    | inr data =>
        if l_success data then
          let p1 := set_currentPaper (l_paper data) p0 in
          match l_paper data with
          | Some d =>
              showNotification
                (check_mark :: Js.lit " Paper recovered successfully!") success
                (show d (displayGeneratedPaper d) p1)
          | None =>
              showNotification (Js.lit "Failed to recover paper") error
                (console_error
                   (Exn TypeError (Js.lit "data.paper is undefined")) p1)
          end
        else
          showNotification (Js.lit "No saved paper found to recover") warning p0
    end.

(** The paper that the handled events leave in [currentPaper]: the one of
    the last [complete] event, [None] when that event carried none. *)
Definition last_completed (evs : list event) (init : option paper)
  : option paper :=
  fold_left
    (fun cur e =>
       match status e with
       | Some s => if Js.str_eqb s (Js.lit "complete") then paper_of e else cur
       | None => cur
       end)
    evs init.

End PaperDownload.

(* ===================================================================== *)
(** ** static/js/literature-survey.js: display and hand-over *)
(* ===================================================================== *)

Module SurveyDisplay.
Import Main.

(** [s.replace(/\n\n/g, r)]: every occurrence found from the left, the
    search resuming after it. *)
Fixpoint replace_nn (r : Js.str) (s : Js.str) : Js.str :=
  match s with
  | [] => []
  | c :: s' =>
      match s' with
      | d :: s'' =>
          if N.eqb c Js.nl && N.eqb d Js.nl then r ++ replace_nn r s''
          else c :: replace_nn r s'
      | [] => [c]
      end
  end.

(** The two replacements of [displaySurvey] on the survey text. *)
Definition formattedContent (text : Js.str) : Js.str :=
  PaperGeneration.nl_to_br (replace_nn (Js.lit "</p><p>") text).

(** [pieces.join(sep)] *)
Fixpoint join (sep : Js.str) (pieces : list Js.str) : Js.str :=
  match pieces with
  | [] => []
  | [p] => p
  | p :: rest => p ++ sep ++ join sep rest
  end.

(** [proceedToPaperGenerationFromSurvey()]: the survey topic is written to
    the title field of the paper form; with no topic only a notification
    is shown. *)
Definition proceedToPaperGenerationFromSurvey
  (q : LiteratureSurvey.page) (f : PaperGeneration.form)
  : LiteratureSurvey.page * PaperGeneration.form :=
  if negb (Js.truthy (LiteratureSurvey.surveyTopic q)) then
    (LiteratureSurvey.showNotification (Js.lit "No topic available") error q, f)
  else
    (LiteratureSurvey.showNotification
       (9989%N :: Js.lit " Topic populated in Paper Generation") success q,
     {| PaperGeneration.paperTitle_value := LiteratureSurvey.surveyTopic q;
        PaperGeneration.useRAG := PaperGeneration.useRAG f;
        PaperGeneration.hasUserData := PaperGeneration.hasUserData f;
        PaperGeneration.author_entries := PaperGeneration.author_entries f;
        PaperGeneration.methodology_value := PaperGeneration.methodology_value f;
        PaperGeneration.results_value := PaperGeneration.results_value f |}).

End SurveyDisplay.

(* ===================================================================== *)
(** ** static/js/literature-survey.js: download *)
(* ===================================================================== *)

Module SurveyDownload.
Import Main.
Module L := LiteratureSurvey.

(** The survey page with what [downloadSurvey] adds to it: the bodies it
    posts to [/api/download-survey-pdf] (topic and survey) and the names of
    the files saved through the temporary link. *)
Record spage := {
  ui : L.page;
  posted : list (Js.str * Js.str);
  saved : list Js.str
}.

Definition on_ui (f : L.page -> L.page) (d : spage) : spage :=
  {| ui := f (ui d); posted := posted d; saved := saved d |}.

(** [downloadSurvey()]; [now] is [Date.now()] as the template prints it,
    [net] the outcome of the [fetch], the answer standing for
    [response.blob()]. *)
Definition downloadSurvey (now : Js.str) (net : L.http unit) (d : spage)
  : spage :=
  if negb (Js.truthy (L.surveyGeneratedContent (ui d))) then
    on_ui (L.showNotification
             (Js.lit "No survey to download. Generate one first.") error) d
  else
    let d1 := on_ui (L.showLoading (Js.lit "Generating PDF...")) d in
    let d2 := {| ui := ui d1;
                 posted := posted d1
                           ++ [(L.surveyTopic (ui d1),
                                L.surveyGeneratedContent (ui d1))];
                 saved := saved d1 |} in
    on_ui L.hideLoading
      match L.answer net with
      | inl e =>
          on_ui (fun p => L.showNotification
                            (Js.lit "Failed to download PDF. Please try again.")
                            error (L.console_error e p)) d2
      | inr _ =>
          on_ui (L.showNotification
                   (9989%N :: Js.lit " PDF downloaded successfully!") success)
            {| ui := ui d2; posted := posted d2;
               saved := saved d2
                        ++ [Js.lit "literature_survey_" ++ now ++ Js.lit ".pdf"] |}
      end.

End SurveyDownload.

(* ===================================================================== *)
(** ** static/js/main.js: navigation *)
(* ===================================================================== *)

Module Navigation.
Import Main.

(** An element of the page: its [id] (empty when it has none) and its
    [classList]. *)
Record element := { id : Js.str; classes : list Js.str }.

(** The elements of the document, in document order. *)
Definition document := list element.

Definition contains (c : Js.str) (e : element) : bool :=
  existsb (Js.str_eqb c) (classes e).

(** [e.classList.add(c)] and [e.classList.remove(c)] *)
Definition add (c : Js.str) (e : element) : element :=
  {| id := id e;
     classes := if contains c e then classes e else classes e ++ [c] |}.

Definition remove (c : Js.str) (e : element) : element :=
  {| id := id e;
     classes := filter (fun x => negb (Js.str_eqb c x)) (classes e) |}.

Definition hidden (e : element) : bool := contains (Js.lit "hidden") e.
Definition content_section (e : element) : bool :=
  contains (Js.lit "content-section") e.
Definition feature_grid (e : element) : bool :=
  contains (Js.lit "feature-grid") e.

(** The first element that satisfies [sel], changed by [f]: what
    [document.querySelector(sel)] or [document.getElementById(id)]
    followed by a change of the element does. *)
Fixpoint on_first (sel : element -> bool) (f : element -> element)
  (d : document) : document :=
  match d with
  | [] => []
  | e :: d' => if sel e then f e :: d' else e :: on_first sel f d'
  end.

(** [document.querySelectorAll('.content-section').forEach(section =>
    section.classList.add('hidden'))] *)
Definition hide_sections (d : document) : document :=
  map (fun e => if content_section e then add (Js.lit "hidden") e else e) d.

(** The error of [document.querySelector('.feature-grid').classList] when
    no element has the class. *)
Definition no_grid : exn :=
  Exn TypeError (Js.lit "document.querySelector(...) is null").

(** [showSection(sectionName)]: the document after the call, and the error
    thrown if any. *)
Definition showSection (sectionName : Js.str) (d : document)
  : document * option exn :=
  let d1 := hide_sections d in
  if existsb feature_grid d1 then
    let d2 := on_first feature_grid (add (Js.lit "hidden")) d1 in
    (on_first (fun e => Js.str_eqb (id e) (sectionName ++ Js.lit "-section"))
       (remove (Js.lit "hidden")) d2, None)
  else (d1, Some no_grid).

(** [showHome()] *)
Definition showHome (d : document) : document * option exn :=
  let d1 := hide_sections d in
  if existsb feature_grid d1 then
    (on_first feature_grid (remove (Js.lit "hidden")) d1, None)
  else (d1, Some no_grid).

End Navigation.

(* ===================================================================== *)
(** ** Python strings and the [re] calls of the documented routines *)
(* ===================================================================== *)

Module Py.

(** A Python [str] is a sequence of Unicode code points. *)
Definition char := N.
Definition str := list char.

Definition lit (s : string) : str := map N_of_ascii (list_ascii_of_string s).

Fixpoint str_eqb (a b : str) : bool :=
  match a, b with
  | [], [] => true
  | x :: a', y :: b' => N.eqb x y && str_eqb a' b'
  | _, _ => false
  end.

(** The character tables of the interpreter beyond ASCII, and [str.lower]. *)
Record unicode := {
  u_word : char -> bool;     (* alphanumeric *)
  u_space : char -> bool;    (* whitespace *)
  u_digit : char -> bool;    (* decimal digit *)
  u_lower : str -> str       (* str.lower() *)
}.

Definition ascii_lower (c : char) : char :=
  if N.leb 65 c && N.leb c 90 then (c + 32)%N else c.

(** Tables that know no alphanumeric, whitespace or digit beyond ASCII. *)
Definition ascii_only : unicode :=
  {| u_word := fun _ => false; u_space := fun _ => false;
     u_digit := fun _ => false; u_lower := map ascii_lower |}.

Section Classes.
Variable U : unicode.

(** [\d] *)
Definition is_digit (c : char) : bool :=
  if N.ltb c 128 then N.leb 48 c && N.leb c 57 else u_digit U c.

(** [\w] *)
Definition is_word (c : char) : bool :=
  if N.ltb c 128 then
    (N.leb 48 c && N.leb c 57) || (N.leb 65 c && N.leb c 90)
    || (N.leb 97 c && N.leb c 122) || N.eqb c 95
  else u_word U c.

(** [\s], also the characters removed by [str.strip()] *)
Definition is_space (c : char) : bool :=
  if N.ltb c 128 then
    (N.leb 9 c && N.leb c 13) || (N.leb 28 c && N.leb c 32)
  else u_space U c.

(** [\S] *)
Definition not_space (c : char) : bool := negb (is_space c).

Definition lower (s : str) : str := u_lower U s.

Fixpoint lstrip (s : str) : str :=
  match s with
  | c :: s' => if is_space c then lstrip s' else s
  | [] => []
  end.

(** [s.strip()] *)
Definition strip (s : str) : str := rev (lstrip (rev (lstrip s))).

End Classes.

Definition chr (c : char) : char -> bool := N.eqb c.

(** [s.startswith(p)] *)
Fixpoint startswith (p s : str) : bool :=
  match p, s with
  | [], _ => true
  | _ :: _, [] => false
  | a :: p', b :: s' => N.eqb a b && startswith p' s'
  end.

(** One element of a pattern: a character class with its repetition.
    [many = false]: exactly [least] characters; [many = true]: [least] or
    more, as many as possible first. *)
Record item := { cls : char -> bool; least : nat; many : bool }.

Definition one (f : char -> bool) : item :=
  {| cls := f; least := 1; many := false |}.
Definition plus (f : char -> bool) : item :=
  {| cls := f; least := 1; many := true |}.
Definition star (f : char -> bool) : item :=
  {| cls := f; least := 0; many := true |}.
Definition at_least (n : nat) (f : char -> bool) : item :=
  {| cls := f; least := n; many := true |}.

(** A literal text as a pattern. *)
Definition literal (s : str) : list item := map (fun c => one (chr c)) s.

(** Length of the longest prefix in the class. *)
Fixpoint run (f : char -> bool) (s : str) : nat :=
  match s with
  | c :: s' => if f c then S (run f s') else 0
  | [] => 0
  end.

(** The engine tries the repetition counts from [k] down to [least] and
    keeps the first for which the rest of the pattern matches. *)
Fixpoint backtrack (rest : str -> option (list str * str)) (lo : nat)
  (s : str) (k : nat) : option (list str * str) :=
  if Nat.ltb k lo then None else
  match rest (skipn k s) with
  | Some (segs, r) => Some (firstn k s :: segs, r)
  | None =>
      match k with
      | 0 => None
      | S k' => backtrack rest lo s k'
      end
  end.

(** Match of a pattern at the start of [s]: the text matched by each item
    and what follows the match. *)
Fixpoint match_here (pat : list item) (s : str) : option (list str * str) :=
  match pat with
  | [] => Some ([], s)
  | it :: pat' =>
      let r := run (cls it) s in
      if many it then backtrack (match_here pat') (least it) s r
      else if Nat.ltb r (least it) then None
      else backtrack (match_here pat') (least it) s (least it)
  end.

(** [re.sub(pat, repl, s)]: the string is scanned from the left; where the
    pattern matches, the replacement (a function of the item texts, for the
    group references) is written and the scan resumes after the match;
    elsewhere the character is copied.  [skip] counts the characters of the
    last match still to pass. *)
Fixpoint sub_from (pat : list item) (repl : list str -> str) (skip : nat)
  (s : str) : str :=
  match s with
  | [] =>
      match skip, match_here pat [] with
      | 0, Some (segs, _) => repl segs
      | _, _ => []
      end
  | c :: s' =>
      match skip with
      | S k => sub_from pat repl k s'
      | 0 =>
          match match_here pat s with
          | Some (segs, r) =>
              let n := length s - length r in
              match n with
              | 0 => repl segs ++ c :: sub_from pat repl 0 s'
              | S k => repl segs ++ sub_from pat repl k s'
              end
          | None => c :: sub_from pat repl 0 s'
          end
      end
  end.

Definition sub (pat : list item) (repl : list str -> str) (s : str) : str :=
  sub_from pat repl 0 s.

(** The pattern occurs nowhere in [s]: it matches at no position, the end
    of the text included. *)
Fixpoint absent (pat : list item) (s : str) : bool :=
  match match_here pat s with
  | Some _ => false
  | None =>
      match s with
      | [] => true
      | _ :: s' => absent pat s'
      end
  end.

(** [s.replace(old, new)] for a non-empty [old]. *)
Definition replace (old new s : str) : str :=
  sub (literal old) (fun _ => new) s.

(** [s[:n]] *)
Definition slice_to {A} (n : Z) (s : list A) : list A :=
  if Z.leb 0 n then firstn (Z.to_nat n) s
  else firstn (length s - Z.to_nat (- n)) s.

(** The text of group made of the items [i .. j-1]. *)
Definition group (i j : nat) (segs : list str) : str :=
  concat (firstn (j - i) (skipn i segs)).

End Py.

(* ===================================================================== *)
(** ** models/llm.py: the content formatting post-processor *)
(* ===================================================================== *)

Module Llm.
Import Py.

Definition bullet : char := 8226%N.       (* U+2022 *)
Definition break : str := [10; 10]%N.     (* "\n\n" *)

(** The entries of the two tables that the documentation shows; the tables
    of the module are longer. *)
Definition shown_fixes : list (str * str) :=
  [([226; 8364; 162], [bullet]); ([194; 178], [178])]%N.

Definition shown_labels : list str :=
  map lit ["Key Insight:"; "Objectives:"; "Methodology:"]%string.

Section Formatter.
Variable U : unicode.
(** The table [fixes] (mis-decoded text, correct text), in dictionary order,
    and the list [labels]; a label is plain text, without characters that
    are special in a pattern. *)
Variable fixes : list (str * str).
Variable labels : list str.

(** 1. Fix encoding *)
Definition fix_encoding (text : str) : str :=
  fold_left (fun t fx => replace (fst fx) (snd fx) t) fixes text.

(** 2. Remove code fences *)
Definition remove_fences (text : str) : str :=
  sub (literal (lit "```")) (fun _ => []) text.

(** 3. Line breaks before subsections: [(\w)\s+({letter}\.\s+\w)] *)
Definition subsection_pat (letter : char) : list item :=
  [one (is_word U); plus (is_space U); one (chr letter); one (chr 46%N);
   plus (is_space U); one (is_word U)].

Definition break_subsections (text : str) : str :=
  fold_left
    (fun t letter =>
       sub (subsection_pat letter)
         (fun segs => group 0 1 segs ++ break ++ group 2 6 segs) t)
    (lit "ABCDE") text.

(** 4. Line breaks before bullets: [(\S)\s*•\s*] *)
Definition bullet_pat : list item :=
  [one (not_space U); star (is_space U); one (chr bullet); star (is_space U)].

Definition break_bullets (text : str) : str :=
  sub bullet_pat (fun segs => group 0 1 segs ++ break ++ [bullet; 32%N]) text.

(** 5. Line breaks before numbered lists: [(\w)\s+(\d+)\.\s+] *)
Definition numbered_pat : list item :=
  [one (is_word U); plus (is_space U); plus (is_digit U); one (chr 46%N);
   plus (is_space U)].

Definition break_numbered (text : str) : str :=
  sub numbered_pat
    (fun segs => group 0 1 segs ++ break ++ group 2 3 segs ++ lit ". ") text.

(** 6. Line breaks before labels: [(\w)\s+({label})] *)
Definition label_pat (label : str) : list item :=
  [one (is_word U); plus (is_space U)] ++ literal label.

Definition break_labels (text : str) : str :=
  fold_left
    (fun t label =>
       sub (label_pat label)
         (fun segs => group 0 1 segs ++ break ++ group 2 (length segs) segs) t)
    labels text.

(** 7. Remove artifacts *)
Definition remove_dashes (text : str) : str :=
  sub [at_least 3 (chr 45%N)] (fun _ => []) text.

Definition remove_bold (text : str) : str :=
  sub [at_least 2 (chr 42%N)] (fun _ => []) text.

Definition collapse_newlines (text : str) : str :=
  sub [at_least 3 (chr 10%N)] (fun _ => break) text.

Definition _format_structured_content (text : str) : str :=
  let text := fix_encoding text in
  let text := remove_fences text in
  let text := break_subsections text in
  let text := break_bullets text in
  let text := break_numbered text in
  let text := break_labels text in
  let text := remove_dashes text in
  let text := remove_bold text in
  let text := collapse_newlines text in
  strip U text.

(** The patterns of the ten steps, in order. *)
Definition patterns : list (list item) :=
  map (fun fx => literal (fst fx)) fixes
  ++ [literal (lit "```")]
  ++ map subsection_pat (lit "ABCDE")
  ++ [bullet_pat; numbered_pat]
  ++ map label_pat labels
  ++ [[at_least 3 (chr 45%N)]; [at_least 2 (chr 42%N)];
      [at_least 3 (chr 10%N)]].

(** A text without structural cue and without artifact: none of the
    patterns occurs in it. *)
Definition plain (text : str) : bool :=
  forallb (fun pat => absent pat text) patterns.

End Formatter.

End Llm.

(* ===================================================================== *)
(** ** [str.encode()] and [hashlib.md5(...).hexdigest()] *)
(* ===================================================================== *)

Module Md5.

(** UTF-8 bytes of one code point; a surrogate cannot be encoded. *)
Definition encode_char (c : N) : option (list N) :=
  if N.ltb c 128 then Some [c]
  else if N.ltb c 2048 then
    Some [192 + N.shiftr c 6; 128 + N.land c 63]%N
  else if N.leb 55296 c && N.leb c 57343 then None
  else if N.ltb c 65536 then
    Some [224 + N.shiftr c 12; 128 + N.land (N.shiftr c 6) 63;
          128 + N.land c 63]%N
  else
    Some [240 + N.shiftr c 18; 128 + N.land (N.shiftr c 12) 63;
          128 + N.land (N.shiftr c 6) 63; 128 + N.land c 63]%N.

(** [s.encode()]: [None] stands for [UnicodeEncodeError]. *)
Fixpoint encode (s : Py.str) : option (list N) :=
  match s with
  | [] => Some []
  | c :: s' =>
      match encode_char c, encode s' with
      | Some b, Some bs => Some (b ++ bs)
      | _, _ => None
      end
  end.

Definition w32 (x : N) : N := N.modulo x 4294967296.

Definition rotl (x c : N) : N :=
  w32 (N.lor (N.shiftl x c) (N.shiftr x (32 - c))).

Definition not32 (x : N) : N := N.lxor x 4294967295.

Definition K : list N :=
  [3614090360; 3905402710; 606105819; 3250441966;
   4118548399; 1200080426; 2821735955; 4249261313;
   1770035416; 2336552879; 4294925233; 2304563134;
   1804603682; 4254626195; 2792965006; 1236535329;
   4129170786; 3225465664; 643717713; 3921069994;
   3593408605; 38016083; 3634488961; 3889429448;
   568446438; 3275163606; 4107603335; 1163531501;
   2850285829; 4243563512; 1735328473; 2368359562;
   4294588738; 2272392833; 1839030562; 4259657740;
   2763975236; 1272893353; 4139469664; 3200236656;
   681279174; 3936430074; 3572445317; 76029189;
   3654602809; 3873151461; 530742520; 3299628645;
   4096336452; 1126891415; 2878612391; 4237533241;
   1700485571; 2399980690; 4293915773; 2240044497;
   1873313359; 4264355552; 2734768916; 1309151649;
   4149444226; 3174756917; 718787259; 3951481745]%N.

Definition shifts : list N :=
  [7; 12; 17; 22; 7; 12; 17; 22; 7; 12; 17; 22; 7; 12; 17; 22;
   5; 9; 14; 20; 5; 9; 14; 20; 5; 9; 14; 20; 5; 9; 14; 20;
   4; 11; 16; 23; 4; 11; 16; 23; 4; 11; 16; 23; 4; 11; 16; 23;
   6; 10; 15; 21; 6; 10; 15; 21; 6; 10; 15; 21; 6; 10; 15; 21]%N.

(** Little-endian bytes of [x], [n] of them. *)
Fixpoint le_bytes (n : nat) (x : N) : list N :=
  match n with
  | 0 => []
  | S n' => N.modulo x 256 :: le_bytes n' (N.div x 256)
  end.

Fixpoint le_word (bs : list N) : N :=
  match bs with
  | [] => 0
  | b :: bs' => (b + 256 * le_word bs')%N
  end.

(** The message, a [0x80] byte, zero bytes up to 56 modulo 64, and the
    length in bits on 8 bytes. *)
Definition pad (msg : list N) : list N :=
  let n := length msg in
  let zeros := (64 + 55 - Nat.modulo n 64) mod 64 in
  msg ++ [128%N] ++ repeat 0%N zeros
      ++ le_bytes 8 (N.modulo (8 * N.of_nat n) 18446744073709551616).

(** The list cut in pieces of [k] elements; [fuel] bounds their number. *)
Fixpoint chunks {A} (fuel k : nat) (l : list A) : list (list A) :=
  match fuel, l with
  | 0, _ | _, [] => []
  | S f, _ => firstn k l :: chunks f k (skipn k l)
  end.

Record regs := { ra : N; rb : N; rc : N; rd : N }.

Definition round (M : list N) (r : regs) (i : nat) : regs :=
  let '(f, g) :=
    if Nat.ltb i 16 then
      (N.lor (N.land (rb r) (rc r)) (N.land (not32 (rb r)) (rd r)), i)
    else if Nat.ltb i 32 then
      (N.lor (N.land (rd r) (rb r)) (N.land (not32 (rd r)) (rc r)),
       (5 * i + 1) mod 16)
    else if Nat.ltb i 48 then
      (N.lxor (rb r) (N.lxor (rc r) (rd r)), (3 * i + 5) mod 16)
    else
      (N.lxor (rc r) (N.lor (rb r) (not32 (rd r))), (7 * i) mod 16) in
  let f' := w32 (f + ra r + nth i K 0 + nth g M 0)%N in
  {| ra := rd r; rd := rc r; rc := rb r;
     rb := w32 (rb r + rotl f' (nth i shifts 0))%N |}.

Definition block (r : regs) (bytes : list N) : regs :=
  let M := map le_word (chunks 16 4 bytes) in
  let r' := fold_left (round M) (seq 0 64) r in
  {| ra := w32 (ra r + ra r'); rb := w32 (rb r + rb r');
     rc := w32 (rc r + rc r'); rd := w32 (rd r + rd r') |}.

Definition digest (msg : list N) : list N :=
  let p := pad msg in
  let r := fold_left block (chunks (length p) 64 p)
             {| ra := 1732584193; rb := 4023233417;
                rc := 2562383102; rd := 271733878 |} in
  le_bytes 4 (ra r) ++ le_bytes 4 (rb r) ++ le_bytes 4 (rc r)
    ++ le_bytes 4 (rd r).

Definition hex_digit (n : N) : N :=
  if N.ltb n 10 then (48 + n)%N else (87 + n)%N.

(** [hashlib.md5(bytes).hexdigest()] *)
Definition hexdigest (msg : list N) : Py.str :=
  flat_map (fun b => [hex_digit (N.div b 16); hex_digit (N.modulo b 16)])
    (digest msg).

End Md5.

(* ===================================================================== *)
(** ** utils/cache_manager.py *)
(* ===================================================================== *)

Module CacheManager.
Import Py.

Section Key.
Variable U : unicode.

(** [[^\w\s-]] *)
Definition stripped (c : char) : bool :=
  negb (is_word U c || is_space U c || N.eqb c 45).

(** [clean = re.sub(r'[^\w\s-]', '', query.lower())] then
    [clean = re.sub(r'\s+', '_', clean.strip())[:60]] *)
Definition clean (query : str) : str :=
  let clean := sub [one stripped] (fun _ => []) (lower U query) in
  slice_to 60 (sub [plus (is_space U)] (fun _ => lit "_") (strip U clean)).

(** [hashlib.md5(query.encode()).hexdigest()[:8]] *)
Definition hash_suffix (query : str) : option str :=
  match Md5.encode query with
  | Some bytes => Some (slice_to 8 (Md5.hexdigest bytes))
  | None => None
  end.

(** [get_cache_key(self, query)]; [None] when [query.encode()] raises. *)
Definition get_cache_key (query : str) : option str :=
  match hash_suffix query with
  | Some h => Some (clean query ++ lit "_" ++ h)
  | None => None
  end.

(** The key as the specification words it: lowercase, strip the non-word
    characters, collapse the runs of whitespace to single underscores,
    truncate; then the underscore and the hash of the query. *)
Definition non_word (c : char) : bool := negb (is_word U c || is_space U c).

Definition slug_as_specified (query : str) : str :=
  slice_to 60
    (sub [plus (is_space U)] (fun _ => lit "_")
       (sub [one non_word] (fun _ => []) (lower U query))).

Definition cache_key_as_specified (query : str) : option str :=
  match hash_suffix query with
  | Some h => Some (slug_as_specified query ++ lit "_" ++ h)
  | None => None
  end.

End Key.

(** Lower-case hexadecimal digits. *)
Definition is_hex (c : char) : bool :=
  (N.leb 48 c && N.leb c 57) || (N.leb 97 c && N.leb c 102).

(** Surrogate code points, which [str.encode()] refuses. *)
Definition is_surrogate (c : char) : bool := N.leb 55296 c && N.leb c 57343.

End CacheManager.

(* ===================================================================== *)
(** ** services/rag_service.py: multi-strategy search *)
(* ===================================================================== *)

Module RagService.
Import Py.

(** A retrieved paper: the fields the ladder and the deduplication look at,
    and the citation data carried along. *)
Record paper := {
  external_id : option str;
  title : str;
  year : Z;
  citation_count : Z
}.

Section Ladder.

(** The search provider behind [search_api]: its state (network, cache) and
    its answer to a query. *)
Variable provider : Type.
Variable search_api : provider -> str -> provider * list paper.

(** The query helpers of the module. *)
Variable remove_stopwords : str -> str.
Variable first_n_keywords : str -> Z -> str.
Variable last_n_words : str -> Z -> str.

(** Title normalisation used when a paper has no external identifier. *)
Variable normalize_title : str -> str.

(** The identifier of a paper: its external ID if present, else its
    normalised title. *)
Definition identifier (p : paper) : str + str :=
  match external_id p with
  | Some i => inl i
  | None => inr (normalize_title (title p))
  end.

Definition identifier_eqb (a b : str + str) : bool :=
  match a, b with
  | inl x, inl y => str_eqb x y
  | inr x, inr y => str_eqb x y
  | _, _ => false
  end.

(** Modelled from the spec: deduplicate is not part of the documented
    listing; papers are deduplicated by identifier, the first occurrence of
    an identifier is the one kept, in order. *)
Fixpoint deduplicate_from (seen : list (str + str)) (papers : list paper)
  : list paper :=
  match papers with
  | [] => []
  | p :: papers' =>
      if existsb (identifier_eqb (identifier p)) seen
      then deduplicate_from seen papers'
      else p :: deduplicate_from (identifier p :: seen) papers'
  end.

Definition deduplicate (papers : list paper) : list paper :=
  deduplicate_from [] papers.

(** A run threads the provider and the log of the calls made to it: each
    query issued, with its answer. *)
Definition log := list (str * list paper).
Definition run_state := (provider * log)%type.

Definition call (q : str) (st : run_state) : run_state * list paper :=
  let '(pv, answer) := search_api (fst st) q in
  ((pv, snd st ++ [(q, answer)]), answer).

(** [len(papers) < limit] *)
Definition below (papers : list paper) (limit : Z) : bool :=
  Z.ltb (Z.of_nat (length papers)) limit.

(** [search_papers(query, limit)] *)
Definition search_papers (query : str) (limit : Z) (st : run_state)
  : run_state * list paper :=
  (* Strategy 1: exact query *)
  let '(st, papers) := call query st in
  (* Strategy 2: simplified (remove stopwords) *)
  let '(st, papers) :=
    if below papers limit then
      let simplified := remove_stopwords query in
      let '(st', more) := call simplified st in (st', papers ++ more)
    else (st, papers) in
  (* Strategy 3: minimal (first 3 keywords) *)
  let '(st, papers) :=
    if below papers limit then
      let minimal := first_n_keywords query 3 in
      let '(st', more) := call minimal st in (st', papers ++ more)
    else (st, papers) in
  (* Strategy 4: broad (last 2 words) *)
  let '(st, papers) :=
    if below papers limit then
      let broad := last_n_words query 2 in
      let '(st', more) := call broad st in (st', papers ++ more)
    else (st, papers) in
  (st, slice_to limit (deduplicate papers)).

(** The ladder as the specification words it: the accumulator is
    deduplicated after each step, before the count is compared for the
    next one. *)
Definition search_papers_dedup_each_step (query : str) (limit : Z)
  (st : run_state) : run_state * list paper :=
  let '(st, papers) := call query st in
  let papers := deduplicate papers in
  let '(st, papers) :=
    if below papers limit then
      let '(st', more) := call (remove_stopwords query) st in
      (st', deduplicate (papers ++ more))
    else (st, papers) in
  let '(st, papers) :=
    if below papers limit then
      let '(st', more) := call (first_n_keywords query 3) st in
      (st', deduplicate (papers ++ more))
    else (st, papers) in
  let '(st, papers) :=
    if below papers limit then
      let '(st', more) := call (last_n_words query 2) st in
      (st', deduplicate (papers ++ more))
    else (st, papers) in
  (st, slice_to limit papers).

(** Number of papers received over a log, duplicates included. *)
Definition received (l : log) : nat := length (concat (map snd l)).

End Ladder.

End RagService.

(* ===================================================================== *)
(** * Properties *)
(* ===================================================================== *)

(** ** Facts on JavaScript strings and [split] *)

Module JsFacts.
Import Js.

Lemma str_eqb_eq (a : str) : forall b : str, str_eqb a b = true <-> a = b.
Proof.
  induction a as [|x a IH]; intros [|y b]; cbn; split; try congruence.
  - intros H. apply andb_true_iff in H. destruct H as [H1 H2].
    apply N.eqb_eq in H1. apply IH in H2. congruence.
  - intros H. injection H as -> ->. rewrite N.eqb_refl. cbn.
    apply IH. reflexivity.
Qed.

Lemma str_eqb_refl (a : str) : str_eqb a a = true.
Proof. apply str_eqb_eq. reflexivity. Qed.

Lemma str_eqb_neq (a b : str) : str_eqb a b = false <-> a <> b.
Proof.
  pose proof (str_eqb_eq a b) as H.
  destruct (str_eqb a b); split; intros H0; try congruence.
  - exfalso. apply H0, H. reflexivity.
  - intros E. apply H in E. discriminate.
Qed.

(** [c] is put in front of the first piece. *)
Definition cons_first (c : char) (l : list str) : list str :=
  match l with
  | [] => []
  | p :: ps => (c :: p) :: ps
  end.

Definition app_first (r : str) (l : list str) : list str :=
  match l with
  | [] => []
  | p :: ps => (r ++ p) :: ps
  end.

Lemma split_nn_aux_step (cur : str) (c d : char) (s : str) :
  split_nn_aux cur (c :: d :: s) =
    if N.eqb c nl && N.eqb d nl then rev cur :: split_nn_aux [] s
    else split_nn_aux (c :: cur) (d :: s).
Proof. reflexivity. Qed.

(** The accumulator of [split_nn_aux] is a prefix of the first piece. *)
Lemma split_nn_aux_acc (s : str) : forall cur : str,
  split_nn_aux cur s = app_first (rev cur) (split_nn_aux [] s).
Proof.
  induction s as [|c s IH]; intros cur.
  - simpl. rewrite app_nil_r. reflexivity.
  - destruct s as [|d s'].
    + cbn. reflexivity.
    + rewrite !split_nn_aux_step. destruct (N.eqb c nl && N.eqb d nl).
      * cbn. rewrite app_nil_r. reflexivity.
      * rewrite (IH (c :: cur)), (IH [c]).
        destruct (split_nn_aux [] (d :: s')) as [|q qs]; [reflexivity|].
        cbn. rewrite <- app_assoc. reflexivity.
Qed.

Lemma split_nn_nil : split_nn [] = [[]].
Proof. reflexivity. Qed.

Lemma split_nn_single (c : char) : split_nn [c] = [[c]].
Proof. reflexivity. Qed.

Lemma split_nn_sep (c d : char) (s : str) :
  N.eqb c nl && N.eqb d nl = true ->
  split_nn (c :: d :: s) = [] :: split_nn s.
Proof.
  intros H. unfold split_nn. rewrite split_nn_aux_step, H. reflexivity.
Qed.

Lemma split_nn_char (c d : char) (s : str) :
  N.eqb c nl && N.eqb d nl = false ->
  split_nn (c :: d :: s) = cons_first c (split_nn (d :: s)).
Proof.
  intros H. unfold split_nn. rewrite split_nn_aux_step, H.
  rewrite (split_nn_aux_acc (d :: s) [c]).
  destruct (split_nn_aux [] (d :: s)); reflexivity.
Qed.

Lemma split_nn_nonempty (s : str) : split_nn s <> [].
Proof.
  unfold split_nn. generalize (@nil char).
  induction s as [|c s IH]; intros cur; [discriminate|].
  destruct s as [|d s']; [discriminate|]. rewrite split_nn_aux_step.
  destruct (N.eqb c nl && N.eqb d nl); [discriminate | apply IH].
Qed.

(** A text in one piece is that piece. *)
Lemma split_nn_one (s : str) : forall r : str, split_nn s = [r] -> r = s.
Proof.
  induction s as [|c s IH]; intros r H.
  - cbn in H. congruence.
  - destruct s as [|d s'].
    + cbn in H. congruence.
    + destruct (N.eqb c nl && N.eqb d nl) eqn:E.
      * rewrite (split_nn_sep _ _ _ E) in H. injection H as _ H.
        exfalso. exact (split_nn_nonempty _ H).
      * rewrite (split_nn_char _ _ _ E) in H.
        destruct (split_nn (d :: s')) as [|q qs] eqn:Q; [discriminate|].
        cbn in H. injection H as H1 H2. subst qs r.
        f_equal. apply IH. reflexivity.
Qed.

(** Splitting a text received in two parts: the pieces closed in the first
    part stay, the open piece is split again with the second part. *)
Lemma split_nn_app_len n : forall a b : str, length a <= n ->
  split_nn (a ++ b) =
    removelast (split_nn a) ++ split_nn (last (split_nn a) [] ++ b).
Proof.
  induction n as [|n IH]; intros a b Hn.
  - destruct a; [reflexivity | cbn in Hn; lia].
  - destruct a as [|c [|d a']]; [reflexivity | reflexivity |].
    cbn [length] in Hn.
    destruct (N.eqb c nl && N.eqb d nl) eqn:E.
    + rewrite (split_nn_sep _ _ _ E).
      change ((c :: d :: a') ++ b) with (c :: d :: (a' ++ b)).
      rewrite (split_nn_sep _ _ _ E), (IH a' b) by lia.
      pose proof (split_nn_nonempty a') as Hne.
      destruct (split_nn a') as [|q qs]; [congruence|]. reflexivity.
    + rewrite (split_nn_char _ _ _ E).
      change ((c :: d :: a') ++ b) with (c :: d :: (a' ++ b)).
      rewrite (split_nn_char _ _ _ E).
      change (d :: a' ++ b) with ((d :: a') ++ b).
      rewrite (IH (d :: a') b) by (cbn; lia).
      destruct (split_nn (d :: a')) as [|q [|q' qs]] eqn:Q.
      * exfalso. exact (split_nn_nonempty _ Q).
      * apply split_nn_one in Q. subst q. cbn [removelast last app cons_first].
        change ((d :: a') ++ b) with (d :: (a' ++ b)).
        change ((c :: d :: a') ++ b) with (c :: d :: (a' ++ b)).
        rewrite (split_nn_char _ _ _ E). reflexivity.
      * cbn [cons_first]. reflexivity.
Qed.

Lemma split_nn_app (a b : str) :
  split_nn (a ++ b) =
    removelast (split_nn a) ++ split_nn (last (split_nn a) [] ++ b).
Proof. apply (split_nn_app_len (n := length a)). lia. Qed.

End JsFacts.

(** ** Sample inputs *)

Module Samples.
Import Main PaperGeneration.

Definition LF : string := String (ascii_of_nat 10) EmptyString.

Definition bytes (s : string) : list Byte.byte := list_byte_of_string s.

Definition blank_page : page :=
  {| loading_hidden := true; progress_hidden := true; loadingText := [];
     progressBar_width := 0; progressMessage := []; currentPaper := None;
     paperContent := None; displays := []; alerts := []; console := [];
     requests := [] |}.

Definition an_author : author :=
  {| name := Js.lit "Ada"; email := Js.lit "ada@example.org";
     affiliation := Js.lit "Analytical Society" |}.

Definition a_paper : paper :=
  {| title := Js.lit "Federated Learning for Medical Imaging";
     authors := [an_author]; generated_date := Js.lit "2026-01-16";
     sections := [(Js.lit "conclusion", Js.lit "Done.");
                  (Js.lit "abstract", Js.lit "We study.")] |}.

Definition ev (st : string) (sec : option string) (pp : option paper) : event :=
  {| status := Some (Js.lit st); message := Js.lit "working";
     count := Js.lit "9"; section := option_map Js.lit sec; paper_of := pp |}.

(** A parser that knows four payloads. *)
Definition parse (text : Js.str) : exn + event :=
  if Js.str_eqb text (Js.lit "E") then inr (ev "error" None None)
  else if Js.str_eqb text (Js.lit "C") then inr (ev "complete" None (Some a_paper))
  else if Js.str_eqb text (Js.lit "S") then inr (ev "start" None None)
  else if Js.str_eqb text (Js.lit "H") then inr (ev "heartbeat" None None)
  else inl (Exn SyntaxError (Js.lit "Unexpected token")).

Definition a_form : form :=
  {| paperTitle_value := Js.lit "  Federated Learning for Medical Imaging ";
     useRAG := true; hasUserData := false;
     author_entries :=
       [{| author_name := Js.lit "Ada"; author_email := Js.lit "ada@example.org";
           author_affiliation := Js.lit "Analytical Society" |}];
     methodology_value := []; results_value := [] |}.

End Samples.

(** ** The read loop of generatePaper *)

Module StreamFacts.
Import Main PaperGeneration.

Lemma decode_app d a : forall b,
  Utf8.decode d (a ++ b) =
    (fst (Utf8.decode (fst (Utf8.decode d a)) b),
     snd (Utf8.decode d a) ++ snd (Utf8.decode (fst (Utf8.decode d a)) b)).
Proof.
  revert d. induction a as [|x a IH]; intros d b.
  - cbn. destruct (Utf8.decode d b); reflexivity.
  - cbn. destruct (Utf8.step d x) as [d1 o1]. rewrite IH.
    destruct (Utf8.decode d1 a) as [d2 o2]. cbn.
    destruct (Utf8.decode d2 b) as [d3 o3]. cbn.
    rewrite app_assoc. reflexivity.
Qed.

Lemma last_app_nonempty {A} (l l' : list A) (d : A) :
  l' <> [] -> last (l ++ l') d = last l' d.
Proof.
  intros H. induction l as [|x l IH]; [reflexivity|].
  cbn [app last]. destruct (l ++ l') eqn:E; [|exact IH].
  apply app_eq_nil in E. destruct E. contradiction.
Qed.

Lemma frames_app (a b : Js.str) :
  frames (a ++ b) = frames a ++ frames (last (Js.split_nn a) [] ++ b).
Proof.
  unfold frames. rewrite JsFacts.split_nn_app.
  apply removelast_app, JsFacts.split_nn_nonempty.
Qed.

Lemma last_split_app (a b : Js.str) :
  last (Js.split_nn (a ++ b)) [] =
    last (Js.split_nn (last (Js.split_nn a) [] ++ b)) [].
Proof.
  rewrite JsFacts.split_nn_app.
  apply last_app_nonempty, JsFacts.split_nn_nonempty.
Qed.

Section Loop.
Variable parse : Js.str -> exn + event.
Variable p0 : page.

(** The reader after the bytes [B] have been read, however they came. *)
Definition after (B : list Byte.byte) : reader :=
  let text := snd (Utf8.decode Utf8.init B) in
  {| decoder := fst (Utf8.decode Utf8.init B);
     buffer := last (Js.split_nn text) [];
     pg := fold_left (on_line parse) (frames text) p0 |}.

Lemma on_chunk_after B value :
  on_chunk parse (after B) value = after (B ++ value).
Proof.
  unfold on_chunk, after. cbn [decoder buffer pg].
  rewrite decode_app. cbn [fst snd].
  destruct (Utf8.decode (fst (Utf8.decode Utf8.init B)) value) as [d text].
  cbn [fst snd]. unfold Js.pop. f_equal.
  - symmetry. apply last_split_app.
  - rewrite (frames_app (snd (Utf8.decode Utf8.init B)) text), fold_left_app.
    reflexivity.
Qed.

Lemma fold_on_chunk_after chunks : forall B,
  fold_left (on_chunk parse) chunks (after B) = after (B ++ concat chunks).
Proof.
  induction chunks as [|c chunks IH]; intros B.
  - cbn. rewrite app_nil_r. reflexivity.
  - cbn [fold_left concat]. rewrite on_chunk_after, IH, app_assoc. reflexivity.
Qed.

Lemma read_loop_after chunks :
  read_loop parse chunks p0 = after (concat chunks).
Proof. apply (fold_on_chunk_after chunks []). Qed.

Lemma fold_on_line fs : forall p,
  fold_left (on_line parse) fs p =
    fold_left (on_payload parse)
      (map (Js.slice 6) (filter (Js.startsWith (Js.lit "data: ")) fs)) p.
Proof.
  induction fs as [|f fs IH]; intros p; [reflexivity|].
  cbn [fold_left filter]. unfold on_line at 2.
  destruct (Js.startsWith (Js.lit "data: ") f); cbn [map fold_left]; apply IH.
Qed.

End Loop.

(** C10: the frames handled by the read loop are the complete frames of the
    decoded stream that begin with "data: ", each once and in stream
    order; the unterminated tail stays in the buffer; two ways of cutting
    the same bytes into chunks leave the reader in the same state. *)
Theorem stream_parsing_chunk_independent
  (parse : Js.str -> exn + event) (chunks : list (list Byte.byte)) (p : page) :
  let text := snd (Utf8.decode Utf8.init (concat chunks)) in
  pg (read_loop parse chunks p) = fold_left (on_payload parse) (payloads text) p
  /\ buffer (read_loop parse chunks p) = last (Js.split_nn text) []
  /\ forall chunks' : list (list Byte.byte),
       concat chunks' = concat chunks ->
       read_loop parse chunks' p = read_loop parse chunks p.
Proof.
  cbv zeta. rewrite read_loop_after. unfold after. cbn [pg buffer].
  split; [apply fold_on_line|]. split; [reflexivity|].
  intros chunks' H. rewrite read_loop_after, H. reflexivity.
Qed.

Lemma stream_parsing_chunk_independent_witness :
  let whole := [Samples.bytes ("data: S" ++ Samples.LF ++ Samples.LF ++ "data: C"
                               ++ Samples.LF ++ Samples.LF ++ "data: E")] in
  let cut := [Samples.bytes ("data: S" ++ Samples.LF);
              Samples.bytes (Samples.LF ++ "da");
              Samples.bytes ("ta: C" ++ Samples.LF ++ Samples.LF ++ "data: E")] in
  concat cut = concat whole
  /\ read_loop Samples.parse cut Samples.blank_page
     = read_loop Samples.parse whole Samples.blank_page.
Proof.
  cbv zeta. split; [reflexivity|].
  apply (proj2 (proj2 (stream_parsing_chunk_independent Samples.parse _ _))).
  reflexivity.
Defined.

End StreamFacts.

(** ** The event handler of generatePaper *)

Module EventFacts.
Import Main PaperGeneration.

Lemma unknown_not_literal (data : event) (s k : Js.str) :
  known_status data = false -> status data = Some s ->
  In k known_statuses -> Js.str_eqb s k = false.
Proof.
  unfold known_status. intros H Hs Hk. rewrite Hs in H.
  destruct (Js.str_eqb s k) eqn:E; [|reflexivity].
  assert (existsb (Js.str_eqb s) known_statuses = true) as H'
    by (apply existsb_exists; exists k; auto).
  congruence.
Qed.

Ltac known_literal :=
  unfold known_statuses; cbn [map In];
  repeat (first [left; reflexivity | right]).

Lemma handle_unknown (data : event) (p : page) :
  known_status data = false -> handle data p = (p, None).
Proof.
  intros H. unfold handle. destruct (status data) as [s|] eqn:Hs; [|reflexivity].
  repeat match goal with
  | |- context [Js.str_eqb s ?k] =>
      rewrite (@unknown_not_literal data s k H Hs) by known_literal
  end.
  reflexivity.
Qed.

Lemma on_event_unknown (data : event) (p : page) :
  known_status data = false -> on_event p data = p.
Proof. intros H. unfold on_event. rewrite (@handle_unknown data p H). reflexivity. Qed.

Lemma fold_skip_unknown (data : event) (before after : list event) :
  known_status data = false -> forall p,
  fold_left on_event (before ++ data :: after) p
  = fold_left on_event (before ++ after) p.
Proof.
  intros H p. rewrite !fold_left_app. cbn [fold_left].
  rewrite (@on_event_unknown data _ H). reflexivity.
Qed.

(** C6: an event whose status is not one of the nine statuses changes
    nothing and throws nothing, and the events around it are processed as if
    it were absent; each of the nine statuses has its own action. *)
Theorem status_handling_total (data : event) (p : page) :
  (known_status data = false ->
     handle data p = (p, None)
     /\ on_event p data = p
     /\ forall (before after : list event) (p0 : page),
          fold_left on_event (before ++ data :: after) p0
          = fold_left on_event (before ++ after) p0)
  /\ (status data = Some (Js.lit "start") ->
        on_event p data = set_message (message data) (set_width 10 p))
  /\ (status data = Some (Js.lit "title") ->
        on_event p data = set_message (message data) (set_width 20 p))
  /\ (status data = Some (Js.lit "rag_start") ->
        on_event p data = set_message (message data) (set_width 30 p))
  /\ (status data = Some (Js.lit "rag_complete") ->
        on_event p data =
          set_message (Js.lit "Retrieved " ++ count data ++ Js.lit " papers")
            (set_width 40 p))
  /\ (status data = Some (Js.lit "abstract") ->
        on_event p data = set_message (message data) (set_width 50 p))
  /\ (status data = Some (Js.lit "section_start") ->
        on_event p data =
          set_message (message data)
            match section data with
            | Some sec =>
                match Js.get sectionMap sec with
                | Some w => set_width w p
                | None => p
                end
            | None => p
            end)
  /\ (status data = Some (Js.lit "references") ->
        on_event p data = set_message (message data) (set_width 95 p))
  /\ (status data = Some (Js.lit "complete") ->
        on_event p data =
          let p1 := set_currentPaper (paper_of data)
                      (set_message (Js.lit "Done!") (set_width 100 p)) in
          match paper_of data with
          | Some d =>
              showNotification success_message success
                (show d (displayGeneratedPaper d) p1)
          | None => console_error (Exn TypeError (Js.lit "data is undefined")) p1
          end)
  /\ (status data = Some (Js.lit "error") ->
        on_event p data = console_error (Exn Error (message data)) p).
Proof.
  split.
  { intros H. split; [apply handle_unknown, H|].
    split; [apply on_event_unknown, H|].
    intros before after p0. apply fold_skip_unknown, H. }
  repeat split; intros Hs; unfold on_event, handle; rewrite Hs;
    try reflexivity.
  cbn. destruct (paper_of data); reflexivity.
Qed.

Lemma status_handling_total_witness :
  known_status (Samples.ev "heartbeat" None None) = false
  /\ on_event Samples.blank_page (Samples.ev "heartbeat" None None)
     = Samples.blank_page
  /\ on_event Samples.blank_page (Samples.ev "start" None None)
     = set_message (Js.lit "working") (set_width 10 Samples.blank_page).
Proof.
  split; [reflexivity|]. split.
  - apply (proj1 (status_handling_total
                    (Samples.ev "heartbeat" None None) Samples.blank_page)).
    reflexivity.
  - apply (proj1 (proj2 (status_handling_total
                    (Samples.ev "start" None None) Samples.blank_page))).
    reflexivity.
Defined.

(** C3, on the code: an [error] event followed by a [complete] event.  The
    value thrown for the [error] event is caught by the inner [catch], the
    loop goes on, and the paper of the [complete] event is displayed with
    the success notification; no failure is notified. *)
Theorem error_event_does_not_stop_the_run :
  let stream := [Samples.bytes ("data: E" ++ Samples.LF ++ Samples.LF
                                ++ "data: C" ++ Samples.LF ++ Samples.LF)] in
  let p := generatePaper Samples.parse Samples.a_form (Body stream Done)
             Samples.blank_page in
  displays p = [Samples.a_paper]
  /\ currentPaper p = Some Samples.a_paper
  /\ alerts p = [(success_message, success)]
  /\ console p = [Exn Error (Js.lit "working")]
  /\ progressBar_width p = 100%Z.
Proof. vm_compute. repeat split. Qed.

(** The event of a stage, with empty texts. *)
Definition stage_event (x : Js.str * option Js.str) : event :=
  {| status := Some (fst x); message := []; count := [];
     section := snd x; paper_of := None |}.

Definition stage_width (x : Js.str * option Js.str) : Z :=
  progressBar_width (on_event Samples.blank_page (stage_event x)).

Lemma on_event_width (p : page) (e : event) (x : Js.str * option Js.str) :
  stage e = Some x -> In x successful_order ->
  progressBar_width (on_event p e) = stage_width x.
Proof.
  unfold stage. intros Hst Hin. destruct (status e) as [s|] eqn:Hs; [|discriminate].
  injection Hst as Hx.
  unfold successful_order in Hin. cbn [map In fst snd option_map] in Hin.
  repeat (destruct Hin as [Hin|Hin]; [
    rewrite <- Hin in Hx |- *; injection Hx as Hs' Hsec; subst s;
    cbn in Hsec; unfold on_event, handle; rewrite Hs; cbn;
    try (rewrite Hsec; cbn); try (destruct (paper_of e)); reflexivity |]).
  contradiction.
Qed.

Lemma widths_follow (evs : list event) : forall (p : page) ord,
  map stage evs = map Some ord ->
  (forall x, In x ord -> In x successful_order) ->
  map progressBar_width (pages_after p evs) = map stage_width ord.
Proof.
  induction evs as [|e evs IH]; intros p [|x ord] H Hin; try discriminate.
  - reflexivity.
  - cbn in H. injection H as H1 H2. cbn [pages_after map].
    rewrite (@on_event_width p e x H1) by (apply Hin; left; reflexivity).
    f_equal. apply IH; [exact H2|]. intros y Hy. apply Hin. right. exact Hy.
Qed.

(** C8: when the events of a successful run arrive in the fixed order, the
    width given to the progress bar goes 5 (set before the request), then
    10, 20, 30, 40, 50, 55, 62, 69, 76, 83, 90, 95, 100: it increases
    strictly from each event to the next. *)
Theorem progress_strictly_increasing (evs : list event) (p : page) :
  map stage evs = map Some successful_order ->
  let widths := progressBar_width (ui_setup p)
                :: map progressBar_width (pages_after (ui_setup p) evs) in
  widths = [5; 10; 20; 30; 40; 50; 55; 62; 69; 76; 83; 90; 95; 100]%Z
  /\ StronglySorted Z.lt widths.
Proof.
  intros H. cbv zeta.
  rewrite (@widths_follow evs (ui_setup p) successful_order H) by auto.
  change (progressBar_width (ui_setup p)) with 5%Z.
  assert (map stage_width successful_order
          = [10; 20; 30; 40; 50; 55; 62; 69; 76; 83; 90; 95; 100]%Z) as ->
    by (vm_compute; reflexivity).
  split; [reflexivity|].
  repeat (constructor; [| repeat (constructor; [lia|]); constructor]).
  constructor.
Qed.

Lemma progress_strictly_increasing_witness :
  let evs := map (fun x => Samples.ev (fst x) (snd x) (Some Samples.a_paper))
    [("start", None); ("title", None); ("rag_start", None);
     ("rag_complete", None); ("abstract", None);
     ("section_start", Some "introduction");
     ("section_start", Some "literature_review");
     ("section_start", Some "methodology");
     ("section_start", Some "results");
     ("section_start", Some "discussion");
     ("section_start", Some "conclusion");
     ("references", None); ("complete", None)]%string in
  map stage evs = map Some successful_order
  /\ StronglySorted Z.lt
       (progressBar_width (ui_setup Samples.blank_page)
        :: map progressBar_width (pages_after (ui_setup Samples.blank_page) evs)).
Proof.
  cbv zeta. split; [reflexivity|].
  apply (progress_strictly_increasing _ Samples.blank_page). reflexivity.
Defined.

End EventFacts.

(** ** displayGeneratedPaper *)

Module DisplayFacts.
Import Main PaperGeneration.

Lemma get_perm {V} (o o' : Js.obj V) (k : Js.str) :
  Permutation o o' -> NoDup (map fst o) -> Js.get o k = Js.get o' k.
Proof.
  induction 1 as [| [k1 v1] l l' HP IH | [k1 v1] [k2 v2] l | l l' l'' HP1 IH1 HP2 IH2];
    intros ND.
  - reflexivity.
  - cbn in *. inversion ND; subst. rewrite IH by assumption. reflexivity.
  - cbn in *. inversion ND as [|? ? Hnin ND']; subst.
    destruct (Js.str_eqb k2 k) eqn:E2; destruct (Js.str_eqb k1 k) eqn:E1;
      try reflexivity.
    apply JsFacts.str_eqb_eq in E1, E2. subst.
    exfalso. apply Hnin. left. reflexivity.
  - rewrite IH1 by assumption. apply IH2.
    apply Permutation_NoDup with (l := map fst l); [|assumption].
    apply Permutation_map. assumption.
Qed.

Lemma section_block_heading (secs : Js.obj Js.str) (n : Js.str) :
  map heading (section_block secs n)
  = if is_rendered secs n then [section_heading n] else [].
Proof.
  unfold section_block, is_rendered.
  destruct (Js.get secs n) as [text|]; [|reflexivity].
  destruct (Js.truthy text); reflexivity.
Qed.

Lemma headings_filter (secs : Js.obj Js.str) (names : list Js.str) :
  map heading (flat_map (section_block secs) names)
  = map section_heading (filter (is_rendered secs) names).
Proof.
  induction names as [|n names IH]; [reflexivity|].
  cbn [flat_map filter]. rewrite map_app, section_block_heading, IH.
  destruct (is_rendered secs n); reflexivity.
Qed.

Lemma flat_map_agree {A B} (f g : A -> list B) (l : list A) :
  (forall x, In x l -> f x = g x) -> flat_map f l = flat_map g l.
Proof.
  induction l as [|x l IH]; intros H; [reflexivity|].
  cbn. rewrite (H x) by (left; reflexivity). f_equal.
  apply IH. intros y Hy. apply H. right. exact Hy.
Qed.

(** C7, as the claim states it, fails: a section that is present with an
    empty text gets no block. *)
Lemma empty_section_not_rendered :
  let secs := [(Js.lit "abstract", @nil Js.char)] in
  Js.get secs (Js.lit "abstract") = Some []
  /\ section_blocks secs = []
  /\ section_blocks secs <> section_blocks_if_present secs.
Proof. cbv zeta. repeat split. vm_compute. discriminate. Qed.

(** C7, amended: the blocks rendered are those of the names of the fixed
    list whose entry in [data.sections] is present and non-empty, in the
    order of the fixed list, under the headings Abstract, Introduction,
    Literature Review, Methodology, Results, Discussion, Conclusion; two
    objects that agree on the seven names render the same blocks, so the
    key order and the other keys do not matter. *)
Theorem sections_rendered_in_fixed_order (secs : Js.obj Js.str) :
  map heading (section_blocks secs)
    = map section_heading (filter (is_rendered secs) sections_order)
  /\ map section_heading sections_order
     = map Js.lit ["Abstract"; "Introduction"; "Literature Review";
                   "Methodology"; "Results"; "Discussion"; "Conclusion"]%string
  /\ (forall (b : block), In b (section_blocks secs) ->
        exists n text,
          In n sections_order /\ Js.get secs n = Some text /\ text <> []
          /\ b = {| heading := section_heading n; body := nl_to_br text |})
  /\ (forall secs' : Js.obj Js.str,
        (forall n, In n sections_order -> Js.get secs' n = Js.get secs n) ->
        section_blocks secs' = section_blocks secs)
  /\ (forall secs' : Js.obj Js.str,
        Permutation secs secs' -> NoDup (map fst secs) ->
        section_blocks secs' = section_blocks secs).
Proof.
  split; [apply headings_filter|]. split; [reflexivity|]. split; [|split].
  - intros b Hb. unfold section_blocks in Hb. apply in_flat_map in Hb.
    destruct Hb as [n [Hn Hb]]. unfold section_block in Hb.
    destruct (Js.get secs n) as [text|] eqn:G; [|contradiction].
    destruct text as [|c text]; [contradiction|].
    cbn [Js.truthy] in Hb. destruct Hb as [Hb|[]].
    exists n, (c :: text). repeat split; try assumption; try discriminate.
    symmetry. exact Hb.
  - intros secs' H. unfold section_blocks. apply flat_map_agree.
    intros n Hn. unfold section_block. rewrite (H n Hn). reflexivity.
  - intros secs' HP ND. unfold section_blocks. apply flat_map_agree.
    intros n Hn. unfold section_block.
    rewrite (get_perm n HP ND). reflexivity.
Qed.

Lemma sections_rendered_in_fixed_order_witness :
  let secs := sections Samples.a_paper in
  let secs' := [(Js.lit "abstract", Js.lit "We study.");
                (Js.lit "conclusion", Js.lit "Done.")] in
  Permutation secs secs' /\ NoDup (map fst secs)
  /\ section_blocks secs' = section_blocks secs
  /\ map heading (section_blocks secs)
     = [Js.lit "Abstract"; Js.lit "Conclusion"].
Proof.
  cbv zeta.
  assert (Permutation (sections Samples.a_paper)
            [(Js.lit "abstract", Js.lit "We study.");
             (Js.lit "conclusion", Js.lit "Done.")]) as HP
    by apply perm_swap.
  assert (NoDup (map fst (sections Samples.a_paper))) as ND.
  { cbn. constructor; [|constructor; [|constructor]]; cbn.
    - intros [H|[]]. discriminate.
    - intros []. }
  split; [exact HP|]. split; [exact ND|]. split.
  - apply (proj2 (proj2 (proj2 (proj2
      (sections_rendered_in_fixed_order (sections Samples.a_paper)))))).
    + exact HP.
    + exact ND.
  - reflexivity.
Defined.

End DisplayFacts.

(** ** Topic validation in generatePaper and generateSurvey *)

Module ValidationFacts.
Import Main.

Module P := PaperGeneration.
Module L := LiteratureSurvey.

Lemma handle_requests (data : P.event) (p : P.page) :
  P.requests (fst (P.handle data p)) = P.requests p.
Proof.
  unfold P.handle. destruct (P.status data) as [s|]; [|reflexivity].
  repeat match goal with
  | |- context [Js.str_eqb s ?k] => destruct (Js.str_eqb s k)
  end; try reflexivity.
  - destruct (P.section data) as [sec|]; [|reflexivity].
    destruct (Js.get P.sectionMap sec); reflexivity.
  - destruct (P.paper_of data); reflexivity.
Qed.

Lemma on_event_requests (p : P.page) (data : P.event) :
  P.requests (P.on_event p data) = P.requests p.
Proof.
  unfold P.on_event. pose proof (handle_requests data p) as H.
  destruct (P.handle data p) as [p1 [e|]]; exact H.
Qed.

Section Loop.
Variable parse : Js.str -> exn + P.event.

Lemma on_line_requests (p : P.page) (line : Js.str) :
  P.requests (P.on_line parse p line) = P.requests p.
Proof.
  unfold P.on_line, P.on_payload.
  destruct (Js.startsWith (Js.lit "data: ") line); [|reflexivity].
  destruct (parse (Js.slice 6 line)); [reflexivity | apply on_event_requests].
Qed.

Lemma fold_on_line_requests (lines : list Js.str) : forall p : P.page,
  P.requests (fold_left (P.on_line parse) lines p) = P.requests p.
Proof.
  induction lines as [|l lines IH]; intros p; [reflexivity|].
  cbn [fold_left]. rewrite IH. apply on_line_requests.
Qed.

Lemma read_loop_requests (chunks : list (list Byte.byte)) (p : P.page) :
  P.requests (P.pg (P.read_loop parse chunks p)) = P.requests p.
Proof.
  rewrite StreamFacts.read_loop_after. unfold StreamFacts.after. cbn [P.pg].
  apply fold_on_line_requests.
Qed.

End Loop.

Lemma short_cases (t : Js.str) :
  length t < 10 ->
  (t = [] /\ Js.truthy t = false)
  \/ (t <> [] /\ Js.truthy t = true /\ Nat.ltb (length t) 10 = true).
Proof.
  intros H. destruct t as [|c t]; [left; split; reflexivity|].
  right. split; [discriminate|]. split; [reflexivity|].
  apply Nat.ltb_lt. exact H.
Qed.

Lemma long_cases (t : Js.str) :
  10 <= length t -> Js.truthy t = true /\ Nat.ltb (length t) 10 = false.
Proof.
  intros H. split.
  - destruct t; [cbn in H; lia | reflexivity].
  - apply Nat.ltb_ge. exact H.
Qed.

(** C4: a topic that is empty or shorter than 10 once trimmed is rejected
    by both entry points with one notification and nothing else: no
    request is issued; a trimmed topic of 10 or more passes the check, and
    the first request carries it. *)
Theorem topic_validation_precedes_requests
  (parse : Js.str -> exn + P.event) (f : P.form) (net : P.response)
  (p : P.page) (topic_value : Js.str) (net1 : L.http L.retrieve_data)
  (net2 : L.http L.survey_data) (q : L.page) :
  let paperTitle := Js.trim (P.paperTitle_value f) in
  let topic := Js.trim topic_value in
  (length paperTitle < 10 ->
     P.generatePaper parse f net p
     = (if Js.truthy paperTitle
        then P.showNotification
               (Js.lit "Topic too short. Minimum 10 characters.") warning p
        else P.showNotification (Js.lit "Please enter a paper topic") error p)
     /\ P.requests (P.generatePaper parse f net p) = P.requests p)
  /\ (length topic < 10 ->
        L.generateSurvey topic_value net1 net2 q
        = (if Js.truthy topic
           then L.showNotification
                  (Js.lit "Topic too short. Please provide at least 10 characters.")
                  warning q
           else L.showNotification (Js.lit "Please enter a research topic")
                  error q)
        /\ L.requests (L.generateSurvey topic_value net1 net2 q) = L.requests q)
  /\ (10 <= length paperTitle ->
        P.collect_authors (P.author_entries f) <> [] ->
        P.requests (P.generatePaper parse f net p)
        = P.requests p
          ++ [{| P.url := Js.lit "/api/generate-paper-stream";
                 P.req_body :=
                   {| P.topic := paperTitle;
                      P.p_authors := P.collect_authors (P.author_entries f);
                      P.use_rag := P.useRAG f;
                      P.user_data := P.userExperimentalData f |} |}])
  /\ (10 <= length topic ->
        exists rest,
          L.requests (L.generateSurvey topic_value net1 net2 q)
          = L.requests q ++ L.RetrievePapers topic 10 :: rest).
Proof.
  cbv zeta. split; [|split; [|split]].
  - intros H. unfold P.generatePaper.
    destruct (@short_cases _ H) as [[E T]|[_ [T Lt]]]; rewrite T; cbn [negb].
    + split; reflexivity.
    + rewrite Lt. split; reflexivity.
  - intros H. unfold L.generateSurvey.
    destruct (@short_cases _ H) as [[E T]|[_ [T Lt]]]; rewrite T; cbn [negb].
    + split; reflexivity.
    + rewrite Lt. split; reflexivity.
  - intros H Ha. unfold P.generatePaper.
    destruct (@long_cases _ H) as [T Ge]. rewrite T, Ge. cbn [negb].
    destruct (P.collect_authors (P.author_entries f)) as [|a l] eqn:Ea;
      [congruence|].
    cbn [length Nat.eqb].
    destruct net as [e | chunks [|e]]; cbn;
      try rewrite read_loop_requests; reflexivity.
  - intros H. unfold L.generateSurvey.
    destruct (@long_cases _ H) as [T Ge]. rewrite T, Ge. cbn [negb].
    destruct (L.answer net1) as [e|d]; [eexists; reflexivity|].
    destruct (L.r_success d); cbn [negb]; [|eexists; reflexivity].
    destruct (L.answer net2) as [e|d2].
    + eexists. cbn. rewrite <- app_assoc. reflexivity.
    + destruct (L.s_success d2); eexists; cbn; rewrite <- app_assoc;
        reflexivity.
Qed.

Lemma topic_validation_precedes_requests_witness :
  let short := {| P.paperTitle_value := Js.lit "  too short   ";
                  P.useRAG := true; P.hasUserData := false;
                  P.author_entries := P.author_entries Samples.a_form;
                  P.methodology_value := []; P.results_value := [] |} in
  length (Js.trim (P.paperTitle_value short)) < 10
  /\ 10 <= length (Js.trim (P.paperTitle_value Samples.a_form))
  /\ P.collect_authors (P.author_entries Samples.a_form) <> []
  /\ P.requests (P.generatePaper Samples.parse short (P.Body [] P.Done)
                   Samples.blank_page) = []
  /\ length (P.requests (P.generatePaper Samples.parse Samples.a_form
                           (P.Body [] P.Done) Samples.blank_page)) = 1.
Proof.
  cbv zeta.
  assert (length (Js.trim (Js.lit "  too short   ")) < 10) as H1
    by (vm_compute; lia).
  assert (10 <= length (Js.trim (P.paperTitle_value Samples.a_form))) as H2
    by (vm_compute; lia).
  assert (P.collect_authors (P.author_entries Samples.a_form) <> []) as H3
    by (vm_compute; discriminate).
  split; [exact H1|]. split; [exact H2|]. split; [exact H3|]. split.
  - exact (proj2 (proj1 (topic_validation_precedes_requests Samples.parse
      {| P.paperTitle_value := Js.lit "  too short   ";
         P.useRAG := true; P.hasUserData := false;
         P.author_entries := P.author_entries Samples.a_form;
         P.methodology_value := []; P.results_value := [] |}
      (P.Body [] P.Done) Samples.blank_page [] (L.Rejected _ (Exn Error []))
      (L.Rejected _ (Exn Error []))
      {| L.loading := None; L.surveyTopic := []; L.surveyRetrievedPapers := [];
         L.surveyGeneratedContent := []; L.shown := []; L.alerts := [];
         L.console := []; L.requests := [] |}) H1)).
  - rewrite (proj1 (proj2 (proj2 (topic_validation_precedes_requests
      Samples.parse Samples.a_form (P.Body [] P.Done) Samples.blank_page []
      (L.Rejected _ (Exn Error [])) (L.Rejected _ (Exn Error []))
      {| L.loading := None; L.surveyTopic := []; L.surveyRetrievedPapers := [];
         L.surveyGeneratedContent := []; L.shown := []; L.alerts := [];
         L.console := []; L.requests := [] |}))) H2 H3).
    reflexivity.
Defined.

End ValidationFacts.

(** ** Facts on the pattern engine *)

Module PyFacts.
Import Py.

Lemma match_here_nil (s : str) : match_here [] s = Some ([], s).
Proof. reflexivity. Qed.

(** A one-character class at the head of the text. *)
Lemma match_one (f : char -> bool) (c : char) (s : str) :
  match_here [one f] (c :: s) = if f c then Some ([[c]], s) else None.
Proof.
  cbn. destruct (f c); reflexivity.
Qed.

Lemma match_one_nil (f : char -> bool) : match_here [one f] [] = None.
Proof. reflexivity. Qed.

(** Deleting the characters of a class is a filter. *)
Lemma sub_one_delete (f : char -> bool) (s : str) :
  sub [one f] (fun _ => []) s = filter (fun c => negb (f c)) s.
Proof.
  unfold sub. induction s as [|c s IH]; [reflexivity|].
  cbn [sub_from]. rewrite match_one. cbn [filter].
  destruct (f c); cbn [negb].
  - replace (length (c :: s) - length s) with 1 by (cbn [length]; lia).
    cbn. exact IH.
  - rewrite IH. reflexivity.
Qed.

Lemma backtrack_eq (rest : str -> option (list str * str)) (lo : nat)
  (s : str) (k : nat) :
  backtrack rest lo s k =
    if Nat.ltb k lo then None else
    match rest (skipn k s) with
    | Some (segs, r) => Some (firstn k s :: segs, r)
    | None =>
        match k with
        | 0 => None
        | S k' => backtrack rest lo s k'
        end
    end.
Proof. destruct k; reflexivity. Qed.

Lemma backtrack_nil_rest (lo : nat) (s : str) (k : nat) :
  lo <= k ->
  backtrack (match_here []) lo s k = Some ([firstn k s], skipn k s).
Proof.
  intros H. rewrite backtrack_eq.
  destruct (Nat.ltb_spec k lo); [lia | reflexivity].
Qed.

(** A repeated class at the head of the text takes its whole run. *)
Lemma match_plus (f : char -> bool) (s : str) :
  match_here [plus f] s =
    if Nat.ltb (run f s) 1 then None
    else Some ([firstn (run f s) s], skipn (run f s) s).
Proof.
  cbn [match_here plus many cls least].
  destruct (Nat.ltb_spec (run f s) 1) as [H|H].
  - destruct (run f s) as [|r]; [reflexivity | lia].
  - apply backtrack_nil_rest. exact H.
Qed.

Lemma run_le (f : char -> bool) (s : str) : run f s <= length s.
Proof. induction s as [|c s IH]; cbn; [lia|]. destruct (f c); cbn; lia. Qed.

(** What [re.sub(r'\s+', '_', s)] can contain: underscores, and characters
    of [s] outside the class. *)
Lemma sub_plus_chars (f : char -> bool) (r : str) (s : str) : forall k,
  Forall (fun c => In c r \/ (In c s /\ f c = false))
    (sub_from [plus f] (fun _ => r) k s).
Proof.
  induction s as [|c s IH]; intros k.
  - cbn. destruct k; constructor.
  - cbn [sub_from]. destruct k as [|k].
    + rewrite match_plus.
      destruct (Nat.ltb_spec (run f (c :: s)) 1) as [H|H].
      * constructor.
        -- right. split; [left; reflexivity|].
           cbn in H. destruct (f c); [lia | reflexivity].
        -- eapply Forall_impl; [|apply IH]. cbn. intros a [Ha|[Ha Hf]]; auto.
      * assert (Forall (fun c0 => In c0 r \/ In c0 (c :: s) /\ f c0 = false) r)
          as Hr by (apply Forall_forall; intros; left; assumption).
        assert (length (c :: s) - length (skipn (run f (c :: s)) (c :: s))
                = run f (c :: s)) as ->
          by (rewrite length_skipn; pose proof (run_le f (c :: s)); lia).
        destruct (run f (c :: s)) as [|n]; [lia|].
        apply Forall_app. split; [exact Hr|].
        eapply Forall_impl; [|apply IH]. cbn. intros a [Ha|[Ha Hf]]; auto.
    + eapply Forall_impl; [|apply IH]. cbn. intros a [Ha|[Ha Hf]]; auto.
Qed.

Lemma lstrip_incl (U : unicode) (s : str) (c : char) :
  In c (lstrip U s) -> In c s.
Proof.
  induction s as [|a s IH]; cbn; [tauto|].
  destruct (is_space U a); cbn; auto.
Qed.

Lemma strip_incl (U : unicode) (s : str) (c : char) :
  In c (strip U s) -> In c s.
Proof.
  unfold strip. intros H. apply in_rev in H. apply lstrip_incl in H.
  apply in_rev in H. apply lstrip_incl in H. exact H.
Qed.

Lemma slice_to_incl {A} (n : Z) (l : list A) (x : A) :
  In x (slice_to n l) -> In x l.
Proof.
  unfold slice_to. destruct (Z.leb 0 n); intros H;
    match type of H with
    | In _ (firstn ?k _) =>
        rewrite <- (firstn_skipn k l); apply in_or_app; left; exact H
    end.
Qed.

Lemma slice_to_length {A} (n : Z) (l : list A) :
  (0 <= n)%Z -> length (slice_to n l) <= Z.to_nat n.
Proof.
  intros H. unfold slice_to. destruct (Z.leb_spec 0 n); [|lia].
  apply firstn_le_length.
Qed.

End PyFacts.

(** ** get_cache_key *)

Module CacheFacts.
Import Py CacheManager.

Lemma le_bytes_length (n : nat) : forall x, length (Md5.le_bytes n x) = n.
Proof. induction n as [|n IH]; intros x; cbn; [|rewrite IH]; reflexivity. Qed.

Lemma le_bytes_bound (n : nat) : forall x,
  Forall (fun b => (b < 256)%N) (Md5.le_bytes n x).
Proof.
  induction n as [|n IH]; intros x; cbn; constructor; [|apply IH].
  apply N.mod_lt. discriminate.
Qed.

Lemma regs_bytes_length (r : Md5.regs) :
  length (Md5.le_bytes 4 (Md5.ra r) ++ Md5.le_bytes 4 (Md5.rb r)
          ++ Md5.le_bytes 4 (Md5.rc r) ++ Md5.le_bytes 4 (Md5.rd r)) = 16.
Proof. rewrite !length_app, !le_bytes_length. reflexivity. Qed.

Lemma regs_bytes_bound (r : Md5.regs) :
  Forall (fun b => (b < 256)%N)
    (Md5.le_bytes 4 (Md5.ra r) ++ Md5.le_bytes 4 (Md5.rb r)
     ++ Md5.le_bytes 4 (Md5.rc r) ++ Md5.le_bytes 4 (Md5.rd r)).
Proof.
  repeat (apply Forall_app; split); apply le_bytes_bound.
Qed.

Lemma digest_length (msg : list N) : length (Md5.digest msg) = 16.
Proof. unfold Md5.digest. apply regs_bytes_length. Qed.

Lemma digest_bound (msg : list N) :
  Forall (fun b => (b < 256)%N) (Md5.digest msg).
Proof. unfold Md5.digest. apply regs_bytes_bound. Qed.

Lemma hex_digit_is_hex (n : N) : (n < 16)%N -> is_hex (Md5.hex_digit n) = true.
Proof.
  intros H. unfold Md5.hex_digit, is_hex.
  destruct (N.ltb_spec n 10); apply orb_true_iff; [left | right];
    apply andb_true_iff; split; apply N.leb_le; lia.
Qed.

Lemma hexdigest_length (msg : list N) : length (Md5.hexdigest msg) = 32.
Proof.
  unfold Md5.hexdigest. pose proof (digest_length msg) as H.
  revert H. generalize (Md5.digest msg) as l. intros l.
  assert (forall k : list N,
            length (flat_map (fun b => [Md5.hex_digit (N.div b 16);
                                        Md5.hex_digit (N.modulo b 16)]) k)
            = 2 * length k) as E
    by (induction k as [|b k IH]; cbn [flat_map length app]; [|rewrite IH; lia];
        reflexivity).
  intros H. rewrite E, H. reflexivity.
Qed.

Lemma hexdigest_hex (msg : list N) :
  Forall (fun c => is_hex c = true) (Md5.hexdigest msg).
Proof.
  unfold Md5.hexdigest. pose proof (digest_bound msg) as H.
  induction H as [|b l Hb Hl IH]; cbn [flat_map]; [constructor|].
  constructor; [|constructor; [|exact IH]]; apply hex_digit_is_hex.
  - apply N.Div0.div_lt_upper_bound. exact Hb.
  - apply N.mod_lt. discriminate.
Qed.

Lemma encode_char_some (c : char) :
  is_surrogate c = false -> exists b, Md5.encode_char c = Some b.
Proof.
  intros H. unfold Md5.encode_char. unfold is_surrogate in H. rewrite H.
  repeat match goal with |- context [if ?b then _ else _] => destruct b end;
    eexists; reflexivity.
Qed.

Lemma encode_char_none (c : char) :
  is_surrogate c = true -> Md5.encode_char c = None.
Proof.
  intros H. unfold Md5.encode_char. unfold is_surrogate in H. rewrite H.
  apply andb_true_iff in H. destruct H as [H1 H2].
  apply N.leb_le in H1.
  destruct (N.ltb_spec c 128); [lia|]. destruct (N.ltb_spec c 2048); [lia|].
  reflexivity.
Qed.

Lemma encode_some (query : str) :
  Forall (fun c => is_surrogate c = false) query ->
  exists bytes, Md5.encode query = Some bytes.
Proof.
  induction 1 as [|c s Hc Hs [bs IH]]; [exists []; reflexivity|].
  destruct (encode_char_some c Hc) as [b Hb].
  exists (b ++ bs). cbn. rewrite Hb, IH. reflexivity.
Qed.

Lemma encode_none (query : str) :
  Exists (fun c => is_surrogate c = true) query -> Md5.encode query = None.
Proof.
  induction 1 as [c s Hc | c s Hs IH]; cbn.
  - rewrite (encode_char_none c Hc). reflexivity.
  - rewrite IH. destruct (Md5.encode_char c); reflexivity.
Qed.

Section Key.
Variable U : unicode.

Lemma clean_eq (query : str) :
  clean U query =
    firstn 60
      (sub [plus (is_space U)] (fun _ => lit "_")
         (strip U (filter (fun c => negb (stripped U c)) (lower U query)))).
Proof. unfold clean. rewrite PyFacts.sub_one_delete. reflexivity. Qed.

Lemma clean_chars (query : str) (c : char) :
  In c (clean U query) ->
  (c = 95%N \/ (is_word U c = true \/ c = 45%N)) /\ is_space U c = false.
Proof.
  rewrite clean_eq. intros H.
  assert (In c (sub [plus (is_space U)] (fun _ => lit "_")
                  (strip U (filter (fun c => negb (stripped U c))
                              (lower U query))))) as H'.
  { rewrite <- (firstn_skipn 60). apply in_or_app. left. exact H. }
  clear H. unfold sub in H'.
  pose proof (PyFacts.sub_plus_chars (is_space U) (lit "_")
                (strip U (filter (fun c => negb (stripped U c)) (lower U query)))
                0) as F.
  rewrite Forall_forall in F. destruct (F c H') as [Hu | [Hin Hsp]].
  - destruct Hu as [<-|[]]. split; [left; reflexivity | reflexivity].
  - split; [right | exact Hsp].
    apply PyFacts.strip_incl in Hin. apply filter_In in Hin.
    destruct Hin as [_ Hk]. unfold stripped in Hk.
    rewrite negb_involutive, Hsp, orb_false_r in Hk.
    apply orb_true_iff in Hk. destruct Hk as [Hk|Hk]; [left; exact Hk|].
    right. apply N.eqb_eq in Hk. exact Hk.
Qed.

End Key.

(** C5, as the claim states it, fails: the hyphen is no word character, and
    the key keeps it. *)
Lemma hyphen_kept_in_cache_key :
  get_cache_key ascii_only (lit "a-b") = Some (lit "a-b_8ca2ed59")
  /\ cache_key_as_specified ascii_only (lit "a-b") = Some (lit "ab_8ca2ed59")
  /\ get_cache_key ascii_only (lit "a-b")
     <> cache_key_as_specified ascii_only (lit "a-b").
Proof. vm_compute. repeat split. discriminate. Qed.

(** C5, amended: the key is the slug, an underscore and the first 8
    hexadecimal digits of the MD5 digest of the UTF-8 bytes of the query as
    given.  The slug is the lower-cased query without the characters that
    are neither word characters, whitespace nor hyphens, stripped of
    leading and trailing whitespace, with each run of whitespace replaced by
    one underscore, cut to 60 characters; it holds word characters and
    hyphens only.  A query with a surrogate code point has no key: encoding
    it raises.  Equal queries give equal keys. *)
Theorem cache_key_derivation (U : unicode) (query : str) :
  (Forall (fun c => is_surrogate c = false) query ->
     exists bytes h,
       Md5.encode query = Some bytes
       /\ h = firstn 8 (Md5.hexdigest bytes)
       /\ length h = 8
       /\ Forall (fun c => is_hex c = true) h
       /\ get_cache_key U query = Some (clean U query ++ lit "_" ++ h))
  /\ (Exists (fun c => is_surrogate c = true) query ->
        get_cache_key U query = None)
  /\ clean U query =
       firstn 60
         (sub [plus (is_space U)] (fun _ => lit "_")
            (strip U (filter (fun c => negb (stripped U c)) (lower U query))))
  /\ length (clean U query) <= 60
  /\ Forall (fun c => is_word U c = true \/ c = 45%N) (clean U query)
  /\ Forall (fun c => is_space U c = false) (clean U query)
  /\ (forall query' : str,
        query' = query -> get_cache_key U query' = get_cache_key U query).
Proof.
  split; [|split; [|split; [|split; [|split; [|split]]]]].
  - intros H. destruct (encode_some H) as [bytes Hb].
    exists bytes, (firstn 8 (Md5.hexdigest bytes)).
    split; [exact Hb|]. split; [reflexivity|]. split; [|split].
    + rewrite length_firstn, hexdigest_length. reflexivity.
    + apply Forall_forall. intros c Hc.
      pose proof (hexdigest_hex bytes) as F. rewrite Forall_forall in F.
      apply F. rewrite <- (firstn_skipn 8). apply in_or_app. left. exact Hc.
    + unfold get_cache_key, hash_suffix. rewrite Hb. reflexivity.
  - intros H. unfold get_cache_key, hash_suffix.
    rewrite (encode_none H). reflexivity.
  - apply clean_eq.
  - rewrite clean_eq. apply firstn_le_length.
  - apply Forall_forall. intros c Hc.
    destruct (clean_chars U query c Hc) as [[->|H] _]; [left; reflexivity | exact H].
  - apply Forall_forall. intros c Hc. apply (clean_chars U query c Hc).
  - intros query' ->. reflexivity.
Qed.

Lemma cache_key_derivation_witness :
  let query := lit "Federated Learning for Medical Imaging" in
  Forall (fun c => is_surrogate c = false) query
  /\ exists bytes h,
       Md5.encode query = Some bytes
       /\ h = firstn 8 (Md5.hexdigest bytes)
       /\ length h = 8
       /\ Forall (fun c => is_hex c = true) h
       /\ get_cache_key ascii_only query
          = Some (clean ascii_only query ++ lit "_" ++ h).
Proof.
  cbv zeta.
  assert (Forall (fun c => is_surrogate c = false)
            (lit "Federated Learning for Medical Imaging")) as H
    by (vm_compute; repeat constructor).
  split; [exact H|].
  exact (proj1 (cache_key_derivation ascii_only
                  (lit "Federated Learning for Medical Imaging")) H).
Defined.

End CacheFacts.

(** ** search_papers *)

Module RagFacts.
Import Py RagService.

Lemma py_str_eqb_eq (a : str) : forall b : str, str_eqb a b = true <-> a = b.
Proof.
  induction a as [|x a IH]; intros [|y b]; cbn; split; try congruence.
  - intros H. apply andb_true_iff in H. destruct H as [H1 H2].
    apply N.eqb_eq in H1. apply IH in H2. congruence.
  - intros H. injection H as -> ->. rewrite N.eqb_refl. cbn.
    apply IH. reflexivity.
Qed.

Lemma identifier_eqb_eq (a b : str + str) :
  identifier_eqb a b = true <-> a = b.
Proof.
  destruct a as [x|x], b as [y|y]; cbn; split; try congruence;
    rewrite ?py_str_eqb_eq; congruence.
Qed.

Lemma firstn_NoDup {A} (n : nat) : forall l : list A,
  NoDup l -> NoDup (firstn n l).
Proof.
  induction n as [|n IH]; intros [|x l] H; cbn; try constructor.
  - inversion H as [|? ? Hx Hl]; subst. intros Hin. apply Hx.
    rewrite <- (firstn_skipn n l). apply in_or_app. left. exact Hin.
  - inversion H; subst. apply IH. assumption.
Qed.

Lemma slice_to_NoDup {A B} (f : A -> B) (n : Z) (l : list A) :
  NoDup (map f l) -> NoDup (map f (slice_to n l)).
Proof.
  unfold slice_to. intros H.
  destruct (Z.leb 0 n); rewrite <- firstn_map; apply firstn_NoDup, H.
Qed.

Section Ladder.
Variable provider : Type.
Variable search_api : provider -> str -> provider * list paper.
Variable remove_stopwords : str -> str.
Variable first_n_keywords : str -> Z -> str.
Variable last_n_words : str -> Z -> str.
Variable normalize_title : str -> str.

Abbreviation ident := (identifier normalize_title).

Lemma seen_spec (x : str + str) (seen : list (str + str)) :
  existsb (identifier_eqb x) seen = true <-> In x seen.
Proof.
  rewrite existsb_exists. split.
  - intros [y [Hy E]]. apply identifier_eqb_eq in E. subst. exact Hy.
  - intros H. exists x. split; [exact H | apply identifier_eqb_eq; reflexivity].
Qed.

(** The papers kept are pairwise distinct by identifier, and none has an
    identifier already seen. *)
Lemma deduplicate_from_NoDup (papers : list paper) : forall seen,
  NoDup (map ident (deduplicate_from normalize_title seen papers))
  /\ forall p, In p (deduplicate_from normalize_title seen papers) ->
               ~ In (ident p) seen.
Proof.
  induction papers as [|p papers IH]; intros seen; cbn [deduplicate_from].
  - split; [constructor | intros p []].
  - destruct (existsb (identifier_eqb (ident p)) seen) eqn:E.
    + apply IH.
    + destruct (IH (ident p :: seen)) as [ND Hout]. split.
      * cbn [map]. constructor; [|exact ND].
        intros Hin. apply in_map_iff in Hin. destruct Hin as [q [Eq Hq]].
        apply (Hout q Hq). left. symmetry. exact Eq.
      * intros q [<-|Hq].
        -- intros Hin. apply seen_spec in Hin. congruence.
        -- intros Hin. apply (Hout q Hq). right. exact Hin.
Qed.

Lemma deduplicate_NoDup (papers : list paper) :
  NoDup (map ident (deduplicate normalize_title papers)).
Proof. apply deduplicate_from_NoDup. Qed.

(** Every paper kept was received, and every identifier received is kept. *)
Lemma deduplicate_from_incl (papers : list paper) : forall seen p,
  In p (deduplicate_from normalize_title seen papers) -> In p papers.
Proof.
  induction papers as [|q papers IH]; intros seen p; cbn [deduplicate_from].
  - intros [].
  - destruct (existsb (identifier_eqb (ident q)) seen).
    + intros H. right. apply (IH _ _ H).
    + intros [<-|H]; [left; reflexivity | right; apply (IH _ _ H)].
Qed.

Lemma deduplicate_from_complete (papers : list paper) : forall seen p,
  In p papers ->
  In (ident p) seen
  \/ In (ident p) (map ident (deduplicate_from normalize_title seen papers)).
Proof.
  induction papers as [|q papers IH]; intros seen p; cbn [deduplicate_from].
  - intros [].
  - intros [<-|H].
    + destruct (existsb (identifier_eqb (ident q)) seen) eqn:E.
      * left. apply seen_spec. exact E.
      * right. left. reflexivity.
    + destruct (existsb (identifier_eqb (ident q)) seen) eqn:E.
      * apply IH. exact H.
      * destruct (IH (ident q :: seen) p H) as [[Hq|Hs]|Hd].
        -- right. left. exact Hq.
        -- left. exact Hs.
        -- right. right. exact Hd.
Qed.

Abbreviation run := (search_papers search_api remove_stopwords
                       first_n_keywords last_n_words normalize_title).

Lemma below_spec (papers : list paper) (limit : Z) :
  below papers limit = true <-> (Z.of_nat (length papers) < limit)%Z.
Proof. unfold below. apply Z.ltb_lt. Qed.

Lemma below_false (papers : list paper) (limit : Z) :
  below papers limit = false <-> (limit <= Z.of_nat (length papers))%Z.
Proof. unfold below. apply Z.ltb_ge. Qed.

(** The log of a run from an empty log, in the four possible lengths. *)
Lemma run_cases (query : str) (limit : Z) (pv : provider) :
  let q2 := remove_stopwords query in
  let q3 := first_n_keywords query 3 in
  let q4 := last_n_words query 2 in
  let a1 := search_api pv query in
  let a2 := search_api (fst a1) q2 in
  let a3 := search_api (fst a2) q3 in
  let a4 := search_api (fst a3) q4 in
  let r1 := snd a1 in
  let r2 := r1 ++ snd a2 in
  let r3 := r2 ++ snd a3 in
  let r4 := r3 ++ snd a4 in
  let out l := slice_to limit (deduplicate normalize_title l) in
  (below r1 limit = false
   /\ run query limit (pv, []) = ((fst a1, [(query, snd a1)]), out r1))
  \/ (below r1 limit = true /\ below r2 limit = false
      /\ run query limit (pv, [])
         = ((fst a2, [(query, snd a1); (q2, snd a2)]), out r2))
  \/ (below r1 limit = true /\ below r2 limit = true /\ below r3 limit = false
      /\ run query limit (pv, [])
         = ((fst a3, [(query, snd a1); (q2, snd a2); (q3, snd a3)]), out r3))
  \/ (below r1 limit = true /\ below r2 limit = true /\ below r3 limit = true
      /\ run query limit (pv, [])
         = ((fst a4, [(query, snd a1); (q2, snd a2); (q3, snd a3);
                      (q4, snd a4)]), out r4)).
Proof.
  cbv zeta. unfold search_papers, call. cbn [fst snd app].
  destruct (search_api pv query) as [pv1 r1]. cbn [fst snd app].
  destruct (below r1 limit) eqn:B1.
  2:{ left. rewrite !B1. split; reflexivity. }
  right.
  destruct (search_api pv1 (remove_stopwords query)) as [pv2 r2].
  cbn [fst snd app].
  destruct (below (r1 ++ r2) limit) eqn:B2.
  2:{ left. rewrite !B2. repeat split; reflexivity. }
  right.
  destruct (search_api pv2 (first_n_keywords query 3)) as [pv3 r3].
  cbn [fst snd app].
  destruct (below ((r1 ++ r2) ++ r3) limit) eqn:B3.
  2:{ left. repeat split; reflexivity. }
  right.
  destruct (search_api pv3 (last_n_words query 2)) as [pv4 r4].
  cbn [fst snd app]. repeat split; reflexivity.
Qed.

(** The statement of the amended claim, for one run. *)
Lemma run_gated (query : str) (limit : Z) (pv : provider) :
  let ladder := [query; remove_stopwords query; first_n_keywords query 3;
                 last_n_words query 2] in
  let calls := snd (fst (run query limit (pv, []))) in
  let result := snd (run query limit (pv, [])) in
  (exists n, 1 <= n <= 4 /\ map fst calls = firstn n ladder)
  /\ (forall l1 e l2, calls = l1 ++ e :: l2 -> l1 <> [] ->
        (Z.of_nat (received l1) < limit)%Z)
  /\ (length calls < 4 -> (limit <= Z.of_nat (received calls))%Z)
  /\ result
     = slice_to limit (deduplicate normalize_title (concat (map snd calls)))
  /\ NoDup (map ident result)
  /\ ((0 <= limit)%Z -> (Z.of_nat (length result) <= limit)%Z).
Proof.
  cbv zeta.
  assert (forall l, NoDup (map ident
            (slice_to limit (deduplicate normalize_title l)))) as ND
    by (intros l; apply RagFacts.slice_to_NoDup, deduplicate_NoDup).
  assert (forall l : list paper, (0 <= limit)%Z ->
            (Z.of_nat (length (slice_to limit
               (deduplicate normalize_title l))) <= limit)%Z) as LE.
  { intros l H. pose proof (PyFacts.slice_to_length
                              (deduplicate normalize_title l) H). lia. }
  unfold received.
  destruct (run_cases query limit pv)
    as [[B1 E] | [[B1 [B2 E]] | [[B1 [B2 [B3 E]]] | [B1 [B2 [B3 E]]]]]];
    cbv zeta in E; rewrite E; cbn [fst snd map concat];
    rewrite ?app_nil_r, ?app_assoc;
    apply below_spec in B1 || apply below_false in B1;
    try (apply below_spec in B2 || apply below_false in B2);
    try (apply below_spec in B3 || apply below_false in B3).
  - split; [exists 1; split; [lia | reflexivity]|].
    split.
    { intros l1 e l2 H Hne. destruct l1 as [|x [|y l1]]; try congruence;
        cbn in H; discriminate. }
    split; [intros _; exact B1|]. split; [reflexivity|].
    split; [apply ND | apply LE].
  - split; [exists 2; split; [lia | reflexivity]|].
    split.
    { intros l1 e l2 H Hne.
      destruct l1 as [|x [|y [|z l1]]]; try congruence; cbn in H;
        try discriminate.
      injection H as <- _ _. cbn. rewrite app_nil_r. exact B1. }
    split; [intros _; exact B2|]. split; [reflexivity|].
    split; [apply ND | apply LE].
  - split; [exists 3; split; [lia | reflexivity]|].
    split.
    { intros l1 e l2 H Hne.
      destruct l1 as [|x [|y [|z [|w l1]]]]; try congruence; cbn in H;
        try discriminate.
      - injection H as <- _ _. cbn. rewrite app_nil_r. exact B1.
      - injection H as <- <- _ _. cbn. rewrite app_nil_r. exact B2. }
    split; [intros _; exact B3|]. split; [reflexivity|].
    split; [apply ND | apply LE].
  - split; [exists 4; split; [lia | reflexivity]|].
    split.
    { intros l1 e l2 H Hne.
      destruct l1 as [|x [|y [|z [|w [|v l1]]]]]; try congruence; cbn in H;
        try discriminate.
      - injection H as <- _ _. cbn. rewrite app_nil_r. exact B1.
      - injection H as <- <- _ _. cbn. rewrite app_nil_r. exact B2.
      - injection H as <- <- <- _ _. cbn. rewrite app_nil_r, app_assoc.
        exact B3. }
    split; [cbn; lia|]. split; [reflexivity|].
    split; [apply ND | apply LE].
Qed.

End Ladder.

End RagFacts.

(** ** The ladder on sample providers *)

Module RagSamples.
Import Py RagService.

Definition paper_a : paper :=
  {| external_id := Some (lit "10.1000/a"); title := lit "Paper A";
     year := 2024; citation_count := 12 |}.

Definition paper_b : paper :=
  {| external_id := None; title := lit "Paper B";
     year := 2023; citation_count := 3 |}.

(** A provider that answers every query with the same paper. *)
Definition same_answer (pv : unit) (q : str) : unit * list paper :=
  (pv, [paper_a]).

(** A provider that answers the exact query with one paper and any other
    query with two, one of them the same. *)
Definition two_answers (q0 : str) (pv : unit) (q : str) : unit * list paper :=
  (pv, if str_eqb q q0 then [paper_a] else [paper_a; paper_b]).

Definition simpler (q : str) : str := filter (fun c => negb (N.eqb c 32)) q.
Definition first_n (q : str) (n : Z) : str := slice_to n q.
Definition last_n (q : str) (n : Z) : str :=
  rev (slice_to n (rev q)).
Definition same_title (t : str) : str := t.

End RagSamples.

Module LadderFacts.
Import Py RagService.

(** C1, as the claim states it, fails: the accumulator is not deduplicated
    between the steps.  With a provider that answers every query with the
    same paper and limit 2, the code stops after the second step, with two
    received papers that are one paper; deduplicating before each
    comparison would run all four steps. *)
Lemma ladder_counts_duplicates :
  let code := search_papers RagSamples.same_answer RagSamples.simpler
                RagSamples.first_n RagSamples.last_n RagSamples.same_title
                (lit "deep learning") 2 (tt, []) in
  let spec := search_papers_dedup_each_step RagSamples.same_answer
                RagSamples.simpler RagSamples.first_n RagSamples.last_n
                RagSamples.same_title (lit "deep learning") 2 (tt, []) in
  length (snd (fst code)) = 2
  /\ length (snd (fst spec)) = 4
  /\ snd code = [RagSamples.paper_a]
  /\ code <> spec.
Proof. vm_compute. repeat split. discriminate. Qed.

(** C1, amended: the queries issued are the first [n] of the ladder (exact,
    simplified, minimal, broad), [n] between 1 and 4; a step after the
    first is run only when the number of papers received so far,
    duplicates included, is below [limit], and the ladder stops before the
    fourth step only when that number has reached [limit]; the papers
    received are deduplicated by identifier once, after the last step, and
    the result is the slice [[:limit]] of the deduplicated list: no two
    papers of the result share an identifier, and for [limit >= 0] the
    result has at most [limit] papers. *)
Theorem ladder_gated_on_received_count
  (provider : Type) (search_api : provider -> str -> provider * list paper)
  (remove_stopwords : str -> str) (first_n_keywords last_n_words : str -> Z -> str)
  (normalize_title : str -> str) (query : str) (limit : Z) (pv : provider) :
  let ladder := [query; remove_stopwords query; first_n_keywords query 3%Z;
                 last_n_words query 2%Z] in
  let out := search_papers search_api remove_stopwords first_n_keywords
               last_n_words normalize_title query limit (pv, []) in
  let calls := snd (fst out) in
  let result := snd out in
  (exists n, 1 <= n <= 4 /\ map fst calls = firstn n ladder)
  /\ (forall l1 e l2, calls = l1 ++ e :: l2 -> l1 <> [] ->
        (Z.of_nat (received l1) < limit)%Z)
  /\ (length calls < 4 -> (limit <= Z.of_nat (received calls))%Z)
  /\ result
     = slice_to limit (deduplicate normalize_title (concat (map snd calls)))
  /\ NoDup (map (identifier normalize_title) result)
  /\ ((0 <= limit)%Z -> (Z.of_nat (length result) <= limit)%Z).
Proof. apply RagFacts.run_gated. Qed.

Lemma ladder_gated_on_received_count_witness :
  let out := search_papers (RagSamples.two_answers (lit "deep learning"))
               RagSamples.simpler RagSamples.first_n RagSamples.last_n
               RagSamples.same_title (lit "deep learning") 3 (tt, []) in
  (0 <= 3)%Z
  /\ snd (fst out) = [(lit "deep learning", [RagSamples.paper_a]);
                      (lit "deeplearning",
                       [RagSamples.paper_a; RagSamples.paper_b])]
  /\ snd (fst out) = [(lit "deep learning", [RagSamples.paper_a])]
                     ++ (lit "deeplearning",
                         [RagSamples.paper_a; RagSamples.paper_b]) :: []
  /\ (Z.of_nat (received [(lit "deep learning", [RagSamples.paper_a])]) < 3)%Z
  /\ (Z.of_nat (length (snd out)) <= 3)%Z.
Proof.
  cbv zeta.
  assert ((0 <= 3)%Z) as H0 by lia.
  assert (snd (fst (search_papers (RagSamples.two_answers (lit "deep learning"))
               RagSamples.simpler RagSamples.first_n RagSamples.last_n
               RagSamples.same_title (lit "deep learning") 3 (tt, [])))
          = [(lit "deep learning", [RagSamples.paper_a])]
            ++ (lit "deeplearning",
                [RagSamples.paper_a; RagSamples.paper_b]) :: []) as E
    by (vm_compute; reflexivity).
  pose proof (ladder_gated_on_received_count
                (RagSamples.two_answers (lit "deep learning"))
                RagSamples.simpler RagSamples.first_n RagSamples.last_n
                RagSamples.same_title (lit "deep learning") 3 tt) as T.
  cbv zeta in T. destruct T as [_ [T2 [_ [_ [_ T6]]]]].
  split; [exact H0|]. split; [exact E|]. split; [exact E|].
  split; [apply (T2 _ _ _ E); discriminate | apply T6; exact H0].
Defined.

End LadderFacts.

(** ** The content formatter *)

Module FormatFacts.
Import Py Llm.

Lemma absent_eq (pat : list item) (s : str) :
  absent pat s =
    match match_here pat s with
    | Some _ => false
    | None => match s with [] => true | _ :: s' => absent pat s' end
    end.
Proof. destruct s; reflexivity. Qed.

Lemma absent_here (pat : list item) (s : str) :
  absent pat s = true -> match_here pat s = None.
Proof. rewrite absent_eq. destruct (match_here pat s); [discriminate | reflexivity]. Qed.

Lemma absent_tail (pat : list item) (c : char) (s : str) :
  absent pat (c :: s) = true -> absent pat s = true.
Proof.
  rewrite absent_eq. destruct (match_here pat (c :: s)); [discriminate | auto].
Qed.

Lemma absent_end (pat : list item) (s : str) :
  absent pat s = true -> match_here pat [] = None.
Proof.
  induction s as [|c s IH]; intros H.
  - apply absent_here. exact H.
  - apply IH. apply (absent_tail _ _ _ H).
Qed.

(** Where a pattern does not occur, [re.sub] returns the text as it is. *)
Lemma sub_absent (pat : list item) (repl : list str -> str) (s : str) :
  absent pat s = true -> sub pat repl s = s.
Proof.
  unfold sub. induction s as [|c s IH]; intros H.
  - cbn. rewrite (absent_here _ _ H). reflexivity.
  - cbn [sub_from]. rewrite (absent_here _ _ H).
    rewrite IH by (apply (absent_tail _ _ _ H)). reflexivity.
Qed.

Lemma run_app_ge (f : char -> bool) (s w : str) : run f s <= run f (s ++ w).
Proof.
  induction s as [|c s IH]; cbn; [lia|]. destruct (f c); lia.
Qed.

Lemma backtrack_found (rest : str -> option (list str * str)) (lo : nat)
  (s : str) (k : nat) : forall j,
  lo <= j <= k -> rest (skipn j s) <> None -> backtrack rest lo s k <> None.
Proof.
  induction k as [|k IH]; intros j Hj Hr; rewrite PyFacts.backtrack_eq.
  - assert (j = 0) by lia. subst j.
    destruct (Nat.ltb_spec 0 lo); [lia|].
    destruct (rest (skipn 0 s)) as [[segs r]|]; [discriminate | congruence].
  - destruct (Nat.ltb_spec (S k) lo); [lia|].
    destruct (rest (skipn (S k) s)) as [[segs r]|] eqn:E; [discriminate|].
    apply (IH j); [|exact Hr].
    destruct (Nat.eq_dec j (S k)); [subst; congruence | lia].
Qed.

Lemma backtrack_inv (rest : str -> option (list str * str)) (lo : nat)
  (s : str) (k : nat) :
  backtrack rest lo s k <> None ->
  exists j, lo <= j <= k /\ rest (skipn j s) <> None.
Proof.
  induction k as [|k IH]; rewrite PyFacts.backtrack_eq.
  - destruct (Nat.ltb_spec 0 lo); [congruence|].
    destruct (rest (skipn 0 s)) as [[segs r]|] eqn:E; [|congruence].
    intros _. exists 0. split; [lia | congruence].
  - destruct (Nat.ltb_spec (S k) lo); [congruence|].
    destruct (rest (skipn (S k) s)) as [[segs r]|] eqn:E.
    + intros _. exists (S k). split; [lia | congruence].
    + intros H'. destruct (IH H') as [j [Hj Hr]]. exists j.
      split; [lia | exact Hr].
Qed.

(** A match at the start of a text is still found when the text goes on. *)
Lemma match_here_app (pat : list item) : forall s w : str,
  match_here pat s <> None -> match_here pat (s ++ w) <> None.
Proof.
  induction pat as [|it pat IH]; intros s w H; [discriminate|].
  cbn [match_here] in *.
  pose proof (run_app_ge (cls it) s w) as Hrun.
  pose proof (PyFacts.run_le (cls it) s) as Hlen.
  assert (forall j, j <= run (cls it) s ->
            match_here pat (skipn j s) <> None ->
            match_here pat (skipn j (s ++ w)) <> None) as Hstep.
  { intros j Hj Hm. rewrite skipn_app.
    replace (j - length s) with 0 by lia. cbn [skipn]. apply IH, Hm. }
  destruct (many it).
  - destruct (@backtrack_inv _ _ _ _ H) as [j [Hj Hr]].
    apply (@backtrack_found (match_here pat) _ _ _ j); [lia | apply Hstep; [lia | exact Hr]].
  - destruct (Nat.ltb_spec (run (cls it) s) (least it)); [congruence|].
    destruct (Nat.ltb_spec (run (cls it) (s ++ w)) (least it)); [lia|].
    destruct (@backtrack_inv _ _ _ _ H) as [j [Hj Hr]].
    apply (@backtrack_found (match_here pat) _ _ _ j); [lia | apply Hstep; [lia | exact Hr]].
Qed.

Lemma absent_prefix (pat : list item) (s w : str) :
  absent pat (s ++ w) = true -> absent pat s = true.
Proof.
  induction s as [|c s IH]; intros H.
  - cbn [app] in H. rewrite absent_eq, (absent_end _ _ H). reflexivity.
  - rewrite absent_eq.
    destruct (match_here pat (c :: s)) eqn:E.
    + exfalso. apply (match_here_app pat (c :: s) w); [congruence|].
      apply absent_here. exact H.
    + apply IH. apply (absent_tail pat c (s ++ w)). exact H.
Qed.

Lemma absent_suffix (pat : list item) (a s : str) :
  absent pat (a ++ s) = true -> absent pat s = true.
Proof.
  induction a as [|c a IH]; intros H; [exact H|].
  apply IH. apply (absent_tail pat c (a ++ s)). exact H.
Qed.

Section Strip.
Variable U : unicode.

Lemma lstrip_suffix (s : str) : exists a, s = a ++ lstrip U s.
Proof.
  induction s as [|c s [a IH]]; [exists []; reflexivity|].
  cbn. destruct (is_space U c).
  - exists (c :: a). cbn. f_equal. exact IH.
  - exists []. reflexivity.
Qed.

(** The stripped text is a piece of the text. *)
Lemma strip_inside (s : str) : exists a w, s = a ++ strip U s ++ w.
Proof.
  destruct (lstrip_suffix s) as [a Ha].
  destruct (lstrip_suffix (rev (lstrip U s))) as [b Hb].
  exists a, (rev b). unfold strip.
  rewrite <- rev_app_distr, <- Hb, rev_involutive. exact Ha.
Qed.

Lemma lstrip_fixed (s : str) :
  match s with [] => True | c :: _ => is_space U c = false end ->
  lstrip U s = s.
Proof. destruct s as [|c s]; [reflexivity|]. cbn. intros ->. reflexivity. Qed.

Lemma lstrip_head (s : str) :
  match lstrip U s with [] => True | c :: _ => is_space U c = false end.
Proof.
  induction s as [|c s IH]; [exact I|].
  cbn. destruct (is_space U c) eqn:E; [exact IH | exact E].
Qed.

Lemma strip_head (s : str) :
  match strip U s with [] => True | c :: _ => is_space U c = false end.
Proof.
  destruct (lstrip_suffix (rev (lstrip U s))) as [b Hb].
  assert (lstrip U s = strip U s ++ rev b) as E.
  { unfold strip. rewrite <- rev_app_distr, <- Hb, rev_involutive. reflexivity. }
  pose proof (lstrip_head s) as H. rewrite E in H.
  destruct (strip U s); [exact I | exact H].
Qed.

(** [strip] twice is [strip] once. *)
Lemma strip_strip (s : str) : strip U (strip U s) = strip U s.
Proof.
  unfold strip at 1.
  rewrite (lstrip_fixed (strip U s)) by apply strip_head.
  unfold strip at 1. rewrite rev_involutive.
  rewrite (lstrip_fixed (lstrip U (rev (lstrip U s)))) by apply lstrip_head.
  reflexivity.
Qed.

Lemma absent_strip (pat : list item) (s : str) :
  absent pat s = true -> absent pat (strip U s) = true.
Proof.
  destruct (strip_inside s) as [a [w E]]. intros H. rewrite E in H.
  apply absent_suffix in H. apply absent_prefix in H. exact H.
Qed.

End Strip.

Section Formatter.
Variable U : unicode.
Variable fixes : list (str * str).
Variable labels : list str.

Abbreviation format := (_format_structured_content U fixes labels).
Abbreviation is_plain := (plain U fixes labels).

Lemma plain_absent (text : str) (pat : list item) :
  is_plain text = true -> In pat (patterns U fixes labels) ->
  absent pat text = true.
Proof.
  unfold plain. rewrite forallb_forall. intros H Hin. apply H, Hin.
Qed.

Lemma fold_sub_absent {A} (pat : A -> list item) (repl : A -> list str -> str)
  (l : list A) (text : str) :
  (forall x, In x l -> absent (pat x) text = true) ->
  fold_left (fun t x => sub (pat x) (repl x) t) l text = text.
Proof.
  induction l as [|x l IH]; intros H; [reflexivity|].
  cbn [fold_left]. rewrite sub_absent by (apply H; left; reflexivity).
  apply IH. intros y Hy. apply H. right. exact Hy.
Qed.

Lemma in_patterns (pat : list item) :
  In pat (map (fun fx => literal (fst fx)) fixes)
  \/ pat = literal (lit "```")
  \/ In pat (map (subsection_pat U) (lit "ABCDE"))
  \/ pat = bullet_pat U
  \/ pat = numbered_pat U
  \/ In pat (map (label_pat U) labels)
  \/ pat = [at_least 3 (chr 45%N)]
  \/ pat = [at_least 2 (chr 42%N)]
  \/ pat = [at_least 3 (chr 10%N)] ->
  In pat (patterns U fixes labels).
Proof.
  unfold patterns. rewrite !in_app_iff. cbn [In].
  intros [H|[H|[H|[H|[H|[H|[H|[H|H]]]]]]]]; auto 12.
Qed.

(** On a text without cue and without artifact the formatter only strips
    the leading and trailing whitespace. *)
Lemma format_plain (text : str) :
  is_plain text = true -> format text = strip U text.
Proof.
  intros H.
  assert (forall pat, In pat (patterns U fixes labels) ->
            absent pat text = true) as A
    by (intros pat; apply plain_absent, H).
  unfold _format_structured_content.
  unfold fix_encoding, replace.
  rewrite (fold_sub_absent (fun fx => literal (fst fx)) (fun fx _ => snd fx)).
  2:{ intros fx Hfx. apply A, in_patterns. left.
      apply (in_map (fun fx => literal (fst fx))). exact Hfx. }
  unfold remove_fences.
  rewrite sub_absent by (apply A, in_patterns; auto).
  unfold break_subsections.
  rewrite (fold_sub_absent (subsection_pat U)
             (fun _ segs => group 0 1 segs ++ break ++ group 2 6 segs)).
  2:{ intros x Hx. apply A, in_patterns. right. right. left.
      apply (in_map (subsection_pat U)). exact Hx. }
  unfold break_bullets.
  rewrite sub_absent by (apply A, in_patterns; auto).
  unfold break_numbered.
  rewrite sub_absent by (apply A, in_patterns; auto 6).
  unfold break_labels.
  rewrite (fold_sub_absent (label_pat U)
             (fun _ segs => group 0 1 segs ++ break
                            ++ group 2 (length segs) segs)).
  2:{ intros x Hx. apply A, in_patterns. do 5 right. left.
      apply (in_map (label_pat U)). exact Hx. }
  unfold remove_dashes.
  rewrite sub_absent by (apply A, in_patterns; auto 8).
  unfold remove_bold.
  rewrite sub_absent by (apply A, in_patterns; auto 9).
  unfold collapse_newlines.
  rewrite sub_absent by (apply A, in_patterns; auto 10).
  reflexivity.
Qed.

Lemma plain_strip (text : str) :
  is_plain text = true -> is_plain (strip U text) = true.
Proof.
  unfold plain. rewrite !forallb_forall. intros H pat Hin.
  apply absent_strip, H, Hin.
Qed.

End Formatter.


End FormatFacts.

(** ** More on the pattern engine: what a match is made of *)

Unset Implicit Arguments.

Module SubFacts.
Import Py.

(** An item accepts a piece of text. *)
Definition accepts (it : item) (seg : str) : Prop :=
  Forall (fun c => cls it c = true) seg
  /\ least it <= length seg
  /\ (many it = false -> length seg = least it).

Lemma run_firstn (f : char -> bool) (s : str) : forall k,
  k <= run f s -> Forall (fun c => f c = true) (firstn k s) /\ length (firstn k s) = k.
Proof.
  induction s as [|c s IH]; intros k Hk.
  - cbn in Hk. assert (k = 0) by lia. subst. split; [constructor | reflexivity].
  - destruct k as [|k]; [split; [constructor | reflexivity]|].
    cbn in Hk. destruct (f c) eqn:E; [|lia].
    destruct (IH k ltac:(lia)) as [H1 H2]. cbn. split; [|lia].
    constructor; assumption.
Qed.

Lemma backtrack_some (rest : str -> option (list str * str)) (lo : nat)
  (s : str) (k : nat) (segs : list str) (r : str) :
  backtrack rest lo s k = Some (segs, r) ->
  exists j segs', lo <= j <= k /\ segs = firstn j s :: segs'
                  /\ rest (skipn j s) = Some (segs', r).
Proof.
  induction k as [|k IH]; rewrite PyFacts.backtrack_eq.
  - destruct (Nat.ltb_spec 0 lo); [discriminate|].
    destruct (rest (skipn 0 s)) as [[segs' r']|] eqn:E; [|discriminate].
    intros H'. injection H' as <- <-. exists 0, segs'.
    split; [lia|]. split; [reflexivity | exact E].
  - destruct (Nat.ltb_spec (S k) lo); [discriminate|].
    destruct (rest (skipn (S k) s)) as [[segs' r']|] eqn:E.
    + intros H'. injection H' as <- <-. exists (S k), segs'.
      split; [lia|]. split; [reflexivity | exact E].
    + intros H'. destruct (IH H') as [j [segs' [Hj [Hs Hr]]]].
      exists j, segs'. split; [lia|]. split; assumption.
Qed.

(** The text matched is the concatenation of the item texts, each accepted
    by its item, and the rest is what follows. *)
Lemma match_here_sound (pat : list item) : forall (s : str) segs r,
  match_here pat s = Some (segs, r) ->
  s = concat segs ++ r /\ Forall2 accepts pat segs.
Proof.
  induction pat as [|it pat IH]; intros s segs r H.
  - cbn in H. injection H as <- <-. split; [reflexivity | constructor].
  - cbn [match_here] in H.
    assert (exists j segs', least it <= j <= run (cls it) s
              /\ (many it = false -> j = least it)
              /\ segs = firstn j s :: segs'
              /\ match_here pat (skipn j s) = Some (segs', r)) as X.
    { destruct (many it) eqn:M.
      - destruct (backtrack_some _ _ _ _ _ _ H) as [j [segs' [Hj [Hs Hr]]]].
        exists j, segs'. repeat split; try assumption; try lia; try discriminate.
      - destruct (Nat.ltb_spec (run (cls it) s) (least it)); [discriminate|].
        destruct (backtrack_some _ _ _ _ _ _ H) as [j [segs' [Hj [Hs Hr]]]].
        exists j, segs'. repeat split; try assumption; try lia. }
    destruct X as [j [segs' [Hj [Hm [-> Hr]]]]].
    destruct (IH _ _ _ Hr) as [E F].
    destruct (run_firstn (cls it) s j ltac:(lia)) as [A L].
    split.
    + cbn [concat]. rewrite <- app_assoc, <- E. symmetry. apply firstn_skipn.
    + constructor; [|exact F]. unfold accepts. rewrite L.
      split; [exact A|]. split; [lia | exact Hm].
Qed.

(** A pattern with an item that needs a character. *)
Definition positive (pat : list item) : Prop :=
  Exists (fun it => 1 <= least it) pat.

Lemma positive_consumes (pat : list item) (s : str) segs r :
  positive pat -> match_here pat s = Some (segs, r) ->
  1 <= length (concat segs).
Proof.
  intros P H. destruct (match_here_sound _ _ _ _ H) as [_ F]. clear H.
  induction F as [|it seg pat' segs' A F IH].
  - inversion P.
  - cbn [concat]. rewrite length_app. inversion P as [? ? Hit|? ? Hrest]; subst.
    + destruct A as [_ [A _]]. lia.
    + specialize (IH Hrest). lia.
Qed.

Lemma positive_not_empty (pat : list item) :
  positive pat -> match_here pat [] = None.
Proof.
  intros P. destruct (match_here pat []) as [[segs r]|] eqn:E; [|reflexivity].
  pose proof (positive_consumes _ _ _ _ P E) as H.
  destruct (match_here_sound _ _ _ _ E) as [E' _].
  destruct (concat segs); [cbn in H; lia | discriminate].
Qed.

Lemma sub_from_skip (pat : list item) (repl : list str -> str) (s : str) :
  forall k, k <= length s ->
  sub_from pat repl k s = sub_from pat repl 0 (skipn k s).
Proof.
  induction s as [|c s IH]; intros k Hk.
  - cbn in Hk. assert (k = 0) by lia. subst. reflexivity.
  - destruct k as [|k]; [reflexivity|]. cbn [sub_from skipn].
    apply IH. cbn in Hk. lia.
Qed.

(** The equations of [re.sub] for a pattern that needs a character. *)
Lemma sub_nil (pat : list item) (repl : list str -> str) :
  positive pat -> sub pat repl [] = [].
Proof. intros P. unfold sub. cbn. rewrite (positive_not_empty _ P). reflexivity. Qed.

Lemma sub_copy (pat : list item) (repl : list str -> str) (c : char) (s : str) :
  match_here pat (c :: s) = None ->
  sub pat repl (c :: s) = c :: sub pat repl s.
Proof. intros H. unfold sub. cbn [sub_from]. rewrite H. reflexivity. Qed.

Lemma sub_match (pat : list item) (repl : list str -> str) (c : char) (s : str)
  segs r :
  positive pat -> match_here pat (c :: s) = Some (segs, r) ->
  sub pat repl (c :: s) = repl segs ++ sub pat repl r
  /\ length r <= length s.
Proof.
  intros P H. pose proof (positive_consumes _ _ _ _ P H) as Hn.
  destruct (match_here_sound _ _ _ _ H) as [E _].
  assert (length (c :: s) = length (concat segs) + length r) as L
    by (rewrite E at 1; apply length_app).
  unfold sub. cbn [sub_from]. rewrite H.
  replace (length (c :: s) - length r) with (length (concat segs)) by lia.
  destruct (length (concat segs)) as [|k] eqn:K; [lia|].
  split; [|cbn [length] in L; lia].
  f_equal. rewrite sub_from_skip by (cbn [length] in L; lia). f_equal.
  change (skipn k s) with (skipn (S k) (c :: s)).
  rewrite E, <- K, skipn_app, Nat.sub_diag, skipn_all. reflexivity.
Qed.

(** Reasoning on the output of [re.sub] along the scan. *)
Lemma sub_scan (pat : list item) (repl : list str -> str)
  (P : str -> str -> Prop) :
  positive pat ->
  P [] [] ->
  (forall c s o, match_here pat (c :: s) = None -> P s o -> P (c :: s) (c :: o)) ->
  (forall c s segs r o,
     match_here pat (c :: s) = Some (segs, r) -> c :: s = concat segs ++ r ->
     Forall2 accepts pat segs -> P r o -> P (c :: s) (repl segs ++ o)) ->
  forall s, P s (sub pat repl s).
Proof.
  intros Pos H0 Hc Hm s.
  assert (forall n (t : str), length t <= n -> P t (sub pat repl t)) as X.
  { induction n as [|n IH]; intros t Ht.
    - destruct t; [|cbn in Ht; lia]. rewrite sub_nil by exact Pos. exact H0.
    - destruct t as [|c t]; [rewrite sub_nil by exact Pos; exact H0|].
      destruct (match_here pat (c :: t)) as [[segs r]|] eqn:E.
      + destruct (sub_match _ repl _ _ _ _ Pos E) as [-> L].
        destruct (match_here_sound _ _ _ _ E) as [E' F].
        apply (Hm c t segs r); try assumption.
        apply IH. cbn in Ht. lia.
      + rewrite (sub_copy _ repl _ _ E). apply Hc; [exact E|].
        apply IH. cbn in Ht. lia. }
  apply (X (length s)). lia.
Qed.

End SubFacts.

(** ** The cue steps of the formatter keep the words *)

Module CueFacts.
Import Py Llm.

Section Words.
Variable U : unicode.

(** The text without its whitespace. *)
Definition words (s : str) : str := filter (not_space U) s.

Lemma words_app (a b : str) : words (a ++ b) = words a ++ words b.
Proof. apply filter_app. Qed.

Lemma words_space (g : str) :
  Forall (fun c => is_space U c = true) g -> words g = [].
Proof.
  induction 1 as [|c g Hc Hg IH]; [reflexivity|].
  cbn. unfold not_space. rewrite Hc. exact IH.
Qed.

Lemma words_break : words break = [].
Proof. reflexivity. Qed.

(** A substitution whose replacements keep the words of what they replace
    keeps the words of the text. *)
Lemma sub_keeps_words (pat : list item) (repl : list str -> str) :
  SubFacts.positive pat ->
  (forall segs, Forall2 SubFacts.accepts pat segs ->
                words (repl segs) = words (concat segs)) ->
  forall s, words (sub pat repl s) = words s.
Proof.
  intros Pos R.
  apply (SubFacts.sub_scan pat repl (fun s o => words o = words s) Pos).
  - reflexivity.
  - intros c s o _ H. unfold words in *. cbn [filter]. rewrite H. reflexivity.
  - intros c s segs r o _ E F H.
    rewrite E, !words_app, (R segs F), H. reflexivity.
Qed.

Lemma accepts_space (it : item) (seg : str) :
  SubFacts.accepts it seg -> cls it = is_space U ->
  Forall (fun c => is_space U c = true) seg.
Proof. intros [A _] E. rewrite E in A. exact A. Qed.

Lemma accepts_one_chr (c : char) (seg : str) :
  SubFacts.accepts (one (chr c)) seg -> seg = [c].
Proof.
  intros [A [L1 L2]]. cbn in L1, L2. specialize (L2 eq_refl).
  destruct seg as [|x [|y seg]]; cbn in L2; try discriminate.
  inversion A as [|? ? Hx _]; subst. cbn in Hx. unfold chr in Hx.
  apply N.eqb_eq in Hx. subst. reflexivity.
Qed.

Lemma accepts_literal (l : str) : forall segs,
  Forall2 SubFacts.accepts (literal l) segs -> concat segs = l.
Proof.
  induction l as [|c l IH]; intros segs F; inversion F; subst; [reflexivity|].
  cbn [concat]. rewrite (accepts_one_chr c _ ltac:(eassumption)).
  cbn. f_equal. apply IH. assumption.
Qed.

Lemma first_item_positive (f : char -> bool) (pat : list item) :
  SubFacts.positive (one f :: pat).
Proof. constructor. cbn. lia. Qed.

Lemma subsections_words (s : str) :
  words (break_subsections U s) = words s.
Proof.
  unfold break_subsections. generalize (lit "ABCDE") as letters.
  intros letters. revert s.
  induction letters as [|l letters IH]; intros s; [reflexivity|].
  cbn [fold_left]. rewrite IH. apply sub_keeps_words.
  - apply first_item_positive.
  - intros segs F. unfold subsection_pat in F.
    inversion F as [|? a ? segs1 Ha F1]; subst.
    inversion F1 as [|? g ? segs2 Hg F2]; subst.
    inversion F2 as [|? x ? segs3 Hx F3]; subst.
    inversion F3 as [|? d ? segs4 Hd F4]; subst.
    inversion F4 as [|? h ? segs5 Hh F5]; subst.
    inversion F5 as [|? b ? segs6 Hb F6]; subst.
    inversion F6; subst.
    cbn [group skipn firstn concat Nat.sub].
    rewrite !words_app, words_break.
    rewrite (words_space g) by (apply (accepts_space _ _ Hg); reflexivity).
    change (words []) with (@nil char). cbn [app]. rewrite ?app_nil_r.
    reflexivity.
Qed.

Lemma bullets_words (s : str) : words (break_bullets U s) = words s.
Proof.
  unfold break_bullets. apply sub_keeps_words.
  - apply first_item_positive.
  - intros segs F. unfold bullet_pat in F.
    inversion F as [|? a ? segs1 Ha F1]; subst.
    inversion F1 as [|? g ? segs2 Hg F2]; subst.
    inversion F2 as [|? x ? segs3 Hx F3]; subst.
    inversion F3 as [|? h ? segs4 Hh F4]; subst.
    inversion F4; subst.
    apply accepts_one_chr in Hx. subst x.
    cbn [group skipn firstn concat Nat.sub].
    rewrite !words_app, words_break.
    rewrite (words_space g) by (apply (accepts_space _ _ Hg); reflexivity).
    rewrite (words_space h) by (apply (accepts_space _ _ Hh); reflexivity).
    change (words []) with (@nil char). cbn [app]. rewrite ?app_nil_r.
    unfold words. cbn [filter]. destruct (not_space U bullet); reflexivity.
Qed.

Lemma numbered_words (s : str) : words (break_numbered U s) = words s.
Proof.
  unfold break_numbered. apply sub_keeps_words.
  - apply first_item_positive.
  - intros segs F. unfold numbered_pat in F.
    inversion F as [|? a ? segs1 Ha F1]; subst.
    inversion F1 as [|? g ? segs2 Hg F2]; subst.
    inversion F2 as [|? ds ? segs3 Hds F3]; subst.
    inversion F3 as [|? d ? segs4 Hd F4]; subst.
    inversion F4 as [|? h ? segs5 Hh F5]; subst.
    inversion F5; subst.
    apply accepts_one_chr in Hd. subst d.
    cbn [group skipn firstn concat Nat.sub].
    rewrite !words_app, words_break.
    rewrite (words_space g) by (apply (accepts_space _ _ Hg); reflexivity).
    rewrite (words_space h) by (apply (accepts_space _ _ Hh); reflexivity).
    change (words []) with (@nil char). cbn [app]. rewrite ?app_nil_r.
    reflexivity.
Qed.

Lemma labels_words (labels : list str) : forall s : str,
  words (break_labels U labels s) = words s.
Proof.
  unfold break_labels.
  induction labels as [|l labels IH]; intros s; [reflexivity|].
  cbn [fold_left]. rewrite IH. apply sub_keeps_words.
  - apply first_item_positive.
  - intros segs F. unfold label_pat in F. cbn [app] in F.
    inversion F as [|? a ? segs1 Ha F1]; subst.
    inversion F1 as [|? g ? segs2 Hg F2]; subst.
    unfold group. cbn [length skipn firstn Nat.sub concat].
    rewrite Nat.sub_0_r, firstn_all, app_nil_r.
    rewrite !words_app, words_break.
    rewrite (words_space g) by (apply (accepts_space _ _ Hg); reflexivity).
    change (words []) with (@nil char). cbn [app]. rewrite ?app_nil_r.
    reflexivity.
Qed.

End Words.

(** X1: the four cue steps (subsections, bullets, numbered lists, labels)
    only touch whitespace: the text without its whitespace is the same
    before and after them, whatever the labels. *)
Theorem cue_steps_keep_the_words (U : unicode) (labels : list str) (text : str) :
  filter (not_space U)
    (break_labels U labels
       (break_numbered U (break_bullets U (break_subsections U text))))
  = filter (not_space U) text.
Proof.
  fold (words U text).
  fold (words U (break_labels U labels
                   (break_numbered U (break_bullets U
                      (break_subsections U text))))).
  rewrite labels_words, numbered_words, bullets_words, subsections_words.
  reflexivity.
Qed.

End CueFacts.

(** ** What the output of the formatter never contains *)

Module OutputFacts.
Import Py Llm.

(** Every run of [f]-characters in [s] is shorter than [n]. *)
Fixpoint runs_below (f : char -> bool) (n : nat) (s : str) : bool :=
  Nat.ltb (run f s) n
  && match s with
     | [] => true
     | _ :: s' => runs_below f n s'
     end.

Lemma runs_below_cons (f : char -> bool) (n : nat) (c : char) (s : str) :
  runs_below f n (c :: s) = Nat.ltb (run f (c :: s)) n && runs_below f n s.
Proof. reflexivity. Qed.

Lemma runs_below_here (f : char -> bool) (n : nat) (s : str) :
  runs_below f n s = true -> run f s < n.
Proof.
  destruct s; cbn [runs_below]; intros H; apply andb_true_iff in H;
    destruct H as [H _]; apply Nat.ltb_lt; exact H.
Qed.

Lemma runs_below_suffix (f : char -> bool) (n : nat) (a s : str) :
  runs_below f n (a ++ s) = true -> runs_below f n s = true.
Proof.
  induction a as [|c a IH]; intros H; [exact H|].
  cbn [app] in H. rewrite runs_below_cons in H.
  apply andb_true_iff in H. apply IH, H.
Qed.

Lemma runs_below_prefix (f : char -> bool) (n : nat) (s w : str) :
  runs_below f n (s ++ w) = true -> runs_below f n s = true.
Proof.
  induction s as [|c s IH]; intros H.
  - apply runs_below_here in H. cbn [app] in H.
    cbn [runs_below run]. apply andb_true_iff.
    split; [apply Nat.ltb_lt; lia | reflexivity].
  - pose proof (runs_below_here _ _ _ H) as H1.
    cbn [app] in H. rewrite runs_below_cons in H.
    apply andb_true_iff in H. destruct H as [_ H2].
    rewrite runs_below_cons. apply andb_true_iff. split; [|apply IH, H2].
    apply Nat.ltb_lt.
    pose proof (FormatFacts.run_app_ge f (c :: s) w). lia.
Qed.

Lemma run_all (f : char -> bool) (r o : str) :
  Forall (fun c => f c = true) r -> run f (r ++ o) = length r + run f o.
Proof.
  induction 1 as [|c r Hc Hr IH]; [reflexivity|].
  cbn. rewrite Hc, IH. reflexivity.
Qed.

(** No piece of [n] characters of the class, anywhere. *)
Lemma runs_below_nowhere (f : char -> bool) (n : nat) (s : str) :
  runs_below f n s = true ->
  forall a seg b, s = a ++ seg ++ b ->
                  Forall (fun c => f c = true) seg -> length seg < n.
Proof.
  intros H a seg b E A. rewrite E in H.
  apply runs_below_suffix in H. apply runs_below_here in H.
  rewrite run_all in H by exact A. lia.
Qed.

Lemma match_at_least (n : nat) (f : char -> bool) (s : str) :
  match_here [at_least n f] s =
    if Nat.ltb (run f s) n then None
    else Some ([firstn (run f s) s], skipn (run f s) s).
Proof.
  cbn [match_here at_least many cls least].
  rewrite PyFacts.backtrack_eq.
  destruct (Nat.ltb_spec (run f s) n); reflexivity.
Qed.

Lemma run_after_run (f : char -> bool) (s : str) :
  run f (skipn (run f s) s) = 0.
Proof.
  induction s as [|c s IH]; [reflexivity|].
  cbn [run]. destruct (f c) eqn:E; cbn [skipn run]; [exact IH|].
  rewrite E. reflexivity.
Qed.

Lemma runs_below_all (f : char -> bool) (n : nat) (r o : str) :
  Forall (fun c => f c = true) r -> length r + run f o < n ->
  runs_below f n o = true -> runs_below f n (r ++ o) = true.
Proof.
  induction 1 as [|c r Hc Hr IH]; intros L H; [exact H|].
  cbn [app]. rewrite runs_below_cons. apply andb_true_iff. split.
  - apply Nat.ltb_lt. change (c :: r ++ o) with ((c :: r) ++ o).
    rewrite run_all by (constructor; assumption). exact L.
  - apply IH; [cbn [length] in L; lia | exact H].
Qed.

Lemma runs_below_none (g : char -> bool) (m : nat) (r o : str) :
  1 <= m -> Forall (fun c => g c = false) r ->
  runs_below g m o = true -> runs_below g m (r ++ o) = true.
Proof.
  intros Hm. induction 1 as [|c r Hc Hr IH]; intros H; [exact H|].
  cbn [app]. rewrite runs_below_cons. apply andb_true_iff. split.
  - apply Nat.ltb_lt. cbn [run]. rewrite Hc. lia.
  - apply IH, H.
Qed.

(** Replacing the runs of [n] or more [f]-characters by fewer than [n] of
    them leaves no run of [n]. *)
Lemma sub_at_least_runs (f : char -> bool) (n : nat) (r : str) :
  1 <= n -> Forall (fun c => f c = true) r -> length r < n ->
  forall s, run f (sub [at_least n f] (fun _ => r) s) <= run f s
            /\ runs_below f n (sub [at_least n f] (fun _ => r) s) = true.
Proof.
  intros Hn Hr Lr.
  apply (SubFacts.sub_scan [at_least n f] (fun _ => r)
           (fun s o => run f o <= run f s /\ runs_below f n o = true)).
  - constructor. cbn. exact Hn.
  - split; [lia|]. cbn [runs_below run]. apply andb_true_iff.
    split; [apply Nat.ltb_lt; lia | reflexivity].
  - intros c s o M [H1 H2]. rewrite match_at_least in M.
    destruct (Nat.ltb_spec (run f (c :: s)) n) as [L|L]; [|discriminate].
    assert (run f (c :: o) <= run f (c :: s)) as H3
      by (cbn [run]; destruct (f c); lia).
    split; [exact H3|]. rewrite runs_below_cons. apply andb_true_iff.
    split; [apply Nat.ltb_lt; lia | exact H2].
  - intros c s segs rest o M _ _ [H1 H2]. rewrite match_at_least in M.
    destruct (Nat.ltb_spec (run f (c :: s)) n) as [L|L]; [discriminate|].
    assert (rest = skipn (run f (c :: s)) (c :: s)) as ->
      by (inversion M; reflexivity).
    rewrite run_after_run in H1.
    split.
    + rewrite run_all by exact Hr. lia.
    + apply runs_below_all; [exact Hr | lia | exact H2].
Qed.

(** Replacing runs of [f]-characters by a non-empty text without
    [g]-characters makes no run of [g]-characters longer. *)
Lemma sub_at_least_other (f g : char -> bool) (n m : nat) (r : str) :
  1 <= n -> 1 <= m -> r <> [] -> Forall (fun c => g c = false) r ->
  forall s, run g (sub [at_least n f] (fun _ => r) s) <= run g s
            /\ (runs_below g m s = true ->
                runs_below g m (sub [at_least n f] (fun _ => r) s) = true).
Proof.
  intros Hn Hm Hne Hr.
  apply (SubFacts.sub_scan [at_least n f] (fun _ => r)
           (fun s o => run g o <= run g s
                       /\ (runs_below g m s = true -> runs_below g m o = true))).
  - constructor. cbn. exact Hn.
  - split; [lia | auto].
  - intros c s o _ [H1 H2].
    assert (run g (c :: o) <= run g (c :: s)) as H3
      by (cbn [run]; destruct (g c); lia).
    split; [exact H3|]. intros H. pose proof (runs_below_here _ _ _ H) as H4.
    rewrite runs_below_cons in H. apply andb_true_iff in H.
    rewrite runs_below_cons. apply andb_true_iff.
    split; [apply Nat.ltb_lt; lia | apply H2, H].
  - intros c s segs rest o _ E _ [H1 H2].
    assert (run g (r ++ o) = 0) as Z.
    { destruct r as [|x r]; [congruence|]. inversion Hr; subst.
      cbn [app run]. rewrite H3. reflexivity. }
    split; [lia|]. intros H. rewrite E in H.
    apply runs_below_suffix in H.
    apply runs_below_none; [exact Hm | exact Hr | apply H2, H].
Qed.

Lemma runs_below_strip (U : unicode) (f : char -> bool) (n : nat) (s : str) :
  runs_below f n s = true -> runs_below f n (strip U s) = true.
Proof.
  destruct (FormatFacts.strip_inside U s) as [a [w E]]. intros H.
  rewrite E in H. apply runs_below_suffix in H.
  apply runs_below_prefix in H. exact H.
Qed.

Lemma strip_last (U : unicode) (s : str) :
  match rev (strip U s) with [] => True | c :: _ => is_space U c = false end.
Proof.
  unfold strip. rewrite rev_involutive. apply FormatFacts.lstrip_head.
Qed.

(** X2: whatever the text and the tables, the output of the formatter
    neither starts nor ends with whitespace, has no three newlines in a
    row and no two asterisks in a row. *)
Theorem format_output_is_trimmed_and_collapsed
  (U : unicode) (fixes : list (str * str)) (labels : list str) (text : str) :
  let out := _format_structured_content U fixes labels text in
  match out with [] => True | c :: _ => is_space U c = false end
  /\ match rev out with [] => True | c :: _ => is_space U c = false end
  /\ (forall a b : str, out <> a ++ [10; 10; 10]%N ++ b)
  /\ (forall a b : str, out <> a ++ [42; 42]%N ++ b).
Proof.
  cbv zeta. unfold _format_structured_content.
  set (t := remove_dashes _).
  split; [apply FormatFacts.strip_head|]. split; [apply strip_last|].
  assert (runs_below (chr 42%N) 2 (remove_bold t) = true) as B.
  { unfold remove_bold.
    apply (sub_at_least_runs (chr 42%N) 2 []); [lia | constructor | cbn; lia]. }
  assert (runs_below (chr 10%N) 3 (collapse_newlines (remove_bold t)) = true)
    as N3.
  { unfold collapse_newlines.
    apply (sub_at_least_runs (chr 10%N) 3 break);
      [lia | repeat constructor | cbn; lia]. }
  assert (runs_below (chr 42%N) 2 (collapse_newlines (remove_bold t)) = true)
    as B2.
  { unfold collapse_newlines.
    apply (sub_at_least_other (chr 10%N) (chr 42%N) 3 2 break);
      [lia | lia | discriminate | repeat constructor | exact B]. }
  split; intros a b E.
  - pose proof (runs_below_nowhere _ _ _ (runs_below_strip U _ _ _ N3)
                  a [10; 10; 10]%N b E ltac:(repeat constructor)) as H.
    cbn in H. lia.
  - pose proof (runs_below_nowhere _ _ _ (runs_below_strip U _ _ _ B2)
                  a [42; 42]%N b E ltac:(repeat constructor)) as H.
    cbn in H. lia.
Qed.

End OutputFacts.

(** ** generatePaper: the validation of the form and the failure paths *)

Module FormFacts.
Import Main PaperGeneration.

Lemma trim_start_suffix (s : Js.str) : exists a, s = a ++ Js.trim_start s.
Proof.
  induction s as [|c s [a IH]]; [exists []; reflexivity|].
  cbn. destruct (Js.is_trim_space c).
  - exists (c :: a). cbn. f_equal. exact IH.
  - exists []. reflexivity.
Qed.

Lemma trim_start_head (s : Js.str) :
  match Js.trim_start s with
  | [] => True
  | c :: _ => Js.is_trim_space c = false
  end.
Proof.
  induction s as [|c s IH]; [exact I|].
  cbn. destruct (Js.is_trim_space c) eqn:E; [exact IH | exact E].
Qed.

Lemma trim_start_fixed (s : Js.str) :
  match s with [] => True | c :: _ => Js.is_trim_space c = false end ->
  Js.trim_start s = s.
Proof. destruct s as [|c s]; [reflexivity|]. cbn. intros ->. reflexivity. Qed.

Lemma trim_start_blank (s : Js.str) :
  Forall (fun c => Js.is_trim_space c = true) s -> Js.trim_start s = [].
Proof. induction 1 as [|c s Hc Hs IH]; [reflexivity|]. cbn. rewrite Hc. exact IH. Qed.

Lemma trim_blank (s : Js.str) :
  Forall (fun c => Js.is_trim_space c = true) s -> Js.trim s = [].
Proof. intros H. unfold Js.trim. rewrite (trim_start_blank s H). reflexivity. Qed.

Lemma trim_head (s : Js.str) :
  match Js.trim s with [] => True | c :: _ => Js.is_trim_space c = false end.
Proof.
  destruct (trim_start_suffix (rev (Js.trim_start s))) as [b Hb].
  assert (Js.trim_start s = Js.trim s ++ rev b) as E.
  { unfold Js.trim. rewrite <- rev_app_distr, <- Hb, rev_involutive. reflexivity. }
  pose proof (trim_start_head s) as H. rewrite E in H.
  destruct (Js.trim s); [exact I | exact H].
Qed.

Lemma trim_last (s : Js.str) :
  match rev (Js.trim s) with
  | [] => True
  | c :: _ => Js.is_trim_space c = false
  end.
Proof. unfold Js.trim. rewrite rev_involutive. apply trim_start_head. Qed.

(** Trimming a trimmed string changes nothing. *)
Lemma trim_trim (s : Js.str) : Js.trim (Js.trim s) = Js.trim s.
Proof.
  unfold Js.trim at 1.
  rewrite (trim_start_fixed (Js.trim s)) by apply trim_head.
  unfold Js.trim at 1. rewrite rev_involutive.
  rewrite (trim_start_fixed (Js.trim_start (rev (Js.trim_start s))))
    by apply trim_start_head.
  reflexivity.
Qed.

Lemma collect_authors_spec (es : list author_entry) (a : author) :
  In a (collect_authors es) <->
  exists e, In e es
            /\ a = {| name := Js.trim (author_name e);
                      email := Js.trim (author_email e);
                      affiliation := Js.trim (author_affiliation e) |}
            /\ Js.trim (author_name e) <> []
            /\ Js.trim (author_email e) <> []
            /\ Js.trim (author_affiliation e) <> [].
Proof.
  unfold collect_authors. rewrite in_flat_map. split.
  - intros [e [He Ha]]. exists e. split; [exact He|].
    destruct (Js.trim (author_name e)) as [|x n]; [cbn in Ha; contradiction|].
    destruct (Js.trim (author_email e)) as [|y m]; [cbn in Ha; contradiction|].
    destruct (Js.trim (author_affiliation e)) as [|z f]; [cbn in Ha; contradiction|].
    cbn in Ha. destruct Ha as [<-|[]]. repeat split; discriminate.
  - intros [e [He [-> [Hn [Hm Hf]]]]]. exists e. split; [exact He|].
    destruct (Js.trim (author_name e)) as [|x n]; [congruence|].
    destruct (Js.trim (author_email e)) as [|y m]; [congruence|].
    destruct (Js.trim (author_affiliation e)) as [|z f]; [congruence|].
    cbn. left. reflexivity.
Qed.

(** The form passes the three checks of [generatePaper]. *)
Definition accepted (f : form) : bool :=
  Js.truthy (Js.trim (paperTitle_value f))
  && negb (Nat.ltb (length (Js.trim (paperTitle_value f))) 10)
  && negb (Nat.eqb (length (collect_authors (author_entries f))) 0).

Definition request_of (f : form) : request :=
  {| url := Js.lit "/api/generate-paper-stream";
     req_body := {| topic := Js.trim (paperTitle_value f);
                    p_authors := collect_authors (author_entries f);
                    use_rag := useRAG f;
                    user_data := userExperimentalData f |} |}.

(** One request when the form is accepted, none otherwise. *)
Lemma generatePaper_requests
  (parse : Js.str -> exn + event) (f : form) (net : response) (p : page) :
  requests (generatePaper parse f net p)
  = requests p ++ (if accepted f then [request_of f] else []).
Proof.
  unfold generatePaper, accepted.
  destruct (Js.truthy (Js.trim (paperTitle_value f))); cbn [negb andb];
    [|cbn; rewrite app_nil_r; reflexivity].
  destruct (Nat.ltb (length (Js.trim (paperTitle_value f))) 10);
    cbn [negb andb]; [cbn; rewrite app_nil_r; reflexivity|].
  destruct (Nat.eqb (length (collect_authors (author_entries f))) 0);
    cbn [negb]; [cbn; rewrite app_nil_r; reflexivity|].
  destruct net as [e | chunks [|e]]; cbn;
    try rewrite ValidationFacts.read_loop_requests; reflexivity.
Qed.

(** X3: a topic made of whitespace only is rejected as a missing topic; a
    valid topic with no author entry whose three fields are all non-blank
    is rejected too, without any request; and every author put in a request
    has three non-empty fields, each the trimmed value of the entry. *)
Theorem form_validation_of_generatePaper
  (parse : Js.str -> exn + event) (f : form) (net : response) (p : page) :
  (Forall (fun c => Js.is_trim_space c = true) (paperTitle_value f) ->
     generatePaper parse f net p
     = showNotification (Js.lit "Please enter a paper topic") error p)
  /\ (10 <= length (Js.trim (paperTitle_value f)) ->
      (forall e, In e (author_entries f) ->
                 Js.trim (author_name e) = []
                 \/ Js.trim (author_email e) = []
                 \/ Js.trim (author_affiliation e) = []) ->
      generatePaper parse f net p
      = showNotification
          (Js.lit "Please add at least one author with complete details")
          error p)
  /\ (forall r a,
        In r (requests (generatePaper parse f net p)) ->
        ~ In r (requests p) ->
        In a (p_authors (req_body r)) ->
        name a <> [] /\ email a <> [] /\ affiliation a <> []
        /\ exists e, In e (author_entries f)
                     /\ name a = Js.trim (author_name e)
                     /\ email a = Js.trim (author_email e)
                     /\ affiliation a = Js.trim (author_affiliation e)).
Proof.
  split; [|split].
  - intros H. unfold generatePaper. rewrite (trim_blank _ H). reflexivity.
  - intros H Hall. unfold generatePaper.
    destruct (@ValidationFacts.long_cases _ H) as [T Ge]. rewrite T, Ge.
    cbn [negb].
    destruct (collect_authors (author_entries f)) as [|a l] eqn:Ea;
      [reflexivity|].
    exfalso.
    assert (In a (collect_authors (author_entries f))) as Ha
      by (rewrite Ea; left; reflexivity).
    apply collect_authors_spec in Ha.
    destruct Ha as [e [He [_ [Hn [Hm Hf]]]]].
    destruct (Hall e He) as [X|[X|X]]; congruence.
  - intros r a Hr Hnew Ha. rewrite generatePaper_requests in Hr.
    apply in_app_or in Hr. destruct Hr as [Hr|Hr]; [contradiction|].
    destruct (accepted f); [|contradiction].
    destruct Hr as [<-|[]]. cbn in Ha.
    apply collect_authors_spec in Ha.
    destruct Ha as [e [He [-> [Hn [Hm Hf]]]]]. cbn.
    repeat split; try assumption. exists e. repeat split. exact He.
Qed.

Lemma form_validation_of_generatePaper_witness :
  let blank := {| paperTitle_value := Js.lit "   ";
                  useRAG := true; hasUserData := false;
                  author_entries := []; methodology_value := [];
                  results_value := [] |} in
  Forall (fun c => Js.is_trim_space c = true) (paperTitle_value blank)
  /\ generatePaper Samples.parse blank (Body [] Done) Samples.blank_page
     = showNotification (Js.lit "Please enter a paper topic") error
         Samples.blank_page.
Proof.
  cbv zeta.
  assert (Forall (fun c => Js.is_trim_space c = true) (Js.lit "   ")) as H
    by (repeat constructor).
  split; [exact H|].
  exact (proj1 (form_validation_of_generatePaper Samples.parse
                  {| paperTitle_value := Js.lit "   ";
                     useRAG := true; hasUserData := false;
                     author_entries := []; methodology_value := [];
                     results_value := [] |}
                  (Body [] Done) Samples.blank_page) H).
Defined.

End FormFacts.

(** ** generatePaper: what a run displays, notifies and keeps *)

Module RunFacts.
Import Main PaperGeneration PaperDownload.

(** The events that the payloads of a decoded stream parse to. *)
Definition events_of (parse : Js.str -> exn + event) (text : Js.str)
  : list event :=
  flat_map (fun t => match parse t with inr e => [e] | inl _ => [] end)
    (payloads text).

(** The papers of the [complete] events that carry one. *)
Definition completed (evs : list event) : list paper :=
  flat_map
    (fun e =>
       match status e, paper_of e with
       | Some s, Some d => if Js.str_eqb s (Js.lit "complete") then [d] else []
       | _, _ => []
       end)
    evs.

Section Projection.
Variable A : Type.
Variable proj : page -> A.
Variable upd : A -> event -> A.
Hypothesis proj_console : forall e p, proj (console_error e p) = proj p.
Hypothesis proj_event : forall p e, proj (on_event p e) = upd (proj p) e.

Lemma fold_payloads_proj (parse : Js.str -> exn + event) (l : list Js.str) :
  forall p,
  proj (fold_left (on_payload parse) l p)
  = fold_left upd
      (flat_map (fun t => match parse t with inr e => [e] | inl _ => [] end) l)
      (proj p).
Proof.
  induction l as [|t l IH]; intros p; [reflexivity|].
  cbn [fold_left flat_map]. rewrite IH, fold_left_app. unfold on_payload.
  destruct (parse t) as [e|e]; cbn [fold_left].
  - rewrite proj_console. reflexivity.
  - rewrite proj_event. reflexivity.
Qed.

Lemma read_loop_proj (parse : Js.str -> exn + event)
  (chunks : list (list Byte.byte)) (p : page) :
  proj (pg (read_loop parse chunks p))
  = fold_left upd
      (events_of parse (snd (Utf8.decode Utf8.init (concat chunks))))
      (proj p).
Proof.
  rewrite StreamFacts.read_loop_after. unfold StreamFacts.after. cbn [pg].
  rewrite StreamFacts.fold_on_line. apply fold_payloads_proj.
Qed.

End Projection.

Lemma on_event_currentPaper (p : page) (e : event) :
  currentPaper (on_event p e)
  = match status e with
    | Some s => if Js.str_eqb s (Js.lit "complete") then paper_of e
                else currentPaper p
    | None => currentPaper p
    end.
Proof.
  unfold on_event, handle. destruct (status e) as [s|]; [|reflexivity].
  repeat match goal with
  | |- context [Js.str_eqb s ?k] => destruct (Js.str_eqb s k) eqn:?
  end; try reflexivity;
  try match goal with
  | H1 : Js.str_eqb s ?a = true, H2 : Js.str_eqb s ?b = true |- _ =>
      apply JsFacts.str_eqb_eq in H1, H2; rewrite H1 in H2; discriminate
  end.
  - destruct (section e) as [sec|]; [|reflexivity].
    destruct (Js.get sectionMap sec); reflexivity.
  - destruct (paper_of e); reflexivity.
Qed.

Lemma on_event_displays (p : page) (e : event) :
  displays (on_event p e) = displays p ++ completed [e]
  /\ alerts (on_event p e)
     = alerts p ++ map (fun _ => (success_message, success)) (completed [e]).
Proof.
  unfold completed. cbn [flat_map]. rewrite app_nil_r.
  unfold on_event, handle. destruct (status e) as [s|];
    [|cbn; rewrite !app_nil_r; split; reflexivity].
  repeat match goal with
  | |- context [Js.str_eqb s ?k] => destruct (Js.str_eqb s k) eqn:?
  end;
  try match goal with
  | H1 : Js.str_eqb s ?a = true, H2 : Js.str_eqb s ?b = true |- _ =>
      apply JsFacts.str_eqb_eq in H1, H2; rewrite H1 in H2; discriminate
  end;
  try (destruct (paper_of e); cbn; rewrite ?app_nil_r; split; reflexivity).
  destruct (section e) as [sec|]; [destruct (Js.get sectionMap sec)|];
    destruct (paper_of e); cbn; rewrite ?app_nil_r; split; reflexivity.
Qed.

Lemma completed_cons (e : event) (evs : list event) :
  completed (e :: evs) = completed [e] ++ completed evs.
Proof. unfold completed. cbn [flat_map]. rewrite app_nil_r. reflexivity. Qed.

Lemma fold_completed (evs : list event) : forall l : list paper,
  fold_left (fun acc e => acc ++ completed [e]) evs l = l ++ completed evs.
Proof.
  induction evs as [|e evs IH]; intros l; [cbn; rewrite app_nil_r; reflexivity|].
  cbn [fold_left]. rewrite IH, <- app_assoc, <- completed_cons. reflexivity.
Qed.

Lemma fold_notified (evs : list event) : forall l : list (Js.str * ntype),
  fold_left
    (fun acc e => acc ++ map (fun _ => (success_message, success)) (completed [e]))
    evs l
  = l ++ map (fun _ => (success_message, success)) (completed evs).
Proof.
  induction evs as [|e evs IH]; intros l; [cbn; rewrite app_nil_r; reflexivity|].
  cbn [fold_left]. rewrite IH, <- app_assoc, <- map_app, <- completed_cons.
  reflexivity.
Qed.

(** X4: when the form is accepted and the response body is read to its
    end, the papers displayed by the run are exactly the papers of the
    [complete] events of the stream, in order, each with one success
    notification; no other event, [error] events included, displays or
    notifies anything; and [currentPaper] ends as the paper of the last
    [complete] event, or as it was when the stream has none. *)
Theorem run_displays_the_completed_papers
  (parse : Js.str -> exn + event) (f : form)
  (chunks : list (list Byte.byte)) (p : page) :
  FormFacts.accepted f = true ->
  let evs := events_of parse (snd (Utf8.decode Utf8.init (concat chunks))) in
  let q := generatePaper parse f (Body chunks Done) p in
  displays q = displays p ++ completed evs
  /\ alerts q
     = alerts p ++ map (fun _ => (success_message, success)) (completed evs)
  /\ currentPaper q = last_completed evs (currentPaper p)
  /\ loading_hidden q = true /\ progress_hidden q = true.
Proof.
  intros Acc. cbv zeta. unfold generatePaper.
  unfold FormFacts.accepted in Acc.
  apply andb_true_iff in Acc. destruct Acc as [Acc A3].
  apply andb_true_iff in Acc. destruct Acc as [A1 A2].
  rewrite A1. apply negb_true_iff in A2, A3. rewrite A2, A3. cbn [negb].
  set (p1 := fetch _ (ui_setup p)).
  split; [|split; [|split; [|split; reflexivity]]].
  - change (displays (finally (pg (read_loop parse chunks p1))))
      with (displays (pg (read_loop parse chunks p1))).
    rewrite (read_loop_proj (list paper) displays
               (fun acc e => acc ++ completed [e]));
      [apply fold_completed | reflexivity | intros; apply on_event_displays].
  - change (alerts (finally (pg (read_loop parse chunks p1))))
      with (alerts (pg (read_loop parse chunks p1))).
    rewrite (read_loop_proj (list (Js.str * ntype)) alerts
               (fun acc e => acc ++ map (fun _ => (success_message, success))
                                      (completed [e])));
      [apply fold_notified | reflexivity | intros; apply on_event_displays].
  - change (currentPaper (finally (pg (read_loop parse chunks p1))))
      with (currentPaper (pg (read_loop parse chunks p1))).
    rewrite (read_loop_proj (option paper) currentPaper
               (fun cur e =>
                  match status e with
                  | Some s => if Js.str_eqb s (Js.lit "complete")
                              then paper_of e else cur
                  | None => cur
                  end));
      [reflexivity | reflexivity | intros; apply on_event_currentPaper].
Qed.

Lemma run_displays_the_completed_papers_witness :
  let chunks := [Samples.bytes ("data: E" ++ Samples.LF ++ Samples.LF
                                ++ "data: C" ++ Samples.LF ++ Samples.LF)] in
  FormFacts.accepted Samples.a_form = true
  /\ displays (generatePaper Samples.parse Samples.a_form (Body chunks Done)
                 Samples.blank_page)
     = displays Samples.blank_page
       ++ completed (events_of Samples.parse
                       (snd (Utf8.decode Utf8.init (concat chunks)))).
Proof.
  cbv zeta.
  assert (FormFacts.accepted Samples.a_form = true) as H by reflexivity.
  split; [exact H|].
  exact (proj1 (run_displays_the_completed_papers Samples.parse Samples.a_form
                  _ Samples.blank_page H)).
Defined.

End RunFacts.

(** ** downloadPaper and recoverLastPaper *)

Module DownloadFacts.
Import Main PaperGeneration PaperDownload.

Lemma safe_name_length (t : Js.str) : length (safe_name t) = length t.
Proof. apply length_map. Qed.

Lemma safe_name_chars (t : Js.str) :
  Forall (fun c => is_alnum c = true \/ c = 95%N) (safe_name t).
Proof.
  unfold safe_name. apply Forall_forall. intros c H.
  apply in_map_iff in H. destruct H as [x [<- _]].
  destruct (is_alnum x) eqn:E; [left; exact E | right; reflexivity].
Qed.

Lemma safe_name_fixed (t : Js.str) :
  Forall (fun c => is_alnum c = true \/ c = 95%N) t -> safe_name t = t.
Proof.
  induction 1 as [|c t Hc Ht IH]; [reflexivity|].
  unfold safe_name in *. cbn [map]. rewrite IH.
  destruct Hc as [-> | ->]; reflexivity.
Qed.

(** X5: without a current paper [downloadPaper] only notifies: nothing is
    posted or saved.  With one, exactly one request is posted, carrying
    that paper, and the overlay is hidden at the end; a file is saved only
    when the response is ok, under the title with every character other
    than an ASCII letter or digit replaced by an underscore: the name
    before the extension has the length of the title and holds only ASCII
    letters, digits and underscores. *)
Theorem download_posts_the_current_paper
  (toUpperCase : Js.str -> Js.str) (format : Js.str) (net : exn + bool)
  (d : dpage) :
  let r := downloadPaper toUpperCase format net d in
  (currentPaper (ui d) = None ->
     posted r = posted d /\ saved r = saved d
     /\ alerts (ui r)
        = alerts (ui d) ++ [(Js.lit "No paper to download", error)])
  /\ (forall paper, currentPaper (ui d) = Some paper ->
        posted r = posted d ++ [(endpoint format, paper)]
        /\ loading_hidden (ui r) = true
        /\ currentPaper (ui r) = Some paper
        /\ saved r
           = saved d
             ++ match net with
                | inr true => [safe_name (title paper) ++ Js.lit "." ++ format]
                | _ => []
                end)
  /\ (forall t, length (safe_name t) = length t
                /\ Forall (fun c => is_alnum c = true \/ c = 95%N) (safe_name t)
                /\ safe_name (safe_name t) = safe_name t).
Proof.
  cbv zeta. unfold downloadPaper. split; [|split].
  - intros H. rewrite H. cbn. repeat split; reflexivity.
  - intros paper H. rewrite H.
    destruct net as [e|[|]]; cbn; rewrite ?app_nil_r; repeat split;
      try reflexivity; exact H.
  - intros t. split; [apply safe_name_length|].
    split; [apply safe_name_chars | apply safe_name_fixed, safe_name_chars].
Qed.

Lemma download_posts_the_current_paper_witness :
  let d := {| ui := set_currentPaper (Some Samples.a_paper) Samples.blank_page;
              posted := []; saved := [] |} in
  currentPaper (ui d) = Some Samples.a_paper
  /\ saved (downloadPaper (fun s => s) (Js.lit "pdf") (inr true) d)
     = [Js.lit "Federated_Learning_for_Medical_Imaging.pdf"].
Proof.
  cbv zeta. split; [reflexivity|].
  rewrite (proj2 (proj2 (proj2 (proj1 (proj2
             (download_posts_the_current_paper (fun s => s) (Js.lit "pdf")
                (inr true)
                {| ui := set_currentPaper (Some Samples.a_paper)
                           Samples.blank_page;
                   posted := []; saved := [] |})) Samples.a_paper eq_refl)))).
  reflexivity.
Defined.


End DownloadFacts.

(** ** The survey: outcomes, hand-over to the paper form, display *)

Module SurveyFacts.
Import Main.
Module P := PaperGeneration.
Module L := LiteratureSurvey.
Import SurveyDisplay.

Lemma answer_cases {A} (n : L.http A) :
  (exists e, L.answer n = inl e) \/ (exists d, L.answer n = inr d).
Proof. destruct (L.answer n) as [e|d]; [left; exists e | right; exists d]; reflexivity. Qed.

(** X7: every call of [generateSurvey] ends with exactly one notification.
    When the topic is accepted the trimmed topic is kept in [surveyTopic]
    and the overlay is hidden at the end; at most two requests are made,
    the second only after a successful first answer and with the papers of
    that answer; and a survey is displayed only when the second answer is
    successful, its text being kept for the download. *)
Theorem survey_run_outcomes
  (topic_value : Js.str) (net1 : L.http L.retrieve_data)
  (net2 : L.http L.survey_data) (q : L.page) :
  let topic := Js.trim topic_value in
  let r := L.generateSurvey topic_value net1 net2 q in
  length (L.alerts r) = S (length (L.alerts q))
  /\ (10 <= length topic -> L.loading r = None /\ L.surveyTopic r = topic)
  /\ (exists l, L.requests r = L.requests q ++ l
                /\ (l = [] \/ l = [L.RetrievePapers topic 10]
                    \/ exists d, L.answer net1 = inr d /\ L.r_success d = true
                         /\ l = [L.RetrievePapers topic 10;
                                 L.GenerateSurvey topic
                                   match L.r_papers d with
                                   | Some ps => ps
                                   | None => []
                                   end]))
  /\ (L.shown r = L.shown q
      \/ exists d2, L.answer net2 = inr d2 /\ L.s_success d2 = true
                    /\ L.shown r = L.shown q ++ [d2]
                    /\ L.surveyGeneratedContent r = L.s_text d2).
Proof.
  cbv zeta. unfold L.generateSurvey.
  destruct (Js.truthy (Js.trim topic_value)) eqn:T; cbn [negb].
  2:{ cbn. rewrite length_app. cbn. split; [lia|]. split.
      - intros Hl. exfalso. destruct (Js.trim topic_value);
          [cbn in Hl; lia | discriminate T].
      - split; [exists []; rewrite app_nil_r; auto | left; reflexivity]. }
  destruct (Nat.ltb_spec (length (Js.trim topic_value)) 10) as [Hlt|Hge].
  { cbn. rewrite length_app. cbn. split; [lia|]. split; [lia|].
    split; [exists []; rewrite app_nil_r; auto | left; reflexivity]. }
  destruct (L.answer net1) as [e|d].
  { cbn. rewrite length_app. cbn. split; [lia|]. split; [auto|].
    split; [eexists; split; [reflexivity | right; left; reflexivity]
           | left; reflexivity]. }
  destruct (L.r_success d) eqn:S1; cbn [negb].
  2:{ cbn. rewrite length_app. cbn. split; [lia|]. split; [auto|].
      split; [eexists; split; [reflexivity | right; left; reflexivity]
             | left; reflexivity]. }
  destruct (L.answer net2) as [e2|d2].
  { cbn. rewrite length_app. cbn. split; [lia|]. split; [auto|].
    split; [|left; reflexivity].
    eexists. split; [rewrite <- app_assoc; reflexivity|].
    right. right. exists d. repeat split; assumption. }
  destruct (L.s_success d2) eqn:S2.
  - cbn. rewrite length_app. cbn. split; [lia|]. split; [auto|]. split.
    + eexists. split; [rewrite <- app_assoc; reflexivity|].
      right. right. exists d. repeat split; assumption.
    + right. exists d2. repeat split; assumption.
  - cbn. rewrite length_app. cbn. split; [lia|]. split; [auto|]. split.
    + eexists. split; [rewrite <- app_assoc; reflexivity|].
      right. right. exists d. repeat split; assumption.
    + left. reflexivity.
Qed.

Lemma survey_run_outcomes_witness :
  let q := {| L.loading := None; L.surveyTopic := [];
              L.surveyRetrievedPapers := []; L.surveyGeneratedContent := [];
              L.shown := []; L.alerts := []; L.console := [];
              L.requests := [] |} in
  let r := L.generateSurvey (Js.lit " graph neural networks ")
             (L.Answer true (Js.lit "200")
                (inr {| L.r_success := true; L.r_error := None;
                        L.r_papers := Some [Js.lit "p1"] |}))
             (L.Rejected _ (Exn NetworkError (Js.lit "offline"))) q in
  10 <= length (Js.trim (Js.lit " graph neural networks "))
  /\ L.loading r = None
  /\ L.surveyTopic r = Js.lit "graph neural networks".
Proof.
  cbv zeta.
  assert (10 <= length (Js.trim (Js.lit " graph neural networks "))) as H
    by (vm_compute; lia).
  split; [exact H|].
  destruct (proj1 (proj2 (survey_run_outcomes (Js.lit " graph neural networks ")
             (L.Answer true (Js.lit "200")
                (inr {| L.r_success := true; L.r_error := None;
                        L.r_papers := Some [Js.lit "p1"] |}))
             (L.Rejected _ (Exn NetworkError (Js.lit "offline")))
             {| L.loading := None; L.surveyTopic := [];
                L.surveyRetrievedPapers := []; L.surveyGeneratedContent := [];
                L.shown := []; L.alerts := []; L.console := [];
                L.requests := [] |})) H) as [H1 H2].
  split; [exact H1|]. rewrite H2. reflexivity.
Defined.

Lemma surveyTopic_kept (topic_value : Js.str) (net1 : L.http L.retrieve_data)
  (net2 : L.http L.survey_data) (q : L.page) :
  10 <= length (Js.trim topic_value) ->
  L.surveyTopic (L.generateSurvey topic_value net1 net2 q)
  = Js.trim topic_value.
Proof.
  intros H. unfold L.generateSurvey.
  destruct (@ValidationFacts.long_cases _ H) as [T Ge]. rewrite T, Ge.
  cbn [negb].
  destruct (L.answer net1) as [e|d]; [reflexivity|].
  destruct (L.r_success d); cbn [negb]; [|reflexivity].
  destruct (L.answer net2) as [e2|d2]; [reflexivity|].
  destruct (L.s_success d2); reflexivity.
Qed.

(** X8: a topic accepted by [generateSurvey] and handed over by
    [proceedToPaperGenerationFromSurvey] passes the topic check of
    [generatePaper]: with one complete author the stream request is made,
    and its topic is the trimmed topic of the survey. *)
Theorem survey_topic_passes_the_paper_check
  (parse : Js.str -> exn + P.event) (topic_value : Js.str)
  (net1 : L.http L.retrieve_data) (net2 : L.http L.survey_data) (q : L.page)
  (f : P.form) (net : P.response) (p : P.page) :
  10 <= length (Js.trim topic_value) ->
  P.collect_authors (P.author_entries f) <> [] ->
  let f' := snd (proceedToPaperGenerationFromSurvey
                   (L.generateSurvey topic_value net1 net2 q) f) in
  P.paperTitle_value f' = Js.trim topic_value
  /\ exists r, P.requests (P.generatePaper parse f' net p) = P.requests p ++ [r]
               /\ P.topic (P.req_body r) = Js.trim topic_value
               /\ P.url r = Js.lit "/api/generate-paper-stream".
Proof.
  intros H Ha. cbv zeta. unfold proceedToPaperGenerationFromSurvey.
  rewrite (surveyTopic_kept topic_value net1 net2 q H).
  destruct (@ValidationFacts.long_cases _ H) as [T Ge]. rewrite T.
  cbn [negb snd P.paperTitle_value]. split; [reflexivity|].
  rewrite FormFacts.generatePaper_requests.
  unfold FormFacts.accepted. cbn [P.paperTitle_value P.author_entries].
  rewrite FormFacts.trim_trim, T, Ge. cbn [negb andb].
  destruct (P.collect_authors (P.author_entries f)) as [|a l] eqn:Ea;
    [congruence|].
  cbn [length Nat.eqb negb]. eexists. split; [reflexivity|].
  cbn. split; [apply FormFacts.trim_trim | reflexivity].
Qed.

Lemma survey_topic_passes_the_paper_check_witness :
  let q := {| L.loading := None; L.surveyTopic := [];
              L.surveyRetrievedPapers := []; L.surveyGeneratedContent := [];
              L.shown := []; L.alerts := []; L.console := [];
              L.requests := [] |} in
  10 <= length (Js.trim (Js.lit " graph neural networks "))
  /\ P.collect_authors (P.author_entries Samples.a_form) <> []
  /\ P.paperTitle_value
       (snd (proceedToPaperGenerationFromSurvey
               (L.generateSurvey (Js.lit " graph neural networks ")
                  (L.Rejected _ (Exn NetworkError []))
                  (L.Rejected _ (Exn NetworkError [])) q) Samples.a_form))
     = Js.trim (Js.lit " graph neural networks ").
Proof.
  cbv zeta.
  assert (10 <= length (Js.trim (Js.lit " graph neural networks "))) as H
    by (vm_compute; lia).
  assert (P.collect_authors (P.author_entries Samples.a_form) <> []) as Ha
    by (vm_compute; discriminate).
  split; [exact H|]. split; [exact Ha|].
  exact (proj1 (survey_topic_passes_the_paper_check Samples.parse
           (Js.lit " graph neural networks ")
           (L.Rejected _ (Exn NetworkError []))
           (L.Rejected _ (Exn NetworkError []))
           {| L.loading := None; L.surveyTopic := [];
              L.surveyRetrievedPapers := []; L.surveyGeneratedContent := [];
              L.shown := []; L.alerts := []; L.console := [];
              L.requests := [] |}
           Samples.a_form (P.Body [] P.Done) Samples.blank_page H Ha)).
Defined.

End SurveyFacts.

(** ** Frames, paragraphs and line breaks *)

Module SplitFacts.
Import Js.
Module P := PaperGeneration.
Import SurveyDisplay.

Definition sep : str := [nl; nl].

(** Each piece followed by the separator. *)
Definition closed (pieces : list str) : str :=
  concat (map (fun f => f ++ sep) pieces).

Lemma split_cases (s : str) :
  s = [] \/ (exists c, s = [c])
  \/ (exists t, s = nl :: nl :: t /\ split_nn s = [] :: split_nn t)
  \/ (exists c d t, s = c :: d :: t
                    /\ N.eqb c nl && N.eqb d nl = false
                    /\ split_nn s = JsFacts.cons_first c (split_nn (d :: t))).
Proof.
  destruct s as [|c [|d t]]; [left; reflexivity | right; left; eauto |].
  right. right. destruct (N.eqb c nl && N.eqb d nl) eqn:E.
  - left. apply andb_true_iff in E. destruct E as [E1 E2].
    apply N.eqb_eq in E1, E2. subst. exists t. split; [reflexivity|].
    apply JsFacts.split_nn_sep. reflexivity.
  - right. exists c, d, t. split; [reflexivity|]. split; [exact E|].
    apply JsFacts.split_nn_char. exact E.
Qed.

Lemma removelast_cons (a : str) (l : list str) :
  l <> [] -> removelast (a :: l) = a :: removelast l.
Proof. destruct l; [congruence | reflexivity]. Qed.

Lemma last_cons (a : str) (l : list str) :
  l <> [] -> last (a :: l) [] = last l [].
Proof. destruct l; [congruence | reflexivity]. Qed.

Lemma rebuild_cons_first (c : char) (l : list str) :
  l <> [] ->
  closed (removelast (JsFacts.cons_first c l))
    ++ last (JsFacts.cons_first c l) []
  = c :: closed (removelast l) ++ last l [].
Proof.
  destruct l as [|q [|q' qs]]; [congruence | reflexivity |].
  intros _. reflexivity.
Qed.

(** The pieces, with the separators put back, are the text. *)
Lemma split_nn_rebuild_len (n : nat) : forall s : str, length s <= n ->
  s = closed (removelast (split_nn s)) ++ last (split_nn s) [].
Proof.
  induction n as [|n IH]; intros s Hn.
  - destruct s; [reflexivity | cbn in Hn; lia].
  - destruct (split_cases s) as [->|[[c ->]|[[t [-> E]]|[c [d [t [-> [E1 E2]]]]]]]];
      try reflexivity.
    + rewrite E.
      rewrite removelast_cons, last_cons by apply JsFacts.split_nn_nonempty.
      unfold closed. cbn [map concat]. fold (closed (removelast (split_nn t))).
      cbn [app sep]. do 2 f_equal. apply IH. cbn in Hn. lia.
    + rewrite E2, rebuild_cons_first by apply JsFacts.split_nn_nonempty.
      f_equal. apply IH. cbn in Hn |- *. lia.
Qed.

Lemma split_nn_rebuild (s : str) :
  s = closed (removelast (split_nn s)) ++ last (split_nn s) [].
Proof. apply (split_nn_rebuild_len (length s)). lia. Qed.

Lemma first_piece_prefix (s q : str) (qs : list str) :
  split_nn s = q :: qs -> exists t, s = q ++ t.
Proof.
  intros E. pose proof (split_nn_rebuild s) as R. rewrite E in R.
  destruct qs as [|q' qs].
  - cbn in R. exists []. rewrite app_nil_r. exact R.
  - cbn [removelast] in R. unfold closed in R. cbn [map concat] in R.
    rewrite <- !app_assoc in R. eexists. exact R.
Qed.

(** No piece holds a separator. *)
Lemma split_nn_pieces_len (n : nat) : forall s : str, length s <= n ->
  Forall (fun f => split_nn f = [f]) (split_nn s).
Proof.
  induction n as [|n IH]; intros s Hn.
  - destruct s; [repeat constructor | cbn in Hn; lia].
  - destruct (split_cases s) as [->|[[c ->]|[[t [-> E]]|[c [d [t [-> [E1 E2]]]]]]]].
    + repeat constructor.
    + repeat constructor.
    + rewrite E. constructor; [reflexivity|]. apply IH. cbn in Hn. lia.
    + rewrite E2. pose proof (IH (d :: t) ltac:(cbn in *; lia)) as F.
      destruct (split_nn (d :: t)) as [|q qs] eqn:Q; [constructor|].
      inversion F as [|? ? Fq Fqs]; subst. cbn [JsFacts.cons_first].
      constructor; [|exact Fqs].
      destruct (first_piece_prefix _ _ _ Q) as [u Hu].
      destruct q as [|x q]; [reflexivity|].
      cbn in Hu. injection Hu as <- _.
      rewrite (JsFacts.split_nn_char c d q E1), Fq. reflexivity.
Qed.

Lemma split_nn_pieces (s : str) :
  Forall (fun f => split_nn f = [f]) (split_nn s).
Proof. apply (split_nn_pieces_len (length s)). lia. Qed.

(** X9: the read loop loses no character: whatever the chunks, the frames
    handled so far, each followed by the separator, and then the buffer
    spell the decoded text; no frame and no buffer holds a separator. *)
Theorem read_loop_keeps_every_character
  (parse : str -> Main.exn + P.event) (chunks : list (list Byte.byte))
  (p : P.page) :
  let text := snd (Utf8.decode Utf8.init (concat chunks)) in
  let st := P.read_loop parse chunks p in
  text = closed (P.frames text) ++ P.buffer st
  /\ split_nn (P.buffer st) = [P.buffer st]
  /\ Forall (fun f => split_nn f = [f]) (P.frames text).
Proof.
  cbv zeta. rewrite StreamFacts.read_loop_after. unfold StreamFacts.after.
  cbn [P.buffer]. unfold P.frames.
  set (text := snd (Utf8.decode Utf8.init (concat chunks))).
  pose proof (split_nn_pieces text) as F.
  pose proof (JsFacts.split_nn_nonempty text) as Hne.
  rewrite (app_removelast_last [] Hne) in F.
  apply Forall_app in F. destruct F as [F1 F2].
  split; [apply split_nn_rebuild|]. split; [|exact F1].
  inversion F2; assumption.
Qed.

Lemma join_cons_first (r : str) (c : char) (l : list str) :
  l <> [] -> join r (JsFacts.cons_first c l) = c :: join r l.
Proof. destruct l as [|q [|q' qs]]; [congruence | reflexivity | reflexivity]. Qed.

Lemma replace_nn_join_len (r : str) (n : nat) : forall s : str,
  length s <= n -> replace_nn r s = join r (split_nn s).
Proof.
  induction n as [|n IH]; intros s Hn.
  - destruct s; [reflexivity | cbn in Hn; lia].
  - destruct (split_cases s) as [->|[[c ->]|[[t [-> E]]|[c [d [t [-> [E1 E2]]]]]]]];
      try reflexivity.
    + rewrite E. pose proof (JsFacts.split_nn_nonempty t) as Hne.
      cbn [replace_nn]. rewrite N.eqb_refl. cbn [andb].
      rewrite IH by (cbn in Hn; lia).
      destruct (split_nn t) as [|q qs]; [congruence | reflexivity].
    + rewrite E2, join_cons_first by apply JsFacts.split_nn_nonempty.
      cbn [replace_nn]. rewrite E1.
      rewrite <- IH by (cbn in *; lia). reflexivity.
Qed.

Lemma nl_to_br_app (a b : str) :
  P.nl_to_br (a ++ b) = P.nl_to_br a ++ P.nl_to_br b.
Proof.
  induction a as [|c a IH]; [reflexivity|].
  cbn [app P.nl_to_br]. rewrite IH, app_assoc. reflexivity.
Qed.

Lemma nl_to_br_join (r : str) (l : list str) :
  P.nl_to_br r = r ->
  P.nl_to_br (join r l) = join r (map P.nl_to_br l).
Proof.
  intros Hr. induction l as [|q [|q' qs] IH]; [reflexivity | reflexivity |].
  change (join r (q :: q' :: qs)) with (q ++ r ++ join r (q' :: qs)).
  rewrite !nl_to_br_app, Hr, IH. reflexivity.
Qed.

Lemma nl_to_br_no_newline (s : str) : ~ In nl (P.nl_to_br s).
Proof.
  induction s as [|c s IH]; [intros []|].
  cbn [P.nl_to_br]. intros H. apply in_app_or in H. destruct H as [H|H];
    [|exact (IH H)].
  destruct (N.eqb_spec c nl) as [->|Hc].
  - cbn in H. repeat (destruct H as [H|H]; [discriminate|]). exact H.
  - destruct H as [H|[]]. congruence.
Qed.

Lemma nl_to_br_plain (s : str) : ~ In nl s -> P.nl_to_br s = s.
Proof.
  induction s as [|c s IH]; intros H; [reflexivity|].
  cbn [P.nl_to_br]. destruct (N.eqb_spec c nl) as [->|Hc].
  - exfalso. apply H. left. reflexivity.
  - cbn. f_equal. apply IH. intros X. apply H. right. exact X.
Qed.

(** X10: the text shown by [displaySurvey] is the survey text cut at the
    blank lines, in the way [split('\n\n')] cuts it, each piece with its
    remaining newlines turned into [<br>], the pieces joined by
    [</p><p>]; no newline is left in it. *)
Theorem survey_text_is_cut_into_paragraphs (text : str) :
  formattedContent text
  = join (lit "</p><p>") (map P.nl_to_br (split_nn text))
  /\ ~ In nl (formattedContent text).
Proof.
  unfold formattedContent. split; [|apply nl_to_br_no_newline].
  rewrite (replace_nn_join_len (lit "</p><p>") (length text)) by lia.
  apply nl_to_br_join. reflexivity.
Qed.

(** X11: no section body rendered by [displayGeneratedPaper] holds a
    newline; a section text without newline is rendered as it is, and a
    text with newlines grows by three characters for each. *)
Theorem section_bodies_have_no_newline (data : P.paper) :
  (forall b, In b (P.r_blocks (P.displayGeneratedPaper data)) ->
             ~ In nl (P.body b))
  /\ (forall s : str, ~ In nl s -> P.nl_to_br s = s)
  /\ (forall s : str,
        length (P.nl_to_br s) = length s + 3 * count_occ N.eq_dec s nl).
Proof.
  split; [|split].
  - intros b Hb. unfold P.displayGeneratedPaper in Hb.
    cbn [P.r_blocks] in Hb. unfold P.section_blocks in Hb.
    apply in_flat_map in Hb. destruct Hb as [n [_ Hb]].
    unfold P.section_block in Hb.
    destruct (get (P.sections data) n) as [t|]; [|contradiction].
    destruct (truthy t); [|contradiction].
    destruct Hb as [<-|[]]. cbn. apply nl_to_br_no_newline.
  - apply nl_to_br_plain.
  - induction s as [|c s IH]; [reflexivity|].
    cbn [P.nl_to_br count_occ]. rewrite length_app, IH.
    destruct (N.eqb_spec c nl) as [->|Hc].
    + destruct (N.eq_dec nl nl); [cbn; lia | congruence].
    + destruct (N.eq_dec c nl); [congruence | cbn; lia].
Qed.

End SplitFacts.

(** ** The search ladder at a limit of zero or below *)

Module LimitFacts.
Import Py RagService.

Lemma slice_to_zero {A} (l : list A) : slice_to 0 l = [].
Proof. reflexivity. Qed.

Lemma slice_to_negative {A} (n : Z) (l : list A) :
  (n < 0)%Z -> length (slice_to n l) = length l - Z.to_nat (- n).
Proof.
  intros H. unfold slice_to. destruct (Z.leb_spec 0 n); [lia|].
  rewrite length_firstn. lia.
Qed.

(** X12: with a limit of zero or below, [search_papers] issues the exact
    query and no other, whatever it answers; at limit 0 nothing is
    returned; at a negative limit the slice [[:limit]] drops that many
    papers from the end of the deduplicated answer, so papers can still be
    returned, all of them from the answer to the exact query. *)
Theorem ladder_at_nonpositive_limit
  (provider : Type) (search_api : provider -> str -> provider * list paper)
  (remove_stopwords : str -> str) (first_n_keywords last_n_words : str -> Z -> str)
  (normalize_title : str -> str) (query : str) (limit : Z) (pv : provider)
  (H : (limit <= 0)%Z) :
  let out := search_papers search_api remove_stopwords first_n_keywords
               last_n_words normalize_title query limit (pv, []) in
  let answer := snd (search_api pv query) in
  fst out = (fst (search_api pv query), [(query, answer)])
  /\ (limit = 0%Z -> snd out = [])
  /\ ((limit < 0)%Z ->
        length (snd out)
        = length (deduplicate normalize_title answer) - Z.to_nat (- limit))
  /\ (forall p, In p (snd out) -> In p answer).
Proof.
  cbv zeta.
  assert (B : below (snd (search_api pv query)) limit = false)
    by (apply Z.ltb_ge; lia).
  assert (E : search_papers search_api remove_stopwords first_n_keywords
                last_n_words normalize_title query limit (pv, [])
              = ((fst (search_api pv query),
                  [(query, snd (search_api pv query))]),
                 slice_to limit
                   (deduplicate normalize_title (snd (search_api pv query))))).
  { unfold search_papers, call. cbn [fst snd app].
    destruct (search_api pv query) as [pv1 r1]. cbn [fst snd] in B |- *.
    rewrite !B. reflexivity. }
  rewrite E. cbn [fst snd]. split; [reflexivity|]. split; [|split].
  - intros ->. apply slice_to_zero.
  - intros Hn. apply slice_to_negative. exact Hn.
  - intros p Hp. apply PyFacts.slice_to_incl in Hp.
    apply (@RagFacts.deduplicate_from_incl normalize_title _ [] p Hp).
Qed.

Lemma ladder_at_nonpositive_limit_witness :
  let one := {| external_id := Some (lit "a"); title := lit "A";
                year := 2020%Z; citation_count := 1%Z |} in
  let two := {| external_id := Some (lit "b"); title := lit "B";
                year := 2021%Z; citation_count := 2%Z |} in
  let api := fun (n : nat) (_ : str) => (S n, [one; two; one]) in
  let out := search_papers api (fun q => q) (fun q _ => q) (fun q _ => q)
               (fun t => t) (lit "q") (-1)%Z (0, []) in
  (-1 <= 0)%Z
  /\ fst out = (1, [(lit "q", [one; two; one])])
  /\ snd out = [one].
Proof.
  cbv zeta. split; [lia|].
  pose proof (ladder_at_nonpositive_limit nat
                (fun (n : nat) (_ : str) =>
                   (S n, [ {| external_id := Some (lit "a"); title := lit "A";
                              year := 2020%Z; citation_count := 1%Z |};
                           {| external_id := Some (lit "b"); title := lit "B";
                              year := 2021%Z; citation_count := 2%Z |};
                           {| external_id := Some (lit "a"); title := lit "A";
                              year := 2020%Z; citation_count := 1%Z |} ]))
                (fun q => q) (fun q _ => q) (fun q _ => q) (fun t => t)
                (lit "q") (-1)%Z 0 ltac:(lia)) as [E _].
  split; [exact E | reflexivity].
Defined.

End LimitFacts.

(** ** Transport failures of generatePaper *)

Module FailureFacts.
Import Main PaperGeneration.

(** The value that the outer [catch] receives: the rejection of [fetch] or
    of a [read()]. *)
Definition failure (net : response) : option exn :=
  match net with
  | FetchFails e => Some e
  | Body _ (ReadFails e) => Some e
  | Body _ Done => None
  end.

(** The events handled before the response ends. *)
Definition handled (parse : Js.str -> exn + event) (net : response)
  : list event :=
  match net with
  | FetchFails _ => []
  | Body chunks _ =>
      RunFacts.events_of parse (snd (Utf8.decode Utf8.init (concat chunks)))
  end.

Lemma on_event_console (p : page) (e : event) :
  exists l, console (on_event p e) = console p ++ l.
Proof.
  unfold on_event, handle. destruct (status e) as [s|];
    [|exists []; cbn; rewrite app_nil_r; reflexivity].
  repeat match goal with
  | |- context [Js.str_eqb s ?k] => destruct (Js.str_eqb s k)
  end;
  try (exists []; cbn; rewrite app_nil_r; reflexivity);
  try (eexists [_]; reflexivity).
  - destruct (section e) as [sec|]; [destruct (Js.get sectionMap sec)|];
      exists []; cbn; rewrite app_nil_r; reflexivity.
  - destruct (paper_of e);
      [exists []; cbn; rewrite app_nil_r; reflexivity | eexists [_]; reflexivity].
Qed.

Lemma fold_payloads_console (parse : Js.str -> exn + event) (l : list Js.str) :
  forall p, exists k,
    console (fold_left (on_payload parse) l p) = console p ++ k.
Proof.
  induction l as [|t l IH]; intros p;
    [exists []; cbn; rewrite app_nil_r; reflexivity|].
  cbn [fold_left]. destruct (IH (on_payload parse p t)) as [k Hk].
  rewrite Hk. unfold on_payload. destruct (parse t) as [e|e].
  - exists (e :: k). cbn. rewrite <- app_assoc. reflexivity.
  - destruct (on_event_console p e) as [k' Hk']. exists (k' ++ k).
    rewrite Hk', app_assoc. reflexivity.
Qed.

Lemma read_loop_console (parse : Js.str -> exn + event)
  (chunks : list (list Byte.byte)) (p : page) :
  exists k, console (pg (read_loop parse chunks p)) = console p ++ k.
Proof.
  rewrite StreamFacts.read_loop_after. unfold StreamFacts.after. cbn [pg].
  rewrite StreamFacts.fold_on_line. apply fold_payloads_console.
Qed.

(** X13: when the form is accepted and [fetch] or a [read()] is rejected,
    the outer [catch] runs: after the success notifications of the papers
    completed before the failure, the last notification is
    ['Failed to generate paper: ' + error.message], the error is the last
    one logged, the overlay and the progress bar are hidden, and the one
    request of the run is not repeated. *)
Theorem transport_failure_is_reported
  (parse : Js.str -> exn + event) (f : form) (net : response) (p : page)
  (e : exn) :
  FormFacts.accepted f = true ->
  failure net = Some e ->
  let q := generatePaper parse f net p in
  let done := RunFacts.completed (handled parse net) in
  alerts q
  = alerts p ++ map (fun _ => (success_message, success)) done
    ++ [(Js.lit "Failed to generate paper: " ++ emessage e, error)]
  /\ displays q = displays p ++ done
  /\ (exists k, console q = console p ++ k ++ [e])
  /\ loading_hidden q = true /\ progress_hidden q = true
  /\ requests q = requests p ++ [FormFacts.request_of f].
Proof.
  intros Acc Hf. cbv zeta.
  split; [|split; [|split; [|split; [|split]]]].
  6:{ rewrite FormFacts.generatePaper_requests, Acc. reflexivity. }
  all: unfold generatePaper; unfold FormFacts.accepted in Acc;
    apply andb_true_iff in Acc; destruct Acc as [Acc A3];
    apply andb_true_iff in Acc; destruct Acc as [A1 A2];
    rewrite A1; apply negb_true_iff in A2, A3; rewrite A2, A3; cbn [negb];
    set (p1 := fetch _ (ui_setup p));
    destruct net as [e' | chunks [|e']]; cbn [failure] in Hf;
    try discriminate; injection Hf as ->; cbn [handled].
  - cbn. reflexivity.
  - change (alerts (finally (on_failure e (pg (read_loop parse chunks p1)))))
      with (alerts (pg (read_loop parse chunks p1))
            ++ [(Js.lit "Failed to generate paper: " ++ emessage e, error)]).
    rewrite (RunFacts.read_loop_proj (list (Js.str * ntype)) alerts
               (fun acc ev => acc ++ map (fun _ => (success_message, success))
                                       (RunFacts.completed [ev])));
      [| reflexivity | intros; apply RunFacts.on_event_displays].
    rewrite RunFacts.fold_notified, <- app_assoc. reflexivity.
  - cbn. rewrite app_nil_r. reflexivity.
  - change (displays (finally (on_failure e (pg (read_loop parse chunks p1)))))
      with (displays (pg (read_loop parse chunks p1))).
    rewrite (RunFacts.read_loop_proj (list paper) displays
               (fun acc ev => acc ++ RunFacts.completed [ev]));
      [apply RunFacts.fold_completed | reflexivity
      | intros; apply RunFacts.on_event_displays].
  - exists []. reflexivity.
  - destruct (read_loop_console parse chunks p1) as [k Hk]. exists k.
    change (console (finally (on_failure e (pg (read_loop parse chunks p1)))))
      with (console (pg (read_loop parse chunks p1)) ++ [e]).
    rewrite Hk, <- app_assoc. reflexivity.
  - reflexivity.
  - reflexivity.
  - reflexivity.
  - reflexivity.
Qed.

Lemma transport_failure_is_reported_witness :
  let chunks := [Samples.bytes ("data: C" ++ Samples.LF ++ Samples.LF)] in
  let e := Exn NetworkError (Js.lit "network error") in
  let q := generatePaper Samples.parse Samples.a_form
             (Body chunks (ReadFails e)) Samples.blank_page in
  FormFacts.accepted Samples.a_form = true
  /\ failure (Body chunks (ReadFails e)) = Some e
  /\ alerts q
     = alerts Samples.blank_page
       ++ map (fun _ => (success_message, success))
            (RunFacts.completed
               (handled Samples.parse (Body chunks (ReadFails e))))
       ++ [(Js.lit "Failed to generate paper: " ++ emessage e, error)].
Proof.
  cbv zeta.
  assert (FormFacts.accepted Samples.a_form = true) as H by reflexivity.
  split; [exact H|]. split; [reflexivity|].
  exact (proj1 (transport_failure_is_reported Samples.parse Samples.a_form
                  (Body [Samples.bytes ("data: C" ++ Samples.LF ++ Samples.LF)]
                     (ReadFails (Exn NetworkError (Js.lit "network error"))))
                  Samples.blank_page _ H eq_refl)).
Defined.

End FailureFacts.

(** ** Section headings *)

Module HeadingFacts.
Import PaperGeneration.

(** ASCII lower-case letters. *)
Definition lowercase (c : Js.char) : bool := N.leb 97 c && N.leb c 122.

Lemma replace_first_underscore_length (s : Js.str) :
  length (replace_first_underscore s) = length s.
Proof.
  induction s as [|c s IH]; [reflexivity|].
  cbn [replace_first_underscore]. destruct (N.eqb c 95); cbn; congruence.
Qed.

Lemma replace_first_underscore_count (s : Js.str) :
  count_occ N.eq_dec (replace_first_underscore s) 95%N
  = pred (count_occ N.eq_dec s 95%N).
Proof.
  induction s as [|c s IH]; [reflexivity|].
  cbn [replace_first_underscore]. destruct (N.eqb_spec c 95) as [->|Hc].
  - cbn. reflexivity.
  - cbn [count_occ]. destruct (N.eq_dec c 95); [congruence | exact IH].
Qed.

Lemma capitalize_words_case (s : Js.str) : forall prev,
  Forall2 (fun a b => b = a \/ (lowercase a = true /\ b = (a - 32)%N))
    s (capitalize_words prev s).
Proof.
  induction s as [|c s IH]; intros prev; [constructor|].
  cbn [capitalize_words]. constructor; [|apply IH].
  destruct (is_word c && negb prev); [|left; reflexivity].
  unfold toUpperCase. fold (lowercase c).
  destruct (lowercase c); [right; split; reflexivity | left; reflexivity].
Qed.

Lemma toUpperCase_not_lowercase (c : Js.char) : lowercase (toUpperCase c) = false.
Proof.
  unfold toUpperCase, lowercase.
  destruct (N.leb_spec 97 c), (N.leb_spec c 122); cbn [andb];
    apply andb_false_iff;
    try (destruct (N.leb_spec 97 (c - 32)); [|left; reflexivity];
         right; apply N.leb_gt; lia);
    try (left; apply N.leb_gt; lia);
    try (right; apply N.leb_gt; lia).
Qed.

Lemma is_word_toUpperCase (c : Js.char) :
  is_word c = true -> is_word (toUpperCase c) = true.
Proof.
  unfold toUpperCase. destruct (N.leb 97 c && N.leb c 122) eqn:E;
    [|intros H; exact H].
  intros _. apply andb_true_iff in E. destruct E as [E1 E2].
  apply N.leb_le in E1, E2. unfold is_word.
  apply orb_true_iff. left. apply orb_true_iff. left.
  apply orb_true_iff. right. apply andb_true_iff.
  split; apply N.leb_le; lia.
Qed.

(** A lower-case letter of the result follows a word character. *)
Lemma capitalize_words_starts (s : Js.str) : forall prev a c b,
  capitalize_words prev s = a ++ c :: b ->
  lowercase c = true ->
  match rev a with
  | [] => prev = true
  | x :: _ => is_word x = true
  end.
Proof.
  induction s as [|d s IH]; intros prev a c b E L.
  - destruct a; discriminate.
  - cbn [capitalize_words] in E. destruct a as [|x a].
    + cbn [app] in E. injection E as E _. cbn [rev].
      destruct prev; [reflexivity|]. cbn [negb] in E.
      rewrite andb_true_r in E.
      destruct (is_word d) eqn:W.
      * rewrite <- E, toUpperCase_not_lowercase in L. discriminate.
      * subst c. unfold lowercase in L. unfold is_word in W.
        rewrite L in W. rewrite !orb_true_r in W. cbn in W.
        rewrite ?orb_true_r in W. discriminate.
    + cbn in E. injection E as Ex E. specialize (IH _ _ _ _ E L).
      cbn [rev]. destruct (rev a) as [|y r] eqn:R.
      * cbn [app]. rewrite <- Ex.
        destruct (is_word d && negb prev); [|exact IH].
        apply is_word_toUpperCase. exact IH.
      * cbn. exact IH.
Qed.

(** X14: the heading of a section keeps the length of its name; the first
    underscore of the name, and only the first, becomes a space; the other
    characters are kept, ASCII lower-case letters possibly put in upper
    case; and every lower-case letter left in the heading follows a word
    character, so that each word starts in upper case.  The headings of the
    seven sections are as listed. *)
Theorem section_headings_are_capitalized (section : Js.str) :
  length (section_heading section) = length section
  /\ Forall2 (fun a b => b = a \/ (lowercase a = true /\ b = (a - 32)%N))
       (replace_first_underscore section) (section_heading section)
  /\ count_occ N.eq_dec (replace_first_underscore section) 95%N
     = pred (count_occ N.eq_dec section 95%N)
  /\ (forall a c b, section_heading section = a ++ c :: b ->
        lowercase c = true ->
        exists a' x, a = a' ++ [x] /\ is_word x = true)
  /\ map section_heading sections_order
     = map Js.lit ["Abstract"; "Introduction"; "Literature Review";
                   "Methodology"; "Results"; "Discussion"; "Conclusion"]%string.
Proof.
  unfold section_heading. split; [|split; [|split; [|split]]].
  - rewrite <- (replace_first_underscore_length section).
    symmetry. apply (Forall2_length (capitalize_words_case _ false)).
  - apply capitalize_words_case.
  - apply replace_first_underscore_count.
  - intros a c b E L.
    pose proof (capitalize_words_starts _ _ _ _ _ E L) as H.
    destruct (rev a) as [|x r] eqn:R; [discriminate|].
    exists (rev r), x. split; [|exact H].
    rewrite <- (rev_involutive a), R. reflexivity.
  - reflexivity.
Qed.

End HeadingFacts.

(** ** Download of the survey *)

Module SurveyDownloadFacts.
Import Main SurveyDownload.

(** The text kept in [surveyGeneratedContent] by a run of [generateSurvey]
    whose topic is accepted: the text of a successful second answer,
    otherwise the text that was there. *)
Definition kept (net1 : L.http L.retrieve_data) (net2 : L.http L.survey_data)
  (q : L.page) : Js.str :=
  match L.answer net1, L.answer net2 with
  | inr a, inr b =>
      if L.r_success a && L.s_success b then L.s_text b
      else L.surveyGeneratedContent q
  | _, _ => L.surveyGeneratedContent q
  end.

Lemma generateSurvey_kept (topic_value : Js.str)
  (net1 : L.http L.retrieve_data) (net2 : L.http L.survey_data) (q : L.page) :
  10 <= length (Js.trim topic_value) ->
  let r := L.generateSurvey topic_value net1 net2 q in
  L.surveyGeneratedContent r = kept net1 net2 q
  /\ L.surveyTopic r = Js.trim topic_value.
Proof.
  intros Hlen. cbv zeta. unfold L.generateSurvey, kept.
  destruct (Js.trim topic_value) as [|c t] eqn:T; [cbn in Hlen; lia|].
  replace (Js.truthy (c :: t)) with true by reflexivity. cbn [negb].
  destruct (Nat.ltb_spec (length (c :: t)) 10) as [Hlt|_]; [lia|].
  destruct (L.answer net1) as [e|a]; [split; reflexivity|].
  destruct (L.r_success a); cbn [negb andb];
    [|destruct (L.answer net2); split; reflexivity].
  destruct (L.answer net2) as [e|b]; [split; reflexivity|].
  destruct (L.s_success b); split; reflexivity.
Qed.

(** X15: a download that follows a run of [generateSurvey] with an accepted
    topic posts the topic of that run with the survey text kept after it:
    the text of the run when it succeeded, otherwise the text of an
    earlier run, under the new topic.  With no text kept (a successful
    answer without text included) nothing is posted or saved and only
    ['No survey to download. Generate one first.'] is shown.  A file is
    saved only when the response is ok and its body can be read; the
    overlay is hidden at the end. *)
Theorem survey_download_after_a_run
  (topic_value : Js.str) (net1 : L.http L.retrieve_data)
  (net2 : L.http L.survey_data) (q : L.page)
  (now : Js.str) (net : L.http unit) (ps : list (Js.str * Js.str))
  (sv : list Js.str) :
  10 <= length (Js.trim topic_value) ->
  let r := L.generateSurvey topic_value net1 net2 q in
  let d := downloadSurvey now net {| ui := r; posted := ps; saved := sv |} in
  (kept net1 net2 q = [] ->
     posted d = ps /\ saved d = sv
     /\ L.alerts (ui d)
        = L.alerts r
          ++ [(Js.lit "No survey to download. Generate one first.", error)])
  /\ (kept net1 net2 q <> [] ->
        posted d = ps ++ [(Js.trim topic_value, kept net1 net2 q)]
        /\ saved d
           = sv ++ match L.answer net with
                   | inr _ => [Js.lit "literature_survey_" ++ now
                               ++ Js.lit ".pdf"]
                   | inl _ => []
                   end
        /\ L.loading (ui d) = None
        /\ length (L.alerts (ui d)) = S (length (L.alerts r))).
Proof.
  intros Hlen. cbv zeta.
  destruct (generateSurvey_kept topic_value net1 net2 q Hlen) as [K T].
  unfold downloadSurvey. cbn [ui posted saved on_ui].
  rewrite K. split; intros H.
  - rewrite H. cbn. repeat split; reflexivity.
  - destruct (kept net1 net2 q) as [|c k] eqn:E; [congruence|].
    replace (Js.truthy (c :: k)) with true by reflexivity. cbn [negb].
    cbn [L.showLoading L.surveyTopic L.surveyGeneratedContent].
    rewrite T, K.
    destruct (L.answer net) as [e|u]; cbn; rewrite ?app_nil_r, ?length_app;
      cbn; repeat split; try reflexivity; lia.
Qed.

Lemma survey_download_after_a_run_witness :
  let q := {| L.loading := None; L.surveyTopic := Js.lit "an older topic";
              L.surveyRetrievedPapers := [];
              L.surveyGeneratedContent := Js.lit "an older survey";
              L.shown := []; L.alerts := []; L.console := [];
              L.requests := [] |} in
  let topic := Js.lit "graph neural networks" in
  let down := L.Rejected L.retrieve_data (Exn NetworkError (Js.lit "offline")) in
  let r := L.generateSurvey topic down
             (L.Rejected L.survey_data (Exn NetworkError (Js.lit "offline"))) q in
  10 <= length (Js.trim topic)
  /\ posted (downloadSurvey (Js.lit "1700000000000") (@L.Answer unit true (Js.lit "200") (inr tt))
               {| ui := r; posted := []; saved := [] |})
     = [(Js.lit "graph neural networks", Js.lit "an older survey")].
Proof.
  cbv zeta.
  assert (10 <= length (Js.trim (Js.lit "graph neural networks"))) as H
    by (vm_compute; lia).
  split; [exact H|].
  pose proof (survey_download_after_a_run (Js.lit "graph neural networks")
                (L.Rejected L.retrieve_data (Exn NetworkError (Js.lit "offline")))
                (L.Rejected L.survey_data (Exn NetworkError (Js.lit "offline")))
                {| L.loading := None; L.surveyTopic := Js.lit "an older topic";
                   L.surveyRetrievedPapers := [];
                   L.surveyGeneratedContent := Js.lit "an older survey";
                   L.shown := []; L.alerts := []; L.console := [];
                   L.requests := [] |}
                (Js.lit "1700000000000")
                (@L.Answer unit true (Js.lit "200") (inr tt)) [] [] H) as [_ P].
  exact (proj1 (P ltac:(discriminate))).
Defined.

End SurveyDownloadFacts.

(** ** Navigation between the sections *)

Module NavigationFacts.
Import Main Navigation.

(** The classes of an element other than [hidden]. *)
Definition others (e : element) : list Js.str :=
  filter (fun x => negb (Js.str_eqb (Js.lit "hidden") x)) (classes e).

(** The content sections that are shown. *)
Definition shown (e : element) : bool := content_section e && negb (hidden e).

Lemma filter_idem {A} (f : A -> bool) (l : list A) :
  filter f (filter f l) = filter f l.
Proof.
  induction l as [|x l IH]; [reflexivity|]. cbn [filter].
  destruct (f x) eqn:E; cbn [filter]; rewrite ?E, IH; reflexivity.
Qed.

Lemma others_add (e : element) : others (add (Js.lit "hidden") e) = others e.
Proof.
  unfold others, add. cbn [classes].
  destruct (contains (Js.lit "hidden") e); [reflexivity|].
  rewrite filter_app. cbn. apply app_nil_r.
Qed.

Lemma others_remove (e : element) :
  others (remove (Js.lit "hidden") e) = others e.
Proof. unfold others, remove. cbn [classes]. apply filter_idem. Qed.

Lemma contains_others (c : Js.str) (e : element) :
  Js.str_eqb (Js.lit "hidden") c = false ->
  contains c e = existsb (Js.str_eqb c) (others e).
Proof.
  intros Hc. unfold contains, others.
  induction (classes e) as [|x l IH]; [reflexivity|].
  cbn [existsb filter]. destruct (Js.str_eqb (Js.lit "hidden") x) eqn:E;
    cbn [negb existsb]; rewrite IH; [|reflexivity].
  destruct (Js.str_eqb c x) eqn:Ec; [|reflexivity].
  apply JsFacts.str_eqb_eq in E, Ec. subst x. subst c.
  rewrite JsFacts.str_eqb_refl in Hc. discriminate.
Qed.

Lemma hidden_add (e : element) : hidden (add (Js.lit "hidden") e) = true.
Proof.
  unfold hidden, add, contains. cbn [classes].
  destruct (existsb (Js.str_eqb (Js.lit "hidden")) (classes e)) eqn:E;
    [exact E|].
  rewrite existsb_app. cbn. apply orb_true_r.
Qed.

Lemma hidden_remove (e : element) : hidden (remove (Js.lit "hidden") e) = false.
Proof.
  unfold hidden, remove, contains. cbn [classes].
  induction (classes e) as [|x l IH]; [reflexivity|].
  cbn [filter]. destruct (Js.str_eqb (Js.lit "hidden") x) eqn:E;
    cbn [negb existsb]; [exact IH | rewrite E, IH; reflexivity].
Qed.

Lemma content_section_keep (e e' : element) :
  others e' = others e -> content_section e' = content_section e.
Proof.
  intros H. unfold content_section.
  rewrite !contains_others by reflexivity. rewrite H. reflexivity.
Qed.

Lemma feature_grid_keep (e e' : element) :
  others e' = others e -> feature_grid e' = feature_grid e.
Proof.
  intros H. unfold feature_grid.
  rewrite !contains_others by reflexivity. rewrite H. reflexivity.
Qed.

(** Two documents with the same elements up to the class [hidden]. *)
Definition same_structure (d d' : document) : Prop :=
  Forall2 (fun e e' => id e' = id e /\ others e' = others e) d d'.

Lemma same_structure_refl (d : document) : same_structure d d.
Proof. induction d; constructor; [split; reflexivity | assumption]. Qed.

Lemma same_structure_trans (a b c : document) :
  same_structure a b -> same_structure b c -> same_structure a c.
Proof.
  intros H. revert c. induction H as [|x y l l' [H1 H2] _ IH]; intros c Hc;
    inversion Hc as [|? z ? l'' [H3 H4] Hl]; subst; constructor.
  - split; congruence.
  - apply IH. exact Hl.
Qed.

Lemma on_first_structure (sel : element -> bool) (f : element -> element)
  (d : document) :
  (forall e, id (f e) = id e /\ others (f e) = others e) ->
  same_structure d (on_first sel f d).
Proof.
  intros Hf. induction d as [|e d IH]; [constructor|].
  cbn [on_first]. destruct (sel e); constructor;
    try (split; reflexivity); try apply Hf; try exact IH.
  apply same_structure_refl.
Qed.

Lemma hide_sections_structure (d : document) :
  same_structure d (hide_sections d).
Proof.
  induction d as [|e d IH]; [constructor|]. cbn [hide_sections map].
  constructor; [|exact IH].
  destruct (content_section e); split; try reflexivity. apply others_add.
Qed.

Lemma hide_sections_none_shown (d : document) :
  Forall (fun e => shown e = false) (hide_sections d).
Proof.
  induction d as [|e d IH]; [constructor|]. cbn [hide_sections map].
  constructor; [|exact IH]. unfold shown.
  destruct (content_section e) eqn:C.
  - rewrite hidden_add. apply andb_false_r.
  - rewrite C. reflexivity.
Qed.

(** Changing the first selected element of a document in which no section
    is shown leaves at most that one shown. *)
Lemma on_first_one_shown (sel : element -> bool) (f : element -> element)
  (d : document) :
  Forall (fun e => shown e = false) d ->
  forall e, In e (filter shown (on_first sel f d)) ->
    filter shown (on_first sel f d) = [e]
    /\ exists x l1 l2, d = l1 ++ x :: l2 /\ sel x = true /\ e = f x
                       /\ Forall (fun y => sel y = false) l1.
Proof.
  induction 1 as [|x d Hx Hd IH]; intros e He; [destruct He|].
  assert (N : filter shown d = []).
  { clear -Hd. induction Hd as [|y l Hy _ IHl]; [reflexivity|].
    cbn [filter]. rewrite Hy. exact IHl. }
  cbn [on_first] in He |- *. destruct (sel x) eqn:S.
  - cbn [filter] in He |- *. rewrite N in He |- *.
    destruct (shown (f x)); [|destruct He].
    destruct He as [<-|[]]. split; [reflexivity|].
    exists x, [], d. repeat split; [exact S | constructor].
  - cbn [filter] in He |- *. rewrite Hx in He |- *.
    destruct (IH e He) as [E [y [l1 [l2 [-> [Sy [-> F]]]]]]].
    split; [exact E|]. exists y, (x :: l1), l2.
    repeat split; [exact Sy | constructor; assumption].
Qed.

Lemma on_first_keeps_hidden (sel : element -> bool) (d : document) :
  Forall (fun e => shown e = false) d ->
  Forall (fun e => shown e = false) (on_first sel (add (Js.lit "hidden")) d).
Proof.
  induction 1 as [|x d Hx Hd IH]; [constructor|].
  cbn [on_first]. destruct (sel x); constructor; try assumption.
  unfold shown. rewrite hidden_add. apply andb_false_r.
Qed.

Lemma on_first_found (sel : element -> bool) (f : element -> element)
  (d : document) :
  existsb sel d = true ->
  exists x l1 l2, d = l1 ++ x :: l2 /\ sel x = true
                  /\ Forall (fun y => sel y = false) l1
                  /\ on_first sel f d = l1 ++ f x :: l2.
Proof.
  induction d as [|e d IH]; [discriminate|].
  cbn [existsb on_first]. destruct (sel e) eqn:S.
  - intros _. exists e, [], d. repeat split; [exact S | constructor].
  - cbn [orb]. intros H. destruct (IH H) as [x [l1 [l2 [-> [Sx [F E]]]]]].
    exists x, (e :: l1), l2. rewrite E.
    repeat split; [exact Sx | constructor; assumption].
Qed.

Lemma same_structure_existsb (sel : element -> bool) (d d' : document) :
  (forall e e', id e' = id e -> others e' = others e -> sel e' = sel e) ->
  same_structure d d' -> existsb sel d' = existsb sel d.
Proof.
  intros Hs H. induction H as [|e e' l l' [H1 H2] _ IH]; [reflexivity|].
  cbn [existsb]. rewrite IH, (Hs e e' H1 H2). reflexivity.
Qed.

(** X16: [showSection] changes nothing but the class [hidden].  Without a
    feature grid it throws, after hiding every content section.  With one,
    at most one content section is shown afterwards, and it is the first
    element whose id is the section name followed by [-section]; that
    element, if the document has one, is not hidden. *)
Theorem showSection_shows_one_section (sectionName : Js.str) (d : document) :
  let target := sectionName ++ Js.lit "-section" in
  let d' := fst (showSection sectionName d) in
  same_structure d d'
  /\ (existsb feature_grid d = false ->
        snd (showSection sectionName d) = Some no_grid
        /\ Forall (fun e => shown e = false) d')
  /\ (existsb feature_grid d = true ->
        snd (showSection sectionName d) = None
        /\ length (filter shown d') <= 1
        /\ (forall e, In e (filter shown d') ->
              exists l1 l2, d' = l1 ++ e :: l2 /\ id e = target
                            /\ Forall (fun y => id y <> target) l1)
        /\ (existsb (fun e => Js.str_eqb (id e) target) d = true ->
            exists e, In e d' /\ id e = target /\ hidden e = false)).
Proof.
  cbv zeta. unfold showSection.
  set (target := sectionName ++ Js.lit "-section").
  pose proof (hide_sections_structure d) as S1.
  pose proof (hide_sections_none_shown d) as N1.
  assert (G : existsb feature_grid (hide_sections d) = existsb feature_grid d).
  { apply same_structure_existsb; [|exact S1].
    intros e e' _ H. apply feature_grid_keep. exact H. }
  rewrite G. destruct (existsb feature_grid d) eqn:FG; cbn [fst snd].
  2:{ split; [exact S1|]. split; [intros _; split; [reflexivity | exact N1]|].
      discriminate. }
  set (d2 := on_first feature_grid (add (Js.lit "hidden")) (hide_sections d)).
  assert (S2 : same_structure d d2).
  { apply (same_structure_trans _ _ _ S1). apply on_first_structure.
    intros e. split; [reflexivity | apply others_add]. }
  assert (N2 : Forall (fun e => shown e = false) d2)
    by (apply on_first_keeps_hidden; exact N1).
  set (sel := fun e : element => Js.str_eqb (id e) target).
  assert (S3 : same_structure d (on_first sel (remove (Js.lit "hidden")) d2)).
  { apply (same_structure_trans _ _ _ S2). apply on_first_structure.
    intros e. split; [reflexivity | apply others_remove]. }
  split; [exact S3|]. split; [discriminate|]. intros _.
  split; [reflexivity|]. split; [|split].
  - destruct (filter shown (on_first sel (remove (Js.lit "hidden")) d2))
      as [|e l] eqn:E; [cbn; lia|].
    destruct (on_first_one_shown sel (remove (Js.lit "hidden")) d2 N2 e) as [E' _].
    { rewrite E. left. reflexivity. }
    rewrite E in E'. rewrite E'. cbn. lia.
  - intros e He.
    destruct (on_first_one_shown sel (remove (Js.lit "hidden")) d2 N2 e He)
      as [_ [x [l1 [l2 [Hd [Sx [-> F]]]]]]].
    exists l1, l2. split; [|split].
    + rewrite Hd. clear -F Sx. induction F as [|y l Hy _ IH].
      * cbn. rewrite Sx. reflexivity.
      * cbn [app on_first]. rewrite Hy, IH. reflexivity.
    + apply JsFacts.str_eqb_eq in Sx. exact Sx.
    + eapply Forall_impl; [|exact F]. intros y Hy Ey. unfold sel in Hy.
      rewrite Ey, JsFacts.str_eqb_refl in Hy. discriminate.
  - intros Hex.
    assert (Hex2 : existsb sel d2 = true).
    { rewrite (same_structure_existsb sel d d2); [exact Hex | | exact S2].
      intros e e' H _. unfold sel. rewrite H. reflexivity. }
    destruct (on_first_found sel (remove (Js.lit "hidden")) d2 Hex2)
      as [x [l1 [l2 [_ [Sx [_ E]]]]]].
    exists (remove (Js.lit "hidden") x). split; [|split].
    + rewrite E. apply in_or_app. right. left. reflexivity.
    + apply JsFacts.str_eqb_eq in Sx. exact Sx.
    + apply hidden_remove.
Qed.

(** X17: [showHome] changes nothing but the class [hidden].  Without a
    feature grid it throws, after hiding every content section.  With one,
    the first element of class [feature-grid] is not hidden afterwards, and
    no content section is shown, that element apart. *)
Theorem showHome_shows_the_feature_grid (d : document) :
  let d' := fst (showHome d) in
  same_structure d d'
  /\ (existsb feature_grid d = false ->
        snd (showHome d) = Some no_grid
        /\ Forall (fun e => shown e = false) d')
  /\ (existsb feature_grid d = true ->
        snd (showHome d) = None
        /\ (exists g l1 l2, d' = l1 ++ g :: l2 /\ feature_grid g = true
                            /\ hidden g = false
                            /\ Forall (fun y => feature_grid y = false) l1
                            /\ Forall (fun y => shown y = false) (l1 ++ l2))).
Proof.
  cbv zeta. unfold showHome.
  pose proof (hide_sections_structure d) as S1.
  pose proof (hide_sections_none_shown d) as N1.
  assert (G : existsb feature_grid (hide_sections d) = existsb feature_grid d).
  { apply same_structure_existsb; [|exact S1].
    intros e e' _ H. apply feature_grid_keep. exact H. }
  rewrite G. destruct (existsb feature_grid d) eqn:FG; cbn [fst snd].
  2:{ split; [exact S1|]. split; [intros _; split; [reflexivity | exact N1]|].
      discriminate. }
  split.
  { apply (same_structure_trans _ _ _ S1). apply on_first_structure.
    intros e. split; [reflexivity | apply others_remove]. }
  split; [discriminate|]. intros _. split; [reflexivity|].
  destruct (on_first_found feature_grid (remove (Js.lit "hidden"))
              (hide_sections d) G) as [x [l1 [l2 [Hd [Sx [F E]]]]]].
  exists (remove (Js.lit "hidden") x), l1, l2.
  split; [exact E|]. split; [|split; [apply hidden_remove|split; [exact F|]]].
  - rewrite (feature_grid_keep x); [exact Sx | apply others_remove].
  - rewrite Hd in N1. apply Forall_app in N1. destruct N1 as [A B].
    inversion B; subst. apply Forall_app. split; assumption.
Qed.

End NavigationFacts.

(** ** The formatter on texts cut at their whitespace

    Idempotence of the formatter on the texts without artifact.  A text is
    read as a run of whitespace followed by its other characters, each with
    the whitespace after it, its gap.  The cue steps only rewrite gaps:
    each is a pass over that list ([bridge]).  A second run of the
    formatter, on the output of the first, is followed side by side with
    the first run ([sim]): at every step a gap of the second run is the gap
    of the output, or the gap of the first run at that step, written by
    both. *)

Module GapFacts.
Import Py Llm.

Definition nn : str := break.
Definition sp : str := [32%N].
Definition dot : char := 46%N.

Definition is_nil {A} (l : list A) : bool :=
  match l with [] => true | _ => false end.

Lemma is_nil_eq {A} (l : list A) : is_nil l = true <-> l = [].
Proof. destruct l; cbn; split; congruence. Qed.

(** What the character tables of the interpreter satisfy: whitespace is
    neither alphanumeric nor a digit, and the bullet is neither whitespace
    nor alphanumeric. *)
Definition tables_ok (U : unicode) : Prop :=
  (forall c, is_space U c = true -> is_word U c = false)
  /\ (forall c, is_space U c = true -> is_digit U c = false)
  /\ is_word U bullet = false
  /\ is_space U bullet = false.

Lemma ascii_only_ok : tables_ok ascii_only.
Proof.
  repeat split; try reflexivity; intros c; unfold is_space, is_word, is_digit;
    destruct (N.ltb c 128); cbn [ascii_only u_space u_word u_digit];
    try discriminate; intros H;
    apply orb_true_iff in H; destruct H as [H|H];
    apply andb_true_iff in H; destruct H as [H1 H2];
    apply N.leb_le in H1, H2;
    repeat match goal with
    | |- _ || _ = false => apply orb_false_iff; split
    | |- _ && _ = false => apply andb_false_iff
    end;
    try (left; apply N.leb_gt; lia); try (right; apply N.leb_gt; lia);
    try (apply N.eqb_neq; lia).
Qed.

(** *** The matcher on a pattern that starts with a given item *)

Lemma match_cons_one (f : char -> bool) (pat : list item) (c : char) (s : str) :
  match_here (one f :: pat) (c :: s)
  = if f c then
      match match_here pat s with
      | Some (segs, r) => Some ([c] :: segs, r)
      | None => None
      end
    else None.
Proof.
  cbn [match_here one many cls least run]. destruct (f c); [|reflexivity].
  cbn [Nat.ltb Nat.leb]. rewrite PyFacts.backtrack_eq. cbn [Nat.ltb Nat.leb skipn firstn].
  destruct (match_here pat s) as [[segs r]|]; reflexivity.
Qed.

Lemma match_cons_one_nil (f : char -> bool) (pat : list item) :
  match_here (one f :: pat) [] = None.
Proof. reflexivity. Qed.

Lemma backtrack_none (rest : str -> option (list str * str)) (lo : nat)
  (s : str) : forall k,
  (forall j, j <= k -> rest (skipn j s) = None) ->
  backtrack rest lo s k = None.
Proof.
  induction k as [|k IH]; intros H; rewrite PyFacts.backtrack_eq.
  - destruct (Nat.ltb 0 lo); [reflexivity|].
    rewrite (H 0) by lia. reflexivity.
  - destruct (Nat.ltb (S k) lo); [reflexivity|].
    rewrite (H (S k)) by lia. apply IH. intros j Hj. apply H. lia.
Qed.

Lemma backtrack_top (rest : str -> option (list str * str)) (lo : nat)
  (s : str) (k : nat) :
  (forall j, j < k -> rest (skipn j s) = None) ->
  backtrack rest lo s k
  = if Nat.ltb k lo then None else
    match rest (skipn k s) with
    | Some (segs, r) => Some (firstn k s :: segs, r)
    | None => None
    end.
Proof.
  intros H. rewrite PyFacts.backtrack_eq. destruct (Nat.ltb k lo); [reflexivity|].
  destruct (rest (skipn k s)) as [[segs r]|]; [reflexivity|].
  destruct k as [|k]; [reflexivity|].
  apply backtrack_none. intros j Hj. apply H. lia.
Qed.

Lemma run_stop (f : char -> bool) (g rest : str) :
  Forall (fun w => f w = true) g ->
  match rest with [] => True | c :: _ => f c = false end ->
  run f (g ++ rest) = length g.
Proof.
  intros Hg Hr. rewrite OutputFacts.run_all by exact Hg.
  destruct rest as [|c rest]; cbn; [lia|]. rewrite Hr. lia.
Qed.

Lemma skipn_app_le {A} (j : nat) (a b : list A) :
  j <= length a -> skipn j (a ++ b) = skipn j a ++ b.
Proof.
  intros H. rewrite skipn_app. replace (j - length a) with 0 by lia.
  reflexivity.
Qed.

(** A repeated class followed by a pattern that does not start in the
    class: the repetition takes the whole run. *)
Lemma match_cons_many (f : char -> bool) (lo : nat) (pat : list item)
  (g rest : str) :
  Forall (fun w => f w = true) g ->
  match rest with [] => True | c :: _ => f c = false end ->
  (forall w s', f w = true -> match_here pat (w :: s') = None) ->
  match_here ({| cls := f; least := lo; many := true |} :: pat) (g ++ rest)
  = if Nat.ltb (length g) lo then None else
    match match_here pat rest with
    | Some (segs, r) => Some (g :: segs, r)
    | None => None
    end.
Proof.
  intros Hg Hr Hp. cbn [match_here many cls least].
  rewrite (run_stop f g rest Hg Hr).
  rewrite backtrack_top.
  - rewrite skipn_app_le, skipn_all, firstn_app, Nat.sub_diag, firstn_all by lia.
    cbn [firstn app]. rewrite app_nil_r. reflexivity.
  - intros j Hj. rewrite skipn_app_le by lia.
    assert (exists w g', skipn j g = w :: g' /\ f w = true) as [w [g' [E Hw]]].
    { clear -Hg Hj. revert j Hj. induction Hg as [|x g Hx Hg IH]; intros j Hj.
      - cbn in Hj. lia.
      - destruct j as [|j]; [exists x, g; split; [reflexivity | exact Hx]|].
        cbn [skipn]. apply IH. cbn in Hj. lia. }
    rewrite E. cbn [app]. apply Hp. exact Hw.
Qed.

(** The last item of a pattern, a repeated class. *)
Lemma match_last_many (f : char -> bool) (lo : nat) (g rest : str) :
  Forall (fun w => f w = true) g ->
  match rest with [] => True | c :: _ => f c = false end ->
  match_here [{| cls := f; least := lo; many := true |}] (g ++ rest)
  = if Nat.ltb (length g) lo then None else Some ([g], rest).
Proof.
  intros Hg Hr.
  change [{| cls := f; least := lo; many := true |}] with [at_least lo f].
  rewrite OutputFacts.match_at_least, (run_stop f g rest Hg Hr).
  rewrite skipn_app_le, skipn_all, firstn_app, Nat.sub_diag, firstn_all by lia.
  cbn [firstn app]. rewrite app_nil_r. reflexivity.
Qed.

Lemma match_many_miss (f : char -> bool) (lo : nat) (pat : list item) (s : str) :
  1 <= lo ->
  match s with [] => True | c :: _ => f c = false end ->
  match_here ({| cls := f; least := lo; many := true |} :: pat) s = None.
Proof.
  intros Hlo Hs. cbn [match_here many cls least].
  assert (run f s = 0) as -> by (destruct s as [|c s]; cbn; [|rewrite Hs]; reflexivity).
  rewrite PyFacts.backtrack_eq. destruct (Nat.ltb_spec 0 lo); [reflexivity | lia].
Qed.

Lemma match_literal (w : str) : forall s : str,
  match_here (literal w) s
  = if startswith w s then Some (map (fun c => [c]) w, skipn (length w) s)
    else None.
Proof.
  induction w as [|a w IH]; intros s; [destruct s; reflexivity|].
  change (literal (a :: w)) with (one (chr a) :: literal w).
  destruct s as [|c s]; [reflexivity|].
  rewrite match_cons_one, IH. unfold chr. cbn [startswith map length skipn].
  destruct (N.eqb a c) eqn:E; [|reflexivity]. cbn [andb].
  apply N.eqb_eq in E. subst c.
  destruct (startswith w s); reflexivity.
Qed.

Section Tables.
Variable U : unicode.
Hypothesis HU : tables_ok U.

(** *** Texts as characters with the whitespace that follows them *)

Abbreviation seg := (char * str)%type.

Definition flat (l : list seg) : str :=
  flat_map (fun s => fst s :: snd s) l.

Definition blank (g : str) : Prop := Forall (fun w => is_space U w = true) g.

Definition wf (l : list seg) : Prop :=
  Forall (fun s => is_space U (fst s) = false /\ blank (snd s)) l.

Lemma flat_cons (c : char) (g : str) (l : list seg) :
  flat ((c, g) :: l) = c :: g ++ flat l.
Proof. reflexivity. Qed.

Lemma flat_app (a b : list seg) : flat (a ++ b) = flat a ++ flat b.
Proof. unfold flat. apply flat_map_app. Qed.

Lemma flat_head (l : list seg) :
  wf l -> match flat l with [] => True | c :: _ => is_space U c = false end.
Proof. intros H. destruct H as [|[c g] l [H _] _]; [exact I | exact H]. Qed.

Lemma wf_app (a b : list seg) : wf (a ++ b) <-> wf a /\ wf b.
Proof. apply Forall_app. Qed.

Lemma wf_skipn (n : nat) (l : list seg) : wf l -> wf (skipn n l).
Proof.
  intros H. rewrite <- (firstn_skipn n l) in H. apply wf_app in H. apply H.
Qed.

Lemma wf_firstn (n : nat) (l : list seg) : wf l -> wf (firstn n l).
Proof.
  intros H. rewrite <- (firstn_skipn n l) in H. apply wf_app in H. apply H.
Qed.

(** Every text is a run of whitespace followed by such a list. *)
Fixpoint segments (s : str) : str * list seg :=
  match s with
  | [] => ([], [])
  | c :: s' =>
      let '(g, l) := segments s' in
      if is_space U c then (c :: g, l) else ([], (c, g) :: l)
  end.

Lemma segments_spec (s : str) :
  s = fst (segments s) ++ flat (snd (segments s))
  /\ blank (fst (segments s)) /\ wf (snd (segments s)).
Proof.
  induction s as [|c s [E [B W]]]; [repeat split; constructor|].
  cbn [segments]. destruct (segments s) as [g l]. cbn [fst snd] in *.
  destruct (is_space U c) eqn:C; cbn [fst snd].
  - split; [cbn [app]; f_equal; exact E|].
    split; [constructor; assumption | exact W].
  - split; [cbn [app]; rewrite flat_cons; f_equal; exact E|].
    split; [constructor|].
    constructor; [split; assumption | exact W].
Qed.

(** *** A pass of [re.sub] as a pass over the list *)

(** [hit l] is the block written in place of the first elements of [l]
    when the pattern matches at the head of [l]. *)
Fixpoint gpass (hit : list seg -> option (list seg)) (skip : nat)
  (l : list seg) : list seg :=
  match l with
  | [] => []
  | s :: l' =>
      match skip with
      | S k => gpass hit k l'
      | 0 =>
          match hit l with
          | Some blk => blk ++ gpass hit (length blk - 1) l'
          | None => s :: gpass hit 0 l'
          end
      end
  end.

Lemma gpass_skip (hit : list seg -> option (list seg)) (l : list seg) :
  forall k, gpass hit k l = gpass hit 0 (skipn k l).
Proof.
  induction l as [|s l IH]; intros k; [destruct k; reflexivity|].
  destruct k as [|k]; [reflexivity|]. cbn [gpass skipn]. apply IH.
Qed.

Lemma gpass_nil (hit : list seg -> option (list seg)) : gpass hit 0 [] = [].
Proof. reflexivity. Qed.

Lemma gpass_miss (hit : list seg -> option (list seg)) (s : seg) (l : list seg) :
  hit (s :: l) = None -> gpass hit 0 (s :: l) = s :: gpass hit 0 l.
Proof. intros H. cbn [gpass]. rewrite H. reflexivity. Qed.

Lemma gpass_hit (hit : list seg -> option (list seg)) (l blk : list seg) :
  l <> [] -> hit l = Some blk -> blk <> [] ->
  gpass hit 0 l = blk ++ gpass hit 0 (skipn (length blk) l).
Proof.
  intros Hl H Hb. destruct l as [|s l]; [congruence|].
  destruct blk as [|b blk]; [congruence|].
  cbn [gpass]. rewrite H. cbn [length Nat.sub skipn].
  rewrite Nat.sub_0_r, gpass_skip. reflexivity.
Qed.


Lemma blank_app (a b : str) : blank (a ++ b) <-> blank a /\ blank b.
Proof. apply Forall_app. Qed.

Lemma ltb_length_nil {A} (g : list A) : Nat.ltb (length g) 1 = is_nil g.
Proof. destruct g; reflexivity. Qed.

Lemma space_not (w c : char) :
  is_space U w = true -> is_space U c = false -> N.eqb c w = false.
Proof.
  intros Hw Hc. apply N.eqb_neq. intros ->. congruence.
Qed.

Section Bridge.
Variable pat : list item.
Variable repl : list str -> str.
Variable hit : list seg -> option (list seg).
Hypothesis pos : SubFacts.positive pat.
Hypothesis no_blank :
  forall w s, is_space U w = true -> match_here pat (w :: s) = None.
Hypothesis hit_ok : forall l, wf l -> l <> [] ->
  match hit l with
  | Some blk =>
      blk <> [] /\ length blk <= length l /\ wf blk
      /\ sub pat repl (flat l)
         = flat blk ++ sub pat repl (flat (skipn (length blk) l))
  | None => match_here pat (flat l) = None
  end.

Lemma sub_blank (g s : str) :
  blank g -> sub pat repl (g ++ s) = g ++ sub pat repl s.
Proof.
  induction 1 as [|w g Hw Hg IH]; [reflexivity|].
  cbn [app]. rewrite SubFacts.sub_copy by (apply no_blank; exact Hw).
  rewrite IH. reflexivity.
Qed.

Lemma bridge_len (n : nat) : forall l, length l <= n -> wf l ->
  sub pat repl (flat l) = flat (gpass hit 0 l) /\ wf (gpass hit 0 l).
Proof.
  induction n as [|n IH]; intros l Hn W.
  - destruct l; [|cbn in Hn; lia]. cbn [flat flat_map gpass].
    rewrite SubFacts.sub_nil by exact pos. split; [reflexivity | constructor].
  - destruct l as [|[c g] l'].
    + cbn [flat flat_map gpass]. rewrite SubFacts.sub_nil by exact pos.
      split; [reflexivity | constructor].
    + pose proof (hit_ok ((c, g) :: l') W ltac:(discriminate)) as H.
      destruct (hit ((c, g) :: l')) as [blk|] eqn:E.
      * destruct H as [Hb [Hl [Wb Hs]]].
        rewrite (gpass_hit hit ((c, g) :: l') blk ltac:(discriminate) E Hb), Hs,
          flat_app.
        assert (length (skipn (length blk) ((c, g) :: l')) <= n) as Hk.
        { rewrite length_skipn. cbn [length] in *.
          destruct blk; [congruence|]. cbn [length]. lia. }
        destruct (IH _ Hk (wf_skipn _ _ W)) as [-> W'].
        split; [reflexivity|]. apply wf_app. split; assumption.
      * rewrite (gpass_miss hit _ _ E), !flat_cons. rewrite flat_cons in H.
        inversion W as [|? ? [Hc Hg] W']; subst. cbn [fst snd] in *.
        rewrite (SubFacts.sub_copy pat repl c _ H), sub_blank by exact Hg.
        destruct (IH l' ltac:(cbn in Hn; lia) W') as [-> W''].
        split; [reflexivity|]. constructor; [split; assumption | exact W''].
Qed.

Lemma bridge (g0 : str) (l : list seg) :
  blank g0 -> wf l ->
  sub pat repl (g0 ++ flat l) = g0 ++ flat (gpass hit 0 l).
Proof.
  intros B W. rewrite sub_blank by exact B.
  rewrite (proj1 (bridge_len (length l) l (le_n _) W)). reflexivity.
Qed.

Lemma gpass_wf (l : list seg) : wf l -> wf (gpass hit 0 l).
Proof. intros W. apply (bridge_len (length l) l (le_n _) W). Qed.

(** A match at the head of the list, in the terms of [hit_ok]. *)
Lemma sub_at_hit (l blk rest : list seg) (segs : list str) (glast : str) :
  l <> [] ->
  match_here pat (flat l) = Some (segs, glast ++ flat rest) ->
  blank glast -> flat blk = repl segs ++ glast ->
  sub pat repl (flat l) = flat blk ++ sub pat repl (flat rest).
Proof.
  intros Hl M B E. destruct l as [|[c g] l']; [congruence|].
  rewrite flat_cons in *.
  destruct (SubFacts.sub_match pat repl _ _ _ _ pos M) as [-> _].
  rewrite sub_blank by exact B. rewrite E, <- app_assoc. reflexivity.
Qed.

End Bridge.

(** *** The four cue patterns on the list *)

(** [(\w)\s+({letter}\.\s+\w)] *)
Definition hit_A (L : char) (l : list seg) : option (list seg) :=
  match l with
  | (c, g) :: (c1, g1) :: (c2, g2) :: (c3, g3) :: _ =>
      if is_word U c && N.eqb L c1 && N.eqb dot c2 && is_word U c3
         && negb (is_nil g) && is_nil g1 && negb (is_nil g2)
      then Some [(c, nn); (c1, g1); (c2, g2); (c3, g3)]
      else None
  | _ => None
  end.

(** [(\S)\s*•\s*] *)
Definition hit_B (l : list seg) : option (list seg) :=
  match l with
  | (c, g) :: (c1, g1) :: _ =>
      if N.eqb bullet c1 then Some [(c, nn); (c1, sp)] else None
  | _ => None
  end.

(** [(\d+)\.\s+]: the digits, with nothing between them, the dot and the
    whitespace after it. *)
Fixpoint digits_dot (seen : bool) (l : list seg) : option (list seg) :=
  match l with
  | [] => None
  | (c, g) :: l' =>
      if is_digit U c then
        if is_nil g then
          match digits_dot true l' with
          | Some blk => Some ((c, g) :: blk)
          | None => None
          end
        else None
      else if seen && N.eqb dot c && negb (is_nil g) then Some [(c, sp)]
      else None
  end.

(** [(\w)\s+(\d+)\.\s+] *)
Definition hit_N (l : list seg) : option (list seg) :=
  match l with
  | (c, g) :: l' =>
      if is_word U c && negb (is_nil g) then
        match digits_dot false l' with
        | Some blk => Some ((c, nn) :: blk)
        | None => None
        end
      else None
  | [] => None
  end.

(** The label, cut like the text, at the head of the list: the characters
    and the whitespace between them are those of the label. *)
Fixpoint lab_at (lab l : list seg) : bool :=
  match lab, l with
  | [], _ => true
  | _ :: _, [] => false
  | (a, ga) :: lab', (c, g) :: l' =>
      N.eqb a c
      && match lab' with
         | [] => true
         | _ :: _ => str_eqb ga g && lab_at lab' l'
         end
  end.

(** [(\w)\s+({label})] *)
Definition hit_L (lab l : list seg) : option (list seg) :=
  match l with
  | (c, g) :: l' =>
      if is_word U c && negb (is_nil g) && lab_at lab l'
      then Some ((c, nn) :: firstn (length lab) l')
      else None
  | [] => None
  end.

Lemma wf_nn (c : char) (l : list seg) :
  is_space U c = false -> wf l -> wf ((c, nn) :: l).
Proof.
  intros Hc W. constructor; [|exact W]. split; [exact Hc|].
  repeat constructor.
Qed.

Lemma wf_sp (c : char) (l : list seg) :
  is_space U c = false -> wf l -> wf ((c, sp) :: l).
Proof.
  intros Hc W. constructor; [|exact W]. split; [exact Hc|].
  repeat constructor.
Qed.

Lemma word_not_space (c : char) : is_word U c = true -> is_space U c = false.
Proof.
  intros H. destruct (is_space U c) eqn:E; [|reflexivity].
  rewrite (proj1 HU c E) in H. discriminate.
Qed.

Lemma no_blank_word (pat : list item) (w : char) (s : str) :
  is_space U w = true -> match_here (one (is_word U) :: pat) (w :: s) = None.
Proof.
  intros H. rewrite match_cons_one, (proj1 HU w H). reflexivity.
Qed.

Lemma no_blank_chr (a : char) (pat : list item) (w : char) (s : str) :
  is_space U a = false -> is_space U w = true ->
  match_here (one (chr a) :: pat) (w :: s) = None.
Proof.
  intros Ha H. rewrite match_cons_one. unfold chr.
  rewrite (space_not w a H Ha). reflexivity.
Qed.

Lemma dot_not_space : is_space U dot = false.
Proof. reflexivity. Qed.

Ltac split_ifs :=
  repeat match goal with
  | |- context [if ?b then _ else _] => destruct b
  end.

(** The subsection pattern. *)
Section LetterPass.
Variable L : char.
Hypothesis HL : is_space U L = false.

Definition repl_A (segs : list str) : str :=
  group 0 1 segs ++ break ++ group 2 6 segs.

Lemma hit_A_ok (l : list seg) : wf l -> l <> [] ->
  match hit_A L l with
  | Some blk =>
      blk <> [] /\ length blk <= length l /\ wf blk
      /\ sub (subsection_pat U L) repl_A (flat l)
         = flat blk ++ sub (subsection_pat U L) repl_A
                         (flat (skipn (length blk) l))
  | None => match_here (subsection_pat U L) (flat l) = None
  end.
Proof.
  intros W Hl. destruct l as [|[c g] l1]; [congruence|].
  inversion W as [|? ? [Hc Hg] W1]; subst. cbn [fst snd] in *.
  assert (M : match_here (subsection_pat U L) (flat ((c, g) :: l1))
              = if is_word U c then
                  if is_nil g then None else
                  match match_here [one (chr L); one (chr dot);
                                    plus (is_space U); one (is_word U)]
                          (flat l1) with
                  | Some (segs, r) => Some ([c] :: g :: segs, r)
                  | None => None
                  end
                else None).
  { rewrite flat_cons. unfold subsection_pat. rewrite match_cons_one.
    destruct (is_word U c); [|reflexivity].
    change (plus (is_space U))
      with {| cls := is_space U; least := 1; many := true |}.
    rewrite match_cons_many;
      [| exact Hg | apply flat_head; exact W1
       | intros w s' Hw; apply no_blank_chr; assumption].
    rewrite ltb_length_nil.
    destruct (is_nil g); [reflexivity|].
    destruct (match_here _ (flat l1)) as [[segs r]|]; reflexivity. }
  destruct l1 as [|[c1 g1] l2].
  { cbn [hit_A]. rewrite M. change (flat []) with (@nil char).
    rewrite match_cons_one_nil. split_ifs; reflexivity. }
  inversion W1 as [|? ? [Hc1 Hg1] W2]; subst. cbn [fst snd] in *.
  assert (M1 : match_here [one (chr L); one (chr dot); plus (is_space U);
                           one (is_word U)] (flat ((c1, g1) :: l2))
               = if N.eqb L c1 then
                   if is_nil g1 then
                     match match_here [one (chr dot); plus (is_space U);
                                       one (is_word U)] (flat l2) with
                     | Some (segs, r) => Some ([c1] :: segs, r)
                     | None => None
                     end
                   else None
                 else None).
  { rewrite flat_cons, match_cons_one. unfold chr at 1.
    destruct (N.eqb L c1); [|reflexivity].
    destruct g1 as [|w g1]; cbn [is_nil app].
    - destruct (match_here _ (flat l2)) as [[segs r]|]; reflexivity.
    - inversion Hg1; subst.
      rewrite no_blank_chr by (try apply dot_not_space; assumption).
      reflexivity. }
  destruct l2 as [|[c2 g2] l3].
  { cbn [hit_A]. rewrite M, M1. change (flat []) with (@nil char).
    rewrite match_cons_one_nil. split_ifs; reflexivity. }
  inversion W2 as [|? ? [Hc2 Hg2] W3]; subst. cbn [fst snd] in *.
  assert (M2 : match_here [one (chr dot); plus (is_space U); one (is_word U)]
                 (flat ((c2, g2) :: l3))
               = if N.eqb dot c2 then
                   if is_nil g2 then None else
                   match match_here [one (is_word U)] (flat l3) with
                   | Some (segs, r) => Some ([c2] :: g2 :: segs, r)
                   | None => None
                   end
                 else None).
  { rewrite flat_cons, match_cons_one. unfold chr at 1.
    destruct (N.eqb dot c2); [|reflexivity].
    change (plus (is_space U))
      with {| cls := is_space U; least := 1; many := true |}.
    rewrite match_cons_many;
      [| exact Hg2 | apply flat_head; exact W3
       | intros w s' Hw; apply no_blank_word; assumption].
    rewrite ltb_length_nil.
    destruct (is_nil g2); [reflexivity|].
    destruct (match_here _ (flat l3)) as [[segs r]|]; reflexivity. }
  destruct l3 as [|[c3 g3] l4].
  { cbn [hit_A]. rewrite M, M1, M2. change (flat []) with (@nil char).
    rewrite match_cons_one_nil. split_ifs; reflexivity. }
  inversion W3 as [|? ? [Hc3 Hg3] W4]; subst. cbn [fst snd] in *.
  assert (M3 : match_here [one (is_word U)] (flat ((c3, g3) :: l4))
               = if is_word U c3 then Some ([[c3]], g3 ++ flat l4) else None).
  { rewrite flat_cons. apply PyFacts.match_one. }
  cbn [hit_A].
  destruct (is_word U c) eqn:Wc; cbn [andb]; [|exact M].
  destruct (N.eqb L c1) eqn:E1; cbn [andb];
    [|rewrite M, M1; split_ifs; reflexivity].
  destruct (N.eqb dot c2) eqn:E2; cbn [andb];
    [|rewrite M, M1, M2; split_ifs; reflexivity].
  destruct (is_word U c3) eqn:W3c; cbn [andb];
    [|rewrite M, M1, M2, M3; split_ifs; reflexivity].
  destruct (is_nil g) eqn:N0; cbn [andb negb]; [exact M|].
  destruct (is_nil g1) eqn:N1; cbn [andb negb];
    [|rewrite M, M1; reflexivity].
  destruct (is_nil g2) eqn:N2; cbn [andb negb];
    [rewrite M, M1, M2; reflexivity|].
  split; [discriminate|]. split; [cbn; lia|]. split.
  { apply wf_nn; [exact Hc|]. repeat (constructor; [split; assumption|]).
    constructor. }
  apply is_nil_eq in N1. subst g1.
  apply (sub_at_hit (subsection_pat U L) repl_A) with
    (segs := [[c]; g; [c1]; [c2]; g2; [c3]]) (glast := g3).
  - left. cbn. lia.
  - intros w s Hw. apply no_blank_word. exact Hw.
  - discriminate.
  - rewrite M, M1, M2, M3. reflexivity.
  - exact Hg3.
  - cbn. rewrite app_nil_r, <- ?app_assoc. reflexivity.
Qed.

End LetterPass.

(** The bullet pattern. *)
Definition repl_B (segs : list str) : str :=
  group 0 1 segs ++ break ++ [bullet; 32%N].

Lemma hit_B_ok (l : list seg) : wf l -> l <> [] ->
  match hit_B l with
  | Some blk =>
      blk <> [] /\ length blk <= length l /\ wf blk
      /\ sub (bullet_pat U) repl_B (flat l)
         = flat blk ++ sub (bullet_pat U) repl_B (flat (skipn (length blk) l))
  | None => match_here (bullet_pat U) (flat l) = None
  end.
Proof.
  intros W Hl. destruct l as [|[c g] l1]; [congruence|].
  inversion W as [|? ? [Hc Hg] W1]; subst. cbn [fst snd] in *.
  assert (Hb : is_space U bullet = false) by apply HU.
  assert (M : match_here (bullet_pat U) (flat ((c, g) :: l1))
              = match match_here [one (chr bullet); star (is_space U)]
                        (flat l1) with
                | Some (segs, r) => Some ([c] :: g :: segs, r)
                | None => None
                end).
  { rewrite flat_cons. unfold bullet_pat. rewrite match_cons_one.
    unfold not_space at 1. rewrite Hc. cbn [negb].
    change (star (is_space U))
      with {| cls := is_space U; least := 0; many := true |} at 1.
    rewrite match_cons_many;
      [| exact Hg | apply flat_head; exact W1
       | intros w s' Hw; apply no_blank_chr; assumption].
    cbn [Nat.ltb Nat.leb].
    destruct (match_here _ (flat l1)) as [[segs r]|]; reflexivity. }
  destruct l1 as [|[c1 g1] l2].
  { cbn [hit_B]. rewrite M. reflexivity. }
  inversion W1 as [|? ? [Hc1 Hg1] W2]; subst. cbn [fst snd] in *.
  assert (M1 : match_here [one (chr bullet); star (is_space U)]
                 (flat ((c1, g1) :: l2))
               = if N.eqb bullet c1 then Some ([[c1]; g1], flat l2) else None).
  { rewrite flat_cons, match_cons_one. unfold chr at 1.
    destruct (N.eqb bullet c1); [|reflexivity].
    change (star (is_space U))
      with {| cls := is_space U; least := 0; many := true |}.
    rewrite match_last_many; [reflexivity | exact Hg1 | apply flat_head; exact W2]. }
  cbn [hit_B]. destruct (N.eqb bullet c1) eqn:E; [|rewrite M, M1; reflexivity].
  split; [discriminate|]. split; [cbn; lia|]. split.
  { apply wf_nn; [exact Hc|]. apply wf_sp; [exact Hc1 | constructor]. }
  apply (sub_at_hit (bullet_pat U) repl_B) with
    (segs := [[c]; g; [c1]; g1]) (glast := []).
  - left. cbn. lia.
  - intros w s Hw. unfold bullet_pat. rewrite match_cons_one.
    unfold not_space. rewrite Hw. reflexivity.
  - discriminate.
  - rewrite M, M1. reflexivity.
  - constructor.
  - apply N.eqb_eq in E. subst c1. reflexivity.
Qed.

(** The numbered-list pattern. *)
Definition repl_N (segs : list str) : str :=
  group 0 1 segs ++ break ++ group 2 3 segs ++ lit ". ".

Definition tail_N : list item :=
  [plus (is_digit U); one (chr dot); plus (is_space U)].

Lemma no_digit_dot (pat : list item) (w : char) (s : str) :
  is_digit U w = true -> match_here (one (chr dot) :: pat) (w :: s) = None.
Proof.
  intros H. rewrite match_cons_one. unfold chr.
  destruct (N.eqb_spec dot w) as [<-|]; [|reflexivity].
  discriminate H.
Qed.

Lemma digits_dot_ok (l : list seg) : wf l -> forall (D : str),
  Forall (fun d => is_digit U d = true) D ->
  match digits_dot (negb (is_nil D)) l with
  | Some blk =>
      blk <> [] /\ length blk <= length l /\ wf blk
      /\ exists D' g2,
           match_here tail_N (D ++ flat l)
           = Some ([D ++ D'; [dot]; g2], flat (skipn (length blk) l))
           /\ flat blk = D' ++ dot :: sp
  | None => match_here tail_N (D ++ flat l) = None
  end.
Proof.
  unfold tail_N.
  change (plus (is_digit U))
    with {| cls := is_digit U; least := 1; many := true |}.
  induction l as [|[c g] l IH]; intros W D HD.
  - cbn [digits_dot flat flat_map].
    rewrite match_cons_many;
      [| exact HD | exact I | intros; apply no_digit_dot; assumption].
    destruct (Nat.ltb (length D) 1); reflexivity.
  - inversion W as [|? ? [Hc Hg] W1]; subst. cbn [fst snd] in *.
    cbn [digits_dot]. destruct (is_digit U c) eqn:Dc.
    + destruct g as [|w g]; cbn [is_nil].
      * specialize (IH W1 (D ++ [c])).
        replace (negb (is_nil (D ++ [c]))) with true in IH
          by (destruct D; reflexivity).
        rewrite flat_cons. cbn [app].
        replace (D ++ c :: flat l) with ((D ++ [c]) ++ flat l)
          by (rewrite <- app_assoc; reflexivity).
        assert (HD' : Forall (fun d => is_digit U d = true) (D ++ [c]))
          by (apply Forall_app; split; [exact HD | repeat constructor; exact Dc]).
        specialize (IH HD').
        destruct (digits_dot true l) as [blk|]; [|exact IH].
        destruct IH as [Hb [Hl [Wb [D' [g2 [M E]]]]]].
        split; [discriminate|]. split; [cbn [length]; lia|]. split.
        { constructor; [split; [exact Hc | constructor] | exact Wb]. }
        exists (c :: D'), g2. split.
        -- rewrite M. cbn [length skipn]. rewrite <- app_assoc. reflexivity.
        -- rewrite flat_cons, E. reflexivity.
      * rewrite flat_cons.
        replace (D ++ c :: (w :: g) ++ flat l)
          with ((D ++ [c]) ++ (w :: g ++ flat l))
          by (rewrite <- app_assoc; reflexivity).
        inversion Hg; subst.
        rewrite match_cons_many;
          [| apply Forall_app; split; [exact HD | repeat constructor; exact Dc]
           | apply HU; assumption
           | intros; apply no_digit_dot; assumption].
        rewrite no_blank_chr by (try apply dot_not_space; assumption).
        destruct (Nat.ltb _ 1); reflexivity.
    + rewrite flat_cons.
      rewrite match_cons_many;
        [| exact HD | exact Dc | intros; apply no_digit_dot; assumption].
      rewrite ltb_length_nil, match_cons_one.
      change (chr dot c) with (N.eqb dot c).
      change [plus (is_space U)]
        with [{| cls := is_space U; least := 1; many := true |}].
      rewrite match_last_many; [| exact Hg | apply flat_head; exact W1].
      rewrite ltb_length_nil.
      destruct (is_nil D); cbn [negb andb]; [reflexivity|].
      destruct (N.eqb dot c) eqn:E; cbn [andb]; [|reflexivity].
      destruct (is_nil g); cbn [negb]; [reflexivity|].
      split; [discriminate|]. split; [cbn [length]; lia|]. split.
      { apply wf_sp; [exact Hc | constructor]. }
      exists [], g. apply N.eqb_eq in E. subst c.
      split; [rewrite app_nil_r; reflexivity | reflexivity].
Qed.

Lemma hit_N_ok (l : list seg) : wf l -> l <> [] ->
  match hit_N l with
  | Some blk =>
      blk <> [] /\ length blk <= length l /\ wf blk
      /\ sub (numbered_pat U) repl_N (flat l)
         = flat blk ++ sub (numbered_pat U) repl_N (flat (skipn (length blk) l))
  | None => match_here (numbered_pat U) (flat l) = None
  end.
Proof.
  intros W Hl. destruct l as [|[c g] l1]; [congruence|].
  inversion W as [|? ? [Hc Hg] W1]; subst. cbn [fst snd] in *.
  assert (M : match_here (numbered_pat U) (flat ((c, g) :: l1))
              = if is_word U c then
                  if is_nil g then None else
                  match match_here tail_N (flat l1) with
                  | Some (segs, r) => Some ([c] :: g :: segs, r)
                  | None => None
                  end
                else None).
  { rewrite flat_cons. unfold numbered_pat. rewrite match_cons_one.
    destruct (is_word U c); [|reflexivity].
    change (plus (is_space U))
      with {| cls := is_space U; least := 1; many := true |} at 1.
    rewrite match_cons_many;
      [| exact Hg | apply flat_head; exact W1 |].
    - rewrite ltb_length_nil. destruct (is_nil g); [reflexivity|].
      change [plus (is_digit U); one (chr 46%N); plus (is_space U)]
        with tail_N.
      destruct (match_here tail_N (flat l1)) as [[segs r]|]; reflexivity.
    - intros w s' Hw. apply match_many_miss; [cbn; lia|].
      apply HU. exact Hw. }
  pose proof (digits_dot_ok l1 W1 [] (Forall_nil _)) as H.
  cbn [is_nil negb app] in H. cbn [hit_N].
  destruct (is_word U c) eqn:Wc; cbn [andb]; [|exact M].
  destruct (is_nil g) eqn:N0; cbn [negb]; [exact M|].
  destruct (digits_dot false l1) as [blk|];
    [|rewrite M, H; reflexivity].
  destruct H as [Hb [Hlen [Wb [D' [g2 [M1 E]]]]]].
  split; [discriminate|]. split; [cbn [length]; lia|]. split.
  { apply wf_nn; assumption. }
  apply (sub_at_hit (numbered_pat U) repl_N) with
    (segs := [[c]; g; D'; [dot]; g2]) (glast := []).
  - left. cbn. lia.
  - intros w s Hw. apply no_blank_word. exact Hw.
  - discriminate.
  - rewrite M, M1. reflexivity.
  - constructor.
  - rewrite flat_cons, E. cbn. rewrite !app_nil_r. reflexivity.
Qed.

(** The label pattern. *)
Definition repl_L (segs : list str) : str :=
  group 0 1 segs ++ break ++ group 2 (length segs) segs.

(** A label cut like a text: at least one character, nothing after the
    last one. *)
Definition label_shape (lab : list seg) : Prop :=
  wf lab /\ lab <> [] /\ snd (last lab (0%N, [])) = [].

Lemma startswith_gap (ga : str) : forall (g X Y : str),
  blank ga -> blank g ->
  match X with [] => False | x :: _ => is_space U x = false end ->
  match Y with [] => True | y :: _ => is_space U y = false end ->
  startswith (ga ++ X) (g ++ Y) = str_eqb ga g && startswith X Y.
Proof.
  induction ga as [|v ga IH]; intros g X Y Ba Bg HX HY.
  - destruct g as [|w g]; [reflexivity|].
    destruct X as [|x X]; [contradiction|]. inversion Bg; subst.
    cbn. rewrite (space_not w x) by assumption. reflexivity.
  - inversion Ba; subst. destruct g as [|w g].
    + cbn [app str_eqb andb]. destruct Y as [|y Y]; [reflexivity|].
      cbn [startswith]. rewrite N.eqb_sym, (space_not v y) by assumption.
      reflexivity.
    + inversion Bg; subst. cbn [app startswith str_eqb].
      rewrite IH by assumption. apply andb_assoc.
Qed.

Lemma last_cons_cons {A} (a b : A) (l : list A) (d : A) :
  last (a :: b :: l) d = last (b :: l) d.
Proof. reflexivity. Qed.

Lemma startswith_flat (lab : list seg) : forall l : list seg,
  wf lab -> snd (last lab (0%N, [])) = [] -> wf l ->
  startswith (flat lab) (flat l) = lab_at lab l.
Proof.
  induction lab as [|[a ga] lab IH]; intros l Wlab Hlast W.
  - destruct l; reflexivity.
  - inversion Wlab as [|? ? [Ha Hga] Wlab']; subst. cbn [fst snd] in *.
    destruct l as [|[c g] l]; [reflexivity|].
    inversion W as [|? ? [Hc Hg] W']; subst. cbn [fst snd] in *.
    rewrite !flat_cons. cbn [startswith lab_at]. f_equal.
    destruct lab as [|[b gb] lab].
    + cbn in Hlast. subst ga. reflexivity.
    + rewrite last_cons_cons in Hlast.
      rewrite startswith_gap; try assumption.
      * rewrite IH by assumption. reflexivity.
      * inversion Wlab' as [|? ? [Hb _] _]; subst. exact Hb.
      * apply flat_head. exact W'.
Qed.

Lemma lab_at_split (lab : list seg) : forall l : list seg,
  lab <> [] -> snd (last lab (0%N, [])) = [] -> wf l ->
  lab_at lab l = true ->
  length lab <= length l
  /\ exists glast, blank glast
       /\ flat (firstn (length lab) l) = flat lab ++ glast.
Proof.
  induction lab as [|[a ga] lab IH]; intros l Hne Hlast W H; [congruence|].
  destruct l as [|[c g] l]; [discriminate|].
  inversion W as [|? ? [Hc Hg] W']; subst. cbn [fst snd] in *.
  cbn [lab_at] in H. apply andb_true_iff in H. destruct H as [E H].
  apply N.eqb_eq in E. subst c.
  destruct lab as [|[b gb] lab].
  - cbn in Hlast. subst ga. split; [cbn; lia|].
    exists g. split; [exact Hg|]. cbn. rewrite app_nil_r. reflexivity.
  - apply andb_true_iff in H. destruct H as [E H].
    apply RagFacts.py_str_eqb_eq in E. subst g.
    rewrite last_cons_cons in Hlast.
    destruct (IH l ltac:(discriminate) Hlast W' H) as [Hlen [glast [B F]]].
    split; [cbn [length] in *; lia|].
    exists glast. split; [exact B|].
    change (length ((a, ga) :: (b, gb) :: lab)) with (S (length ((b, gb) :: lab))).
    cbn [firstn].
    rewrite (flat_cons a ga (firstn _ l)), (flat_cons a ga ((b, gb) :: lab)), F.
    cbn [app]. rewrite <- app_assoc. reflexivity.
Qed.

Lemma concat_singletons (w : str) : concat (map (fun c => [c]) w) = w.
Proof. induction w as [|c w IH]; [reflexivity|]. cbn. rewrite IH. reflexivity. Qed.

Lemma hit_L_ok (lab : list seg) (l : list seg) :
  label_shape lab -> wf l -> l <> [] ->
  match hit_L lab l with
  | Some blk =>
      blk <> [] /\ length blk <= length l /\ wf blk
      /\ sub (label_pat U (flat lab)) repl_L (flat l)
         = flat blk ++ sub (label_pat U (flat lab)) repl_L
                         (flat (skipn (length blk) l))
  | None => match_here (label_pat U (flat lab)) (flat l) = None
  end.
Proof.
  intros [Wlab [Hne Hlast]] W Hl. destruct l as [|[c g] l1]; [congruence|].
  inversion W as [|? ? [Hc Hg] W1]; subst. cbn [fst snd] in *.
  assert (M : match_here (label_pat U (flat lab)) (flat ((c, g) :: l1))
              = if is_word U c then
                  if is_nil g then None else
                  if lab_at lab l1
                  then Some ([c] :: g :: map (fun a => [a]) (flat lab),
                             skipn (length (flat lab)) (flat l1))
                  else None
                else None).
  { rewrite flat_cons. unfold label_pat. cbn [app].
    rewrite match_cons_one. destruct (is_word U c); [|reflexivity].
    change (plus (is_space U))
      with {| cls := is_space U; least := 1; many := true |}.
    rewrite match_cons_many;
      [| exact Hg | apply flat_head; exact W1 |].
    - rewrite ltb_length_nil. destruct (is_nil g); [reflexivity|].
      rewrite match_literal, startswith_flat by assumption.
      destruct (lab_at lab l1); reflexivity.
    - intros w s' Hw. destruct lab as [|[a ga] lab']; [congruence|].
      rewrite flat_cons.
      change (literal (a :: ga ++ flat lab'))
        with (one (chr a) :: literal (ga ++ flat lab')).
      apply no_blank_chr; [|exact Hw].
      inversion Wlab as [|? ? [Ha _] _]; subst. exact Ha. }
  cbn [hit_L].
  destruct (is_word U c) eqn:Wc; cbn [andb]; [|exact M].
  destruct (is_nil g) eqn:N0; cbn [negb]; [exact M|].
  destruct (lab_at lab l1) eqn:A; [|exact M].
  destruct (lab_at_split lab l1 Hne Hlast W1 A) as [Hlen [glast [B F]]].
  split; [discriminate|]. split; [cbn [length]; rewrite length_firstn; lia|].
  split.
  { apply wf_nn; [exact Hc | apply wf_firstn; exact W1]. }
  apply (sub_at_hit (label_pat U (flat lab)) repl_L) with
    (segs := [c] :: g :: map (fun a => [a]) (flat lab)) (glast := glast).
  - left. cbn. lia.
  - intros w s Hw. unfold label_pat. cbn [app]. apply no_blank_word. exact Hw.
  - discriminate.
  - rewrite M. f_equal. f_equal.
    cbn [length]. rewrite length_firstn, Nat.min_l by exact Hlen.
    cbn [skipn].
    rewrite <- (firstn_skipn (length lab) l1) at 1.
    rewrite flat_app, F, <- app_assoc, skipn_app, skipn_all, Nat.sub_diag.
    reflexivity.
  - exact B.
  - rewrite flat_cons, F. unfold repl_L, group. cbn [length skipn firstn concat Nat.sub app].
    rewrite Nat.sub_0_r. rewrite firstn_all, concat_singletons.
    cbn. rewrite <- ?app_assoc. reflexivity.
Qed.

(** *** Two runs side by side *)

(** Two lists with the same characters, related gap by gap; the relation
    sees the characters that follow. *)
Inductive crel (R : char -> list char -> str -> str -> Prop)
  : list seg -> list seg -> Prop :=
| crel_nil : crel R [] []
| crel_cons (c : char) (g g' : str) (l l' : list seg) :
    R c (map fst l) g g' -> crel R l l' ->
    crel R ((c, g) :: l) ((c, g') :: l').

Inductive crel3 (P : char -> list char -> str -> str -> str -> Prop)
  : list seg -> list seg -> list seg -> Prop :=
| crel3_nil : crel3 P [] [] []
| crel3_cons (c : char) (gt gu gy : str) (t u y : list seg) :
    P c (map fst t) gt gu gy -> crel3 P t u y ->
    crel3 P ((c, gt) :: t) ((c, gu) :: u) ((c, gy) :: y).

Lemma crel_chars R (l l' : list seg) : crel R l l' -> map fst l' = map fst l.
Proof. induction 1; cbn; congruence. Qed.

Lemma crel_length R (l l' : list seg) : crel R l l' -> length l' = length l.
Proof. induction 1; cbn; congruence. Qed.

Lemma crel_impl (R R' : char -> list char -> str -> str -> Prop)
  (l l' : list seg) :
  (forall c n g g', R c n g g' -> R' c n g g') -> crel R l l' -> crel R' l l'.
Proof. intros H. induction 1; constructor; auto. Qed.

Lemma crel_refl (R : char -> list char -> str -> str -> Prop) (l : list seg) :
  (forall c n g, R c n g g) -> crel R l l.
Proof. intros H. induction l as [|[c g] l IH]; constructor; auto. Qed.

Lemma crel_trans (R1 R2 R3 : char -> list char -> str -> str -> Prop)
  (a b d : list seg) :
  (forall c n x y z, R1 c n x y -> R2 c n y z -> R3 c n x z) ->
  crel R1 a b -> crel R2 b d -> crel R3 a d.
Proof.
  intros H H1. revert d. induction H1 as [|c g g' l l' Hr H1 IH]; intros d H2.
  - inversion H2; subst. constructor.
  - inversion H2 as [|? ? g'' ? l'' Hr2 H2']; subst. constructor.
    + rewrite (crel_chars _ _ _ H1) in Hr2. eapply H; eassumption.
    + apply IH. exact H2'.
Qed.

(** The relation holds with more characters behind. *)
Definition mono (R : char -> list char -> str -> str -> Prop) : Prop :=
  forall c n m g g', R c n g g' -> R c (n ++ m) g g'.

Lemma crel_app (R : char -> list char -> str -> str -> Prop)
  (a a' b b' : list seg) :
  mono R -> crel R a a' -> crel R b b' -> crel R (a ++ b) (a' ++ b').
Proof.
  intros M Ha Hb. induction Ha as [|c g g' l l' Hr Ha IH]; [exact Hb|].
  cbn [app]. constructor; [|exact IH]. rewrite map_app. apply M. exact Hr.
Qed.

Lemma crel3_length P (t u y : list seg) :
  crel3 P t u y -> length u = length t /\ length y = length t.
Proof. induction 1 as [|? ? ? ? ? ? ? ? ? [IH1 IH2]]; cbn; split; congruence. Qed.

Lemma crel3_impl (P Q : char -> list char -> str -> str -> str -> Prop)
  (t u y : list seg) :
  (forall c n a b d, P c n a b d -> Q c n a b d) ->
  crel3 P t u y -> crel3 Q t u y.
Proof. intros H. induction 1; constructor; auto. Qed.

Lemma crel3_skipn P (k : nat) : forall t u y : list seg,
  crel3 P t u y -> crel3 P (skipn k t) (skipn k u) (skipn k y).
Proof.
  induction k as [|k IH]; intros t u y H; [exact H|].
  destruct H; [constructor|]. cbn [skipn]. apply IH. assumption.
Qed.

Lemma crel3_firstn (Q : char -> str -> str -> str -> Prop) (k : nat) :
  forall t u y : list seg,
  crel3 (fun c _ => Q c) t u y ->
  crel3 (fun c _ => Q c) (firstn k t) (firstn k u) (firstn k y).
Proof.
  induction k as [|k IH]; intros t u y H; [constructor|].
  destruct H; [constructor|]. cbn [firstn]. constructor; [assumption|].
  apply IH. assumption.
Qed.

Lemma crel3_app (Q : char -> str -> str -> str -> Prop)
  (a b d a' b' d' : list seg) :
  crel3 (fun c _ => Q c) a b d -> crel3 (fun c _ => Q c) a' b' d' ->
  crel3 (fun c _ => Q c) (a ++ a') (b ++ b') (d ++ d').
Proof.
  intros H H'. induction H; [exact H'|]. cbn [app]. constructor; assumption.
Qed.

Lemma crel3_and (Q : char -> str -> str -> str -> Prop)
  (R : char -> list char -> str -> str -> Prop) (t u y : list seg) :
  crel3 (fun c _ => Q c) t u y -> crel R t y ->
  crel3 (fun c n a b d => Q c a b d /\ R c n a d) t u y.
Proof.
  intros H. induction H as [|c gt gu gy t u y Hq H IH]; intros Hr.
  - constructor.
  - inversion Hr; subst. constructor; [split; assumption|]. apply IH. assumption.
Qed.

Lemma crel3_same (Q : char -> str -> str -> str -> Prop) (t y : list seg) :
  map fst t = map fst y -> (forall c a d, Q c a d d) ->
  crel3 (fun c _ => Q c) t y y.
Proof.
  intros H HQ. revert y H. induction t as [|[c g] t IH]; intros y H.
  - destruct y; [constructor | discriminate].
  - destruct y as [|[c' g'] y]; [discriminate|]. cbn in H.
    injection H as <- H. constructor; [apply HQ|]. apply IH. exact H.
Qed.

(** What has been written on a gap by both runs: a break, or a space after
    a bullet or a dot. *)
Definition Wr (c : char) (g : str) : Prop :=
  g = nn \/ (g = sp /\ (c = bullet \/ c = dot)).

(** A gap of the second run is the gap of the final text of the first run,
    or the gap that both runs have written. *)
Definition Inv1 (c : char) (gt gu gy : str) : Prop :=
  gu = gy \/ (gu = gt /\ Wr c gt).

Lemma Inv1_nn (c : char) (gy : str) : Inv1 c nn nn gy.
Proof. right. split; [reflexivity | left; reflexivity]. Qed.

Lemma emp_same (c : char) (gt gu gy : str) :
  Inv1 c gt gu gy -> (gt = [] <-> gy = []) -> is_nil gu = is_nil gt.
Proof.
  intros [->|[-> _]] H; [|reflexivity].
  destruct gt, gy; try reflexivity.
  - destruct H as [H _]. discriminate (H eq_refl).
  - destruct H as [_ H]. discriminate (H eq_refl).
Qed.

Lemma gpass_none (hit : list seg -> option (list seg)) (l : list seg) :
  (forall a b, l = a ++ b -> b <> [] -> hit b = None) ->
  gpass hit 0 l = l.
Proof.
  induction l as [|s l IH]; intros H; [reflexivity|].
  rewrite gpass_miss by (apply (H []); [reflexivity | discriminate]).
  f_equal. apply IH. intros a b -> Hb. apply (H (s :: a)); [reflexivity | exact Hb].
Qed.

Section Sim.
Variable hit : list seg -> option (list seg).
Variable P : char -> list char -> str -> str -> str -> Prop.
Hypothesis P_inv : forall c n a b d, P c n a b d -> Inv1 c a b d.
Hypothesis hit_some : forall l blk, hit l = Some blk -> blk <> [].
Hypothesis hit_sim : forall t u y, t <> [] -> crel3 P t u y ->
  (hit t = None /\ hit u = None)
  \/ (exists bt bu, hit t = Some bt /\ hit u = Some bu
        /\ crel3 (fun c _ => Inv1 c) bt bu (firstn (length bt) y))
  \/ (exists bt, hit t = Some bt /\ length bt = length t
        /\ gpass hit 0 u = u
        /\ crel3 (fun c _ => Inv1 c) bt u y).

Lemma sim_len (n : nat) : forall t u y : list seg,
  length t <= n -> crel3 P t u y ->
  crel3 (fun c _ => Inv1 c) (gpass hit 0 t) (gpass hit 0 u) y.
Proof.
  induction n as [|n IH]; intros t u y Hn H.
  - destruct H; [constructor | cbn in Hn; lia].
  - destruct t as [|s t']; [inversion H; subst; constructor|].
    destruct (crel3_length _ _ _ _ H) as [Lu' Ly'].
    destruct (hit_sim (s :: t') u y ltac:(discriminate) H)
      as [[Ht Hu]|[[bt [bu [Ht [Hu Hb]]]]|[bt [Ht [Hl [Hu Hb]]]]]].
    + inversion H as [|c gt gu gy t0 u0 y0 Hp H0]; subst.
      rewrite (gpass_miss hit _ _ Ht), (gpass_miss hit _ _ Hu).
      constructor; [eapply P_inv; exact Hp|].
      apply IH; [cbn in Hn; lia | exact H0].
    + destruct (crel3_length _ _ _ _ Hb) as [Lu Ly].
      assert (u <> []) as Hne' by (destruct u; [discriminate Lu' | discriminate]).
      rewrite (gpass_hit hit (s :: t') bt ltac:(discriminate) Ht (hit_some _ _ Ht)).
      rewrite (gpass_hit hit u bu Hne' Hu (hit_some _ _ Hu)).
      rewrite <- (firstn_skipn (length bt) y). rewrite Lu.
      apply crel3_app; [exact Hb|].
      apply IH; [|apply crel3_skipn; exact H].
      rewrite length_skipn. pose proof (hit_some _ _ Ht).
      destruct bt; [congruence|]. cbn [length] in *. lia.
    + rewrite (gpass_hit hit (s :: t') bt ltac:(discriminate) Ht (hit_some _ _ Ht)),
        Hl, skipn_all, Hu.
      cbn [gpass]. rewrite app_nil_r. exact Hb.
Qed.

Lemma sim (t u y : list seg) :
  crel3 P t u y -> crel3 (fun c _ => Inv1 c) (gpass hit 0 t) (gpass hit 0 u) y.
Proof. apply (sim_len (length t)). lia. Qed.

End Sim.

Definition free (c : char) (n : list char) (gt gu gy : str) : Prop :=
  Inv1 c gt gu gy.

Lemma word_not_bullet (c : char) : is_word U c = true -> c <> bullet.
Proof. intros H ->. rewrite (proj1 (proj2 (proj2 HU))) in H. discriminate. Qed.

Lemma word_not_dot (c : char) : is_word U c = true -> c <> dot.
Proof. intros H ->. discriminate H. Qed.

(** The subsection pass. *)
Definition Phi_A (c : char) (n : list char) (gt gy : str) : Prop :=
  n <> [] -> c <> bullet -> hd_error n <> Some bullet -> (gt = [] <-> gy = []).

Definition P_A (c : char) (n : list char) (gt gu gy : str) : Prop :=
  Inv1 c gt gu gy /\ Phi_A c n gt gy.

Lemma hit_A_some (L : char) (l blk : list seg) :
  hit_A L l = Some blk -> blk <> [].
Proof.
  destruct l as [|[c g] [|[c1 g1] [|[c2 g2] [|[c3 g3] l]]]]; try discriminate.
  cbn [hit_A]. destruct (_ && _); [|discriminate].
  intros H. injection H as <-. discriminate.
Qed.

Lemma hit_A_sim (L : char) (t u y : list seg) :
  L <> bullet -> t <> [] -> crel3 P_A t u y ->
  (hit_A L t = None /\ hit_A L u = None)
  \/ (exists bt bu, hit_A L t = Some bt /\ hit_A L u = Some bu
        /\ crel3 (fun c _ => Inv1 c) bt bu (firstn (length bt) y))
  \/ (exists bt, hit_A L t = Some bt /\ length bt = length t
        /\ gpass (hit_A L) 0 u = u
        /\ crel3 (fun c _ => Inv1 c) bt u y).
Proof.
  intros HL _ H.
  inversion H as [|c gt gu gy t1 u1 y1 [I1 F1] H1]; subst;
    [left; split; reflexivity|].
  inversion H1 as [|c1 gt1 gu1 gy1 t2 u2 y2 [I2 F2] H2]; subst;
    [left; split; reflexivity|].
  inversion H2 as [|c2 gt2 gu2 gy2 t3 u3 y3 [I3 F3] H3]; subst;
    [left; split; reflexivity|].
  inversion H3 as [|c3 gt3 gu3 gy3 t4 u4 y4 [I4 F4] H4]; subst;
    [left; split; reflexivity|].
  cbn [hit_A].
  destruct (is_word U c && N.eqb L c1 && N.eqb dot c2 && is_word U c3) eqn:C;
    cbn [andb]; [|left; split; reflexivity].
  apply andb_true_iff in C. destruct C as [C Wc3].
  apply andb_true_iff in C. destruct C as [C E2].
  apply andb_true_iff in C. destruct C as [Wc E1].
  apply N.eqb_eq in E1, E2. subst c1 c2.
  assert (N0 : is_nil gu = is_nil gt).
  { apply (emp_same c gt gu gy I1). apply F1; cbn;
      [discriminate | apply word_not_bullet; exact Wc | congruence]. }
  assert (N1 : is_nil gu1 = is_nil gt1).
  { apply (emp_same L gt1 gu1 gy1 I2). apply F2; cbn;
      [discriminate | exact HL | discriminate]. }
  assert (N2 : is_nil gu2 = is_nil gt2).
  { apply (emp_same dot gt2 gu2 gy2 I3). apply F3; cbn;
      [discriminate | discriminate |].
    intros [= E]. apply (word_not_bullet c3 Wc3). exact E. }
  rewrite N0, N1, N2.
  destruct (negb (is_nil gt) && is_nil gt1 && negb (is_nil gt2));
    [|left; split; reflexivity].
  right. left. eexists. eexists. split; [reflexivity|]. split; [reflexivity|].
  cbn [length firstn].
  constructor; [apply Inv1_nn|]. constructor; [exact I2|].
  constructor; [exact I3|]. constructor; [exact I4|]. constructor.
Qed.

(** The bullet pass. *)
Lemma hit_B_some (l blk : list seg) : hit_B l = Some blk -> blk <> [].
Proof.
  destruct l as [|[c g] [|[c1 g1] l]]; try discriminate.
  cbn [hit_B]. destruct (N.eqb bullet c1); [|discriminate].
  intros H. injection H as <-. discriminate.
Qed.

Lemma hit_B_sim (t u y : list seg) :
  t <> [] -> crel3 free t u y ->
  (hit_B t = None /\ hit_B u = None)
  \/ (exists bt bu, hit_B t = Some bt /\ hit_B u = Some bu
        /\ crel3 (fun c _ => Inv1 c) bt bu (firstn (length bt) y))
  \/ (exists bt, hit_B t = Some bt /\ length bt = length t
        /\ gpass hit_B 0 u = u
        /\ crel3 (fun c _ => Inv1 c) bt u y).
Proof.
  intros _ H.
  inversion H as [|c gt gu gy t1 u1 y1 I1 H1]; subst;
    [left; split; reflexivity|].
  inversion H1 as [|c1 gt1 gu1 gy1 t2 u2 y2 I2 H2]; subst;
    [left; split; reflexivity|].
  cbn [hit_B]. destruct (N.eqb bullet c1) eqn:E; [|left; split; reflexivity].
  apply N.eqb_eq in E. subst c1.
  right. left. eexists. eexists. split; [reflexivity|]. split; [reflexivity|].
  cbn [length firstn]. constructor; [apply Inv1_nn|].
  constructor; [|constructor].
  right. split; [reflexivity|]. right. split; [reflexivity | left; reflexivity].
Qed.

(** The numbered-list pass. *)
Definition Phi_N (c : char) (n : list char) (gt gy : str) : Prop :=
  (n <> [] -> (gt = [] <-> gy = [])) /\ (n = [] -> gy = []).

Definition P_N (c : char) (n : list char) (gt gu gy : str) : Prop :=
  Inv1 c gt gu gy /\ Phi_N c n gt gy.

Lemma digits_dot_sim (t u y : list seg) :
  crel3 P_N t u y -> forall seen,
  (digits_dot seen t = None /\ digits_dot seen u = None)
  \/ (exists bt bu, digits_dot seen t = Some bt /\ digits_dot seen u = Some bu
        /\ crel3 (fun c _ => Inv1 c) bt bu (firstn (length bt) y))
  \/ (exists bt, digits_dot seen t = Some bt /\ length bt = length t
        /\ digits_dot seen u = None
        /\ crel3 (fun c _ => Inv1 c) bt u y
        /\ Forall (fun s => snd s = []) u).
Proof.
  induction 1 as [|c gt gu gy t u y [I [F1 F2]] H IH]; intros seen;
    [left; split; reflexivity|].
  cbn [digits_dot]. destruct (is_digit U c) eqn:D.
  - destruct t as [|s t].
    + inversion H; subst. cbn [digits_dot]. left.
      destruct (is_nil gt), (is_nil gu); split; reflexivity.
    + assert (N0 : is_nil gu = is_nil gt)
        by (apply (emp_same c gt gu gy I), F1; discriminate).
      rewrite N0. destruct (is_nil gt) eqn:Ngt; [|left; split; reflexivity].
      destruct (IH true) as [[-> ->]|[[bt [bu [-> [-> Hb]]]]|[bt [-> [Hl [-> [Hb Hn]]]]]]].
      * left. split; reflexivity.
      * right. left. eexists. eexists.
        split; [reflexivity|]. split; [reflexivity|].
        cbn [length firstn]. constructor; [exact I | exact Hb].
      * right. right. eexists. split; [reflexivity|].
        split; [cbn [length] in *; lia|]. split; [reflexivity|].
        split; [constructor; [exact I | exact Hb]|].
        constructor; [|exact Hn]. apply is_nil_eq. exact N0.
  - destruct (seen && N.eqb dot c) eqn:C; cbn [andb];
      [|left; split; reflexivity].
    apply andb_true_iff in C. destruct C as [_ C]. apply N.eqb_eq in C. subst c.
    destruct t as [|s t].
    + inversion H; subst. specialize (F2 eq_refl). subst gy.
      destruct gt as [|x gt]; cbn [is_nil negb].
      * left. destruct I as [->|[-> _]]; split; reflexivity.
      * destruct gu as [|x' gu]; cbn [is_nil negb].
        -- right. right. eexists. split; [reflexivity|].
           split; [reflexivity|]. split; [reflexivity|].
           split; [|repeat constructor].
           constructor; [left; reflexivity | constructor].
        -- right. left. eexists. eexists.
           split; [reflexivity|]. split; [reflexivity|].
           cbn [length firstn]. constructor; [|constructor].
           right. split; [reflexivity|]. right.
           split; [reflexivity | right; reflexivity].
    + assert (N0 : is_nil gu = is_nil gt)
        by (apply (emp_same dot gt gu gy I), F1; discriminate).
      rewrite N0. destruct (is_nil gt); cbn [negb];
        [left; split; reflexivity|].
      right. left. eexists. eexists.
      split; [reflexivity|]. split; [reflexivity|].
      cbn [length firstn]. constructor; [|constructor].
      right. split; [reflexivity|]. right.
      split; [reflexivity | right; reflexivity].
Qed.

Lemma hit_N_some (l blk : list seg) : hit_N l = Some blk -> blk <> [].
Proof.
  destruct l as [|[c g] l]; [discriminate|]. cbn [hit_N].
  destruct (_ && _); [|discriminate].
  destruct (digits_dot false l); [|discriminate].
  intros H. injection H as <-. discriminate.
Qed.

Lemma hit_N_nil_gaps (l : list seg) :
  Forall (fun s => snd s = []) l -> gpass hit_N 0 l = l.
Proof.
  induction 1 as [|[c g] l Hg Hl IH]; [reflexivity|].
  cbn [snd] in Hg. subst g. rewrite gpass_miss; [rewrite IH; reflexivity|].
  cbn [hit_N is_nil negb]. rewrite andb_false_r. reflexivity.
Qed.

Lemma hit_N_sim (t u y : list seg) :
  t <> [] -> crel3 P_N t u y ->
  (hit_N t = None /\ hit_N u = None)
  \/ (exists bt bu, hit_N t = Some bt /\ hit_N u = Some bu
        /\ crel3 (fun c _ => Inv1 c) bt bu (firstn (length bt) y))
  \/ (exists bt, hit_N t = Some bt /\ length bt = length t
        /\ gpass hit_N 0 u = u
        /\ crel3 (fun c _ => Inv1 c) bt u y).
Proof.
  intros _ H.
  inversion H as [|c gt gu gy t1 u1 y1 [I [F1 F2]] H1]; subst;
    [left; split; reflexivity|].
  cbn [hit_N]. destruct t1 as [|s t1].
  { inversion H1; subst. cbn [digits_dot]. left.
    destruct (_ && _), (_ && _); split; reflexivity. }
  assert (N0 : is_nil gu = is_nil gt)
    by (apply (emp_same c gt gu gy I), F1; discriminate).
  rewrite N0.
  destruct (is_word U c && negb (is_nil gt)) eqn:C; [|left; split; reflexivity].
  apply andb_true_iff in C. destruct C as [Wc _].
  destruct (digits_dot_sim _ _ _ H1 false)
    as [[-> ->]|[[bt [bu [-> [-> Hb]]]]|[bt [-> [Hl [Hu [Hb Hn]]]]]]].
  - left. split; reflexivity.
  - right. left. eexists. eexists.
    split; [reflexivity|]. split; [reflexivity|].
    cbn [length firstn]. constructor; [apply Inv1_nn | exact Hb].
  - right. right. eexists. split; [reflexivity|].
    split; [cbn [length] in *; lia|]. split.
    + rewrite gpass_miss.
      * rewrite (hit_N_nil_gaps _ Hn). reflexivity.
      * cbn [hit_N]. rewrite Hu. destruct (_ && _); reflexivity.
    + constructor; [|exact Hb].
      destruct I as [->|[-> [->|[_ [->| ->]]]]].
      * left. reflexivity.
      * apply Inv1_nn.
      * exfalso. exact (word_not_bullet _ Wc eq_refl).
      * discriminate Wc.
Qed.

(** The label passes. *)
Section Labels.
(** The characters of the labels of the table. *)
Variable LC : list (list char).

(** A break can be written by a label pass on the gap after [c], followed
    by the characters [n]. *)
Definition writable (c : char) (n : list char) : Prop :=
  is_word U c = true /\ exists l2 r, In l2 LC /\ n = l2 ++ r.

Definition Phi_L (c : char) (n : list char) (gt gy : str) : Prop :=
  n <> [] ->
  (gt = [] <-> gy = [])
  /\ (gy = sp -> gt = sp)
  /\ (gt = sp -> ~ writable c n -> gy = sp).

Definition P_L (c : char) (n : list char) (gt gu gy : str) : Prop :=
  Inv1 c gt gu gy /\ Phi_L c n gt gy.

(** No label can start at a space inside a label. *)
Definition apart (lab : list seg) : Prop :=
  forall pre a post, lab = pre ++ (a, sp) :: post -> is_word U a = true ->
  forall l2 r1 r2, In l2 LC -> map fst post ++ r1 = l2 ++ r2 -> False.

Definition gaps_ok (lab : list seg) : Prop :=
  Forall (fun s => snd s = [] \/ snd s = sp) lab.

Lemma apart_tail (s : seg) (lab : list seg) : apart (s :: lab) -> apart lab.
Proof.
  intros H pre a post E. apply (H (s :: pre) a post). rewrite E. reflexivity.
Qed.

Lemma lab_at_chars (lab : list seg) : forall l : list seg,
  lab_at lab l = true -> exists r, map fst l = map fst lab ++ r.
Proof.
  induction lab as [|[a ga] lab IH]; intros l H; [exists (map fst l); reflexivity|].
  destruct l as [|[c g] l]; [discriminate|]. cbn [lab_at] in H.
  apply andb_true_iff in H. destruct H as [E H]. apply N.eqb_eq in E. subst c.
  destruct lab as [|s lab].
  - exists (map fst l). reflexivity.
  - apply andb_true_iff in H. destruct H as [_ H].
    destruct (IH l H) as [r Hr]. exists r. cbn [map fst app] in *.
    rewrite Hr. reflexivity.
Qed.

Lemma str_eqb_nil (g : str) : str_eqb [] g = is_nil g.
Proof. destruct g; reflexivity. Qed.

Lemma str_eqb_iff (a b b' : str) :
  (b = a <-> b' = a) -> str_eqb a b' = str_eqb a b.
Proof.
  intros H. destruct (str_eqb a b) eqn:E.
  - apply RagFacts.py_str_eqb_eq. symmetry. apply H. symmetry.
    apply RagFacts.py_str_eqb_eq. exact E.
  - destruct (str_eqb a b') eqn:E'; [|reflexivity].
    apply RagFacts.py_str_eqb_eq in E'. symmetry in E'. apply H in E'.
    symmetry in E'. apply RagFacts.py_str_eqb_eq in E'. congruence.
Qed.

Lemma lab_at_sim (lab : list seg) : forall t u y : list seg,
  gaps_ok lab -> apart lab -> crel3 P_L t u y ->
  lab_at lab u = lab_at lab t.
Proof.
  induction lab as [|[a ga] lab IH]; intros t u y G A H; [reflexivity|].
  destruct H as [|c gt gu gy t u y [I F] H]; [reflexivity|].
  cbn [lab_at]. destruct lab as [|s lab]; [reflexivity|].
  inversion G as [|? ? Ga G']; subst. cbn [snd] in Ga.
  rewrite (IH t u y G' (apart_tail _ _ A) H).
  destruct (N.eqb a c) eqn:E; [|reflexivity]. cbn [andb].
  apply N.eqb_eq in E. subst c.
  destruct (lab_at (s :: lab) t) eqn:L; [|rewrite !andb_false_r; reflexivity].
  rewrite !andb_true_r.
  assert (t <> []) as Hne by (destruct t; [destruct s; discriminate L | discriminate]).
  assert (map fst t <> []) as Hn by (destruct t; [congruence | discriminate]).
  destruct (F Hn) as [F1 [F2 F3]].
  destruct Ga as [->| ->].
  - rewrite !str_eqb_nil. apply (emp_same a gt gu gy I F1).
  - apply str_eqb_iff. split; intros E.
    + subst gt. destruct I as [->|[-> _]]; [|reflexivity].
      apply F3; [reflexivity|]. intros [Wa [l2 [r [Hin Hr]]]].
      destruct (lab_at_chars _ _ L) as [r1 Hr1].
      apply (A [] a (s :: lab) eq_refl Wa l2 r1 r Hin). congruence.
    + subst gu. destruct I as [<-|[<- _]]; [|reflexivity].
      apply F2. reflexivity.
Qed.

Lemma hit_L_some (lab l blk : list seg) : hit_L lab l = Some blk -> blk <> [].
Proof.
  destruct l as [|[c g] l]; [discriminate|]. cbn [hit_L].
  destruct (_ && _); [|discriminate]. intros H. injection H as <-. discriminate.
Qed.

Lemma firstn_min {A} (k : nat) (l : list A) :
  firstn (length (firstn k l)) l = firstn k l.
Proof.
  rewrite length_firstn. destruct (Nat.le_ge_cases k (length l)).
  - rewrite Nat.min_l by assumption. reflexivity.
  - rewrite Nat.min_r, firstn_all, firstn_all2 by assumption. reflexivity.
Qed.

Lemma hit_L_sim (lab : list seg) (t u y : list seg) :
  lab <> [] -> gaps_ok lab -> apart lab ->
  t <> [] -> crel3 P_L t u y ->
  (hit_L lab t = None /\ hit_L lab u = None)
  \/ (exists bt bu, hit_L lab t = Some bt /\ hit_L lab u = Some bu
        /\ crel3 (fun c _ => Inv1 c) bt bu (firstn (length bt) y))
  \/ (exists bt, hit_L lab t = Some bt /\ length bt = length t
        /\ gpass (hit_L lab) 0 u = u
        /\ crel3 (fun c _ => Inv1 c) bt u y).
Proof.
  intros Hne G A _ H.
  inversion H as [|c gt gu gy t1 u1 y1 [I F] H1]; subst;
    [left; split; reflexivity|].
  cbn [hit_L]. rewrite (lab_at_sim lab t1 u1 y1 G A H1).
  destruct (lab_at lab t1) eqn:L;
    [|left; rewrite !andb_false_r; split; reflexivity].
  assert (map fst t1 <> []) as Hn.
  { destruct t1; [|discriminate]. destruct lab as [|[a ga] lab]; [congruence|].
    discriminate L. }
  assert (N0 : is_nil gu = is_nil gt)
    by (apply (emp_same c gt gu gy I), (F Hn)).
  rewrite N0. destruct (is_word U c && negb (is_nil gt));
    [|left; split; reflexivity].
  right. left. eexists. eexists.
  split; [reflexivity|]. split; [reflexivity|].
  cbn [length firstn]. constructor; [apply Inv1_nn|].
  destruct (crel3_length _ _ _ _ H1) as [_ Ly].
  replace (firstn (length (firstn (length lab) t1)) y1)
    with (firstn (length (firstn (length lab) y1)) y1)
    by (rewrite !length_firstn, Ly; reflexivity).
  rewrite firstn_min. apply crel3_firstn.
  eapply crel3_impl; [|exact H1]. intros ? ? ? ? ? [X _]. exact X.
Qed.

End Labels.

(** *** What a pass changes *)

Section Chg.
Variable hit : list seg -> option (list seg).
Variable C : char -> list char -> str -> str -> Prop.
Hypothesis C_refl : forall c n g, C c n g g.
Hypothesis C_mono : mono C.
Hypothesis hit_some : forall l blk, hit l = Some blk -> blk <> [].
Hypothesis hit_chg :
  forall l blk, hit l = Some blk -> crel C (firstn (length blk) l) blk.

Lemma gpass_crel_len (n : nat) : forall l : list seg,
  length l <= n -> crel C l (gpass hit 0 l).
Proof.
  induction n as [|n IH]; intros l Hn.
  - destruct l; [constructor | cbn in Hn; lia].
  - destruct l as [|[c g] l']; [constructor|].
    destruct (hit ((c, g) :: l')) as [blk|] eqn:E.
    + rewrite (gpass_hit hit ((c, g) :: l') blk ltac:(discriminate) E (hit_some _ _ E)).
      assert (crel C (firstn (length blk) ((c, g) :: l')
                      ++ skipn (length blk) ((c, g) :: l'))
                (blk ++ gpass hit 0 (skipn (length blk) ((c, g) :: l')))) as X.
      { apply crel_app; [exact C_mono | apply hit_chg; exact E|].
        apply IH. rewrite length_skipn. pose proof (hit_some _ _ E).
        destruct blk; [congruence|]. cbn [length] in *. lia. }
      rewrite firstn_skipn in X. exact X.
    + rewrite (gpass_miss hit _ _ E). constructor; [apply C_refl|].
      apply IH. cbn in Hn. lia.
Qed.

Lemma gpass_crel (l : list seg) : crel C l (gpass hit 0 l).
Proof. apply (gpass_crel_len (length l)). lia. Qed.

End Chg.

(** A gap is empty after the pass when it was before, and only then. *)
Definition Ce (c : char) (n : list char) (g g' : str) : Prop :=
  g = [] <-> g' = [].

(** The bullet pass leaves the gaps that do not touch a bullet. *)
Definition Cb (c : char) (n : list char) (g g' : str) : Prop :=
  g' = g \/ ((c = bullet \/ hd_error n = Some bullet) /\ g' <> []).

Lemma Ce_refl (c : char) (n : list char) (g : str) : Ce c n g g.
Proof. unfold Ce. tauto. Qed.

Lemma Ce_mono : mono Ce.
Proof. intros c n m g g' H. exact H. Qed.

Lemma Ce_write (g w : str) : is_nil g = false -> w <> [] -> g = [] <-> w = [].
Proof.
  intros H Hw. split; intros E; [subst; discriminate | contradiction].
Qed.

Lemma crel_same (R : char -> list char -> str -> str -> Prop) (l : list seg) :
  (forall c n g, R c n g g) -> crel R l l.
Proof. apply crel_refl. Qed.

Lemma hit_A_chg (L : char) (l blk : list seg) :
  hit_A L l = Some blk -> crel Ce (firstn (length blk) l) blk.
Proof.
  destruct l as [|[c g] [|[c1 g1] [|[c2 g2] [|[c3 g3] l]]]]; try discriminate.
  cbn [hit_A]. destruct (_ && _) eqn:C; [|discriminate].
  intros H. injection H as <-. cbn [length firstn].
  repeat (apply andb_true_iff in C; destruct C as [C ?]).
  constructor; [|apply crel_refl, Ce_refl].
  apply Ce_write; [|discriminate].
  match goal with H : negb (is_nil g) = true |- _ =>
    apply negb_true_iff in H; exact H end.
Qed.

Lemma digits_dot_chg (l : list seg) : forall seen blk,
  digits_dot seen l = Some blk -> crel Ce (firstn (length blk) l) blk.
Proof.
  induction l as [|[c g] l IH]; intros seen blk; [discriminate|].
  cbn [digits_dot]. destruct (is_digit U c).
  - destruct (is_nil g); [|discriminate].
    destruct (digits_dot true l) as [b|] eqn:E; [|discriminate].
    intros H. injection H as <-. cbn [length firstn].
    constructor; [apply Ce_refl | apply (IH true); exact E].
  - destruct (seen && N.eqb dot c && negb (is_nil g)) eqn:C; [|discriminate].
    intros H. injection H as <-. cbn [length firstn].
    apply andb_true_iff in C. destruct C as [_ C]. apply negb_true_iff in C.
    constructor; [|constructor]. apply Ce_write; [exact C | discriminate].
Qed.

Lemma hit_N_chg (l blk : list seg) :
  hit_N l = Some blk -> crel Ce (firstn (length blk) l) blk.
Proof.
  destruct l as [|[c g] l]; [discriminate|]. cbn [hit_N].
  destruct (is_word U c && negb (is_nil g)) eqn:C; [|discriminate].
  destruct (digits_dot false l) as [b|] eqn:E; [|discriminate].
  intros H. injection H as <-. cbn [length firstn].
  apply andb_true_iff in C. destruct C as [_ C]. apply negb_true_iff in C.
  constructor; [|apply (digits_dot_chg _ _ _ E)].
  apply Ce_write; [exact C | discriminate].
Qed.

Lemma Cb_mono : mono Cb.
Proof.
  intros c n m g g' [H|[[H|H] H']]; [left; exact H | right | right];
    (split; [|exact H']); [left; exact H | right].
  destruct n; [discriminate | exact H].
Qed.

Lemma hit_B_chg (l blk : list seg) :
  hit_B l = Some blk -> crel Cb (firstn (length blk) l) blk.
Proof.
  destruct l as [|[c g] [|[c1 g1] l]]; try discriminate.
  cbn [hit_B]. destruct (N.eqb bullet c1) eqn:E; [|discriminate].
  apply N.eqb_eq in E. subst c1.
  intros H. injection H as <-. cbn [length firstn].
  constructor; [right; split; [right; reflexivity | discriminate]|].
  constructor; [right; split; [left; reflexivity | discriminate]|].
  constructor.
Qed.

Section LabelChg.
Variable LC : list (list char).

Definition Cl (c : char) (n : list char) (g g' : str) : Prop :=
  g' = g \/ (g <> [] /\ g' = nn /\ writable LC c n).

Lemma Cl_mono : mono Cl.
Proof.
  intros c n m g g' [H|[H1 [H2 [W [l2 [r [Hin Hr]]]]]]]; [left; exact H|].
  right. split; [exact H1|]. split; [exact H2|]. split; [exact W|].
  exists l2, (r ++ m). split; [exact Hin|]. rewrite Hr, app_assoc. reflexivity.
Qed.

Lemma hit_L_chg (lab l blk : list seg) :
  In (map fst lab) LC ->
  hit_L lab l = Some blk -> crel Cl (firstn (length blk) l) blk.
Proof.
  intros Hin. destruct l as [|[c g] l]; [discriminate|]. cbn [hit_L].
  destruct (is_word U c && negb (is_nil g) && lab_at lab l) eqn:C;
    [|discriminate].
  intros H. injection H as <-. cbn [length firstn]. rewrite firstn_min.
  apply andb_true_iff in C. destruct C as [C A].
  apply andb_true_iff in C. destruct C as [Wc C]. apply negb_true_iff in C.
  constructor; [|apply crel_refl; intros; left; reflexivity].
  right. split; [intros ->; discriminate|]. split; [reflexivity|].
  split; [exact Wc|].
  destruct (lab_at_chars _ _ A) as [r Hr].
  exists (map fst lab), []. split; [exact Hin|].
  rewrite app_nil_r, <- firstn_map, Hr, <- (length_map fst lab).
  rewrite firstn_app, Nat.sub_diag, firstn_all. cbn [firstn].
  rewrite app_nil_r. reflexivity.
Qed.

Lemma Cl_Ce (c : char) (n : list char) (g g' : str) : Cl c n g g' -> Ce c n g g'.
Proof.
  intros [->|[H1 [-> _]]]; [apply Ce_refl|].
  split; [intros; contradiction | discriminate].
Qed.

End LabelChg.

(** *** The last two steps on the gaps *)

Definition Kg (g : str) : str :=
  sub [at_least 3 (chr 10%N)] (fun _ => break) g.

Fixpoint fin (l : list seg) : list seg :=
  match l with
  | [] => []
  | (c, g) :: l' =>
      match l' with
      | [] => [(c, [])]
      | _ :: _ => (c, Kg g) :: fin l'
      end
  end.

Lemma Kpos : SubFacts.positive [at_least 3 (chr 10%N)].
Proof. left. cbn. lia. Qed.

Lemma Kg_cons (c : char) (g : str) :
  (exists o, Kg (c :: g) = c :: o /\ (o = [] -> g = []))
  \/ (exists o, Kg (c :: g) = 10%N :: 10%N :: o).
Proof.
  unfold Kg.
  destruct (match_here [at_least 3 (chr 10%N)] (c :: g)) as [[segs r]|] eqn:E.
  - right. destruct (SubFacts.sub_match _ (fun _ => break) _ _ _ _ Kpos E)
      as [-> _]. eexists. reflexivity.
  - left. rewrite (SubFacts.sub_copy _ (fun _ => break) _ _ E).
    eexists. split; [reflexivity|]. intros H.
    destruct g as [|d g]; [reflexivity|]. exfalso.
    destruct (match_here [at_least 3 (chr 10%N)] (d :: g)) as [[segs r]|] eqn:E'.
    + destruct (SubFacts.sub_match _ (fun _ => break) _ _ _ _ Kpos E')
        as [X _]. rewrite X in H. discriminate.
    + rewrite (SubFacts.sub_copy _ (fun _ => break) _ _ E') in H. discriminate.
Qed.

Lemma Kg_nil : Kg [] = [].
Proof. reflexivity. Qed.

Lemma Kg_nil_iff (g : str) : g = [] <-> Kg g = [].
Proof.
  split; [intros ->; reflexivity|]. destruct g as [|c g]; [reflexivity|].
  destruct (Kg_cons c g) as [[o [-> _]]|[o ->]]; discriminate.
Qed.

Lemma Kg_sp_iff (g : str) : Kg g = sp <-> g = sp.
Proof.
  split; [|intros ->; reflexivity]. destruct g as [|c g]; [discriminate|].
  destruct (Kg_cons c g) as [[o [-> Ho]]|[o ->]]; [|discriminate].
  intros H. injection H as -> ->. rewrite (Ho eq_refl). reflexivity.
Qed.

Lemma runs_below_absent (f : char -> bool) (n : nat) (s : str) :
  1 <= n -> OutputFacts.runs_below f n s = true -> absent [at_least n f] s = true.
Proof.
  intros Hn. induction s as [|c s IH]; intros H.
  - cbn [absent]. rewrite OutputFacts.match_at_least. cbn [run].
    destruct (Nat.ltb_spec 0 n); [reflexivity | lia].
  - rewrite FormatFacts.absent_eq, OutputFacts.match_at_least.
    pose proof (OutputFacts.runs_below_here f n _ H) as Hr.
    destruct (Nat.ltb_spec (run f (c :: s)) n); [|lia].
    apply IH. rewrite OutputFacts.runs_below_cons in H.
    apply andb_true_iff in H. apply H.
Qed.

Lemma Kg_idem (g : str) : Kg (Kg g) = Kg g.
Proof.
  unfold Kg at 1. apply FormatFacts.sub_absent.
  apply runs_below_absent; [lia|].
  apply (OutputFacts.sub_at_least_runs (chr 10%N) 3 break);
    [lia | repeat constructor | cbn; lia].
Qed.

Lemma Kg_blank (g : str) : blank g -> blank (Kg g).
Proof.
  unfold Kg.
  apply (SubFacts.sub_scan [at_least 3 (chr 10%N)] (fun _ => break)
           (fun s o => blank s -> blank o)); [exact Kpos | | |].
  - intros _. constructor.
  - intros c s o _ IH B. inversion B; subst.
    constructor; [assumption | apply IH; assumption].
  - intros c s segs r o _ E _ IH B. rewrite E in B.
    apply blank_app in B. destruct B as [_ B].
    apply blank_app. split; [repeat constructor | apply IH; exact B].
Qed.

Definition Cfin (c : char) (n : list char) (g g' : str) : Prop :=
  (n <> [] -> g' = Kg g) /\ (n = [] -> g' = []).

Lemma fin_crel (l : list seg) : crel Cfin l (fin l).
Proof.
  induction l as [|[c g] l IH]; [constructor|].
  cbn [fin]. destruct l as [|s l].
  - constructor; [|constructor].
    split; [intros H; exfalso; apply H; reflexivity | reflexivity].
  - constructor; [|exact IH]. split; [reflexivity | discriminate].
Qed.

(** *** The whole formatter on the list *)

Section Run.
(** The labels, cut like the text. *)
Variable labs : list (list seg).

Definition LC : list (list char) := map (map fst) labs.

Definition cueA (letters : list char) (t : list seg) : list seg :=
  fold_left (fun t L => gpass (hit_A L) 0 t) letters t.

Definition cueL (ls : list (list seg)) (t : list seg) : list seg :=
  fold_left (fun t lab => gpass (hit_L lab) 0 t) ls t.

Definition tailN (t : list seg) : list seg := cueL labs (gpass hit_N 0 t).
Definition tailB (t : list seg) : list seg := tailN (gpass hit_B 0 t).
Definition cue (t : list seg) : list seg := tailB (cueA (lit "ABCDE") t).
Definition G (t : list seg) : list seg := fin (cue t).

Hypothesis labs_ok :
  Forall (fun lab => lab <> [] /\ gaps_ok lab /\ apart LC lab) labs.

Lemma cueL_crel (ls : list (list seg)) : incl ls labs ->
  forall t, crel (Cl LC) t (cueL ls t).
Proof.
  induction ls as [|lab ls IH]; intros Hin t.
  - apply crel_refl. intros. left. reflexivity.
  - cbn [cueL fold_left]. fold (cueL ls (gpass (hit_L lab) 0 t)).
    apply (crel_trans (Cl LC) (Cl LC) (Cl LC) t (gpass (hit_L lab) 0 t)).
    + intros c n x y z [->|[X1 [-> X3]]] [->|[Y1 [-> Y3]]].
      * left. reflexivity.
      * right. auto.
      * right. auto.
      * right. auto.
    + apply gpass_crel.
      * intros. left. reflexivity.
      * apply Cl_mono.
      * apply hit_L_some.
      * intros l blk. apply hit_L_chg. unfold LC. apply in_map.
        apply Hin. left. reflexivity.
    + apply IH. intros x Hx. apply Hin. right. exact Hx.
Qed.

Lemma phi_L (ls : list (list seg)) : incl ls labs ->
  forall t, crel (Phi_L LC) t (fin (cueL ls t)).
Proof.
  intros Hin t.
  apply (crel_trans (Cl LC) Cfin (Phi_L LC) t (cueL ls t));
    [|apply cueL_crel; exact Hin | apply fin_crel].
  intros c n x y z Hc [F _] Hn. specialize (F Hn). subst z.
  destruct Hc as [->|[X1 [-> X3]]].
  - split; [apply Kg_nil_iff|]. split; [apply Kg_sp_iff|].
    intros -> _. reflexivity.
  - split; [split; [intros; contradiction | discriminate]|].
    split; [discriminate|]. intros _ H. contradiction.
Qed.

Lemma phi_N_tail (t : list seg) : crel Phi_N t (fin (cueL labs t)).
Proof.
  apply (crel_trans (Cl LC) Cfin Phi_N t (cueL labs t));
    [|apply cueL_crel; apply incl_refl | apply fin_crel].
  intros c n x y z Hc [F1 F2]. split; [|exact F2].
  intros Hn. rewrite (F1 Hn). apply Cl_Ce in Hc.
  unfold Ce in Hc. rewrite Hc. apply Kg_nil_iff.
Qed.

Lemma hit_N_crel (t : list seg) : crel Ce t (gpass hit_N 0 t).
Proof.
  apply gpass_crel; [apply Ce_refl | apply Ce_mono | apply hit_N_some
                    | apply hit_N_chg].
Qed.

Lemma hit_B_crel (t : list seg) : crel Cb t (gpass hit_B 0 t).
Proof.
  apply gpass_crel; [intros; left; reflexivity | apply Cb_mono
                    | apply hit_B_some | apply hit_B_chg].
Qed.

Lemma hit_A_crel (L : char) (t : list seg) : crel Ce t (gpass (hit_A L) 0 t).
Proof.
  apply gpass_crel; [apply Ce_refl | apply Ce_mono | apply hit_A_some
                    | apply hit_A_chg].
Qed.

Lemma phi_N (t : list seg) : crel Phi_N t (fin (tailN t)).
Proof.
  apply (crel_trans Ce Phi_N Phi_N t (gpass hit_N 0 t));
    [|apply hit_N_crel | apply phi_N_tail].
  intros c n x y z Hc [F1 F2]. split; [|exact F2].
  intros Hn. unfold Ce in Hc. rewrite Hc. apply F1. exact Hn.
Qed.

Lemma phi_B (t : list seg) : crel Phi_A t (fin (tailB t)).
Proof.
  apply (crel_trans Cb Phi_N Phi_A t (gpass hit_B 0 t));
    [|apply hit_B_crel | apply phi_N].
  intros c n x y z Hc [F1 _] Hn Hcb Hh.
  destruct Hc as [->|[[X|X] _]]; [apply F1; exact Hn | contradiction..].
Qed.

Lemma phi_A (letters : list char) :
  forall t, crel Phi_A t (fin (tailB (cueA letters t))).
Proof.
  induction letters as [|L letters IH]; intros t; [apply phi_B|].
  cbn [cueA fold_left]. fold (cueA letters (gpass (hit_A L) 0 t)).
  apply (crel_trans Ce Phi_A Phi_A t (gpass (hit_A L) 0 t));
    [|apply hit_A_crel | apply IH].
  intros c n x y z Hc F Hn Hcb Hh. unfold Ce in Hc. rewrite Hc.
  apply F; assumption.
Qed.

(** The second run follows the first. *)
Lemma simL (ls : list (list seg)) : incl ls labs ->
  forall t u y, y = fin (cueL ls t) ->
  crel3 (fun c _ => Inv1 c) t u y ->
  crel3 (fun c _ => Inv1 c) (cueL ls t) (cueL ls u) y.
Proof.
  induction ls as [|lab ls IH]; intros Hin t u y Hy H; [exact H|].
  cbn [cueL fold_left].
  fold (cueL ls (gpass (hit_L lab) 0 t)). fold (cueL ls (gpass (hit_L lab) 0 u)).
  assert (In lab labs) as Hlab by (apply Hin; left; reflexivity).
  pose proof (proj1 (Forall_forall _ _) labs_ok lab Hlab) as [Hne [Hg Ha]].
  apply IH; [intros x Hx; apply Hin; right; exact Hx | exact Hy|].
  apply (sim (hit_L lab) (P_L LC)).
  - intros c n a b d [X _]. exact X.
  - apply hit_L_some.
  - intros t0 u0 y0. apply hit_L_sim; assumption.
  - apply crel3_and; [exact H|]. rewrite Hy. apply (phi_L (lab :: ls) Hin).
Qed.

Lemma simN (t u y : list seg) :
  y = fin (tailN t) -> crel3 (fun c _ => Inv1 c) t u y ->
  crel3 (fun c _ => Inv1 c) (tailN t) (tailN u) y.
Proof.
  intros Hy H. unfold tailN.
  apply (simL labs (incl_refl _)); [exact Hy|].
  apply (sim hit_N P_N).
  - intros c n a b d [X _]. exact X.
  - apply hit_N_some.
  - apply hit_N_sim.
  - apply crel3_and; [exact H|]. rewrite Hy. apply phi_N.
Qed.

Lemma simB (t u y : list seg) :
  y = fin (tailB t) -> crel3 (fun c _ => Inv1 c) t u y ->
  crel3 (fun c _ => Inv1 c) (tailB t) (tailB u) y.
Proof.
  intros Hy H. unfold tailB. apply simN; [exact Hy|].
  apply (sim hit_B free).
  - intros c n a b d X. exact X.
  - apply hit_B_some.
  - apply hit_B_sim.
  - exact H.
Qed.

Lemma simA (letters : list char) :
  Forall (fun L => L <> bullet) letters ->
  forall t u y, y = fin (tailB (cueA letters t)) ->
  crel3 (fun c _ => Inv1 c) t u y ->
  crel3 (fun c _ => Inv1 c) (tailB (cueA letters t)) (tailB (cueA letters u)) y.
Proof.
  induction 1 as [|L letters HL Hls IH]; intros t u y Hy H.
  - apply simB; assumption.
  - cbn [cueA fold_left].
    fold (cueA letters (gpass (hit_A L) 0 t)).
    fold (cueA letters (gpass (hit_A L) 0 u)).
    apply IH; [exact Hy|].
    apply (sim (hit_A L) P_A).
    + intros c n a b d [X _]. exact X.
    + apply hit_A_some.
    + intros t0 u0 y0. apply hit_A_sim. exact HL.
    + apply crel3_and; [exact H|]. rewrite Hy. apply (phi_A (L :: letters)).
Qed.

Lemma fin_final (t u y : list seg) :
  crel3 (fun c _ => Inv1 c) t u y -> y = fin t -> fin u = y.
Proof.
  induction 1 as [|c gt gu gy t u y I H IH]; intros Hy; [reflexivity|].
  cbn [fin] in Hy |- *. destruct H as [|c' gt' gu' gy' t u y I' H].
  - injection Hy as ->. reflexivity.
  - injection Hy as -> Hy. f_equal.
    + f_equal. destruct I as [->|[-> _]]; [apply Kg_idem | reflexivity].
    + apply IH. exact Hy.
Qed.

Lemma G_chars (t : list seg) : map fst (G t) = map fst t.
Proof. apply (crel_chars _ _ _ (phi_A (lit "ABCDE") t)). Qed.

Theorem G_idem (t : list seg) : G (G t) = G t.
Proof.
  unfold G at 1. apply (fin_final (cue t)); [|reflexivity].
  apply simA.
  - repeat constructor; discriminate.
  - reflexivity.
  - apply crel3_same; [symmetry; apply G_chars|].
    intros c a d. left. reflexivity.
Qed.

End Run.

(** *** The steps on the text and on the list *)

Lemma run_cut (f : char -> bool) (a z : str) :
  match z with [] => True | x :: _ => f x = false end ->
  run f (a ++ z) = run f a.
Proof.
  intros Hz. induction a as [|c a IH]; cbn [app run].
  - destruct z as [|x z]; [reflexivity|]. cbn [run]. rewrite Hz. reflexivity.
  - destruct (f c); [rewrite IH|]; reflexivity.
Qed.

Lemma sub_K_split_len (n : nat) (r : str) (c : char) (b : str) :
  N.eqb 10 c = false -> forall a : str, length a <= n ->
  sub [at_least 3 (chr 10%N)] (fun _ => r) (a ++ c :: b)
  = sub [at_least 3 (chr 10%N)] (fun _ => r) a
    ++ c :: sub [at_least 3 (chr 10%N)] (fun _ => r) b.
Proof.
  intros Hc. induction n as [|n IH]; intros a Hn.
  - destruct a; [|cbn in Hn; lia]. cbn [app].
    rewrite SubFacts.sub_copy, (SubFacts.sub_nil _ _ Kpos); [reflexivity|].
    rewrite OutputFacts.match_at_least. cbn [run]. unfold chr at 1.
    rewrite Hc. reflexivity.
  - destruct a as [|x a].
    + cbn [app].
      rewrite SubFacts.sub_copy, (SubFacts.sub_nil _ _ Kpos); [reflexivity|].
      rewrite OutputFacts.match_at_least. cbn [run]. unfold chr at 1.
      rewrite Hc. reflexivity.
    + pose proof (run_cut (chr 10%N) (x :: a) (c :: b) Hc) as R.
      pose proof (PyFacts.run_le (chr 10%N) (x :: a)) as Rl.
      pose proof (OutputFacts.match_at_least 3 (chr 10%N) ((x :: a) ++ c :: b)) as M1.
      pose proof (OutputFacts.match_at_least 3 (chr 10%N) (x :: a)) as M2.
      rewrite R in M1.
      destruct (Nat.ltb_spec (run (chr 10%N) (x :: a)) 3) as [Hlt|Hge].
      * cbn [app] in M1 |- *.
        rewrite (SubFacts.sub_copy _ _ _ _ M1), (SubFacts.sub_copy _ _ _ _ M2).
        rewrite IH by (cbn in Hn; lia). reflexivity.
      * rewrite skipn_app_le in M1 by exact Rl.
        cbn [app] in M1.
        destruct (SubFacts.sub_match _ (fun _ => r) _ _ _ _ Kpos M1) as [E1 _].
        destruct (SubFacts.sub_match _ (fun _ => r) _ _ _ _ Kpos M2) as [E2 _].
        cbn [app]. rewrite E1, E2, IH, app_assoc; [reflexivity|].
        rewrite length_skipn. cbn [length] in *. lia.
Qed.

Definition mapK (l : list seg) : list seg :=
  map (fun s => (fst s, Kg (snd s))) l.

Lemma collapse_bridge (l : list seg) : forall g0 : str,
  wf l -> collapse_newlines (g0 ++ flat l) = Kg g0 ++ flat (mapK l).
Proof.
  unfold collapse_newlines.
  induction l as [|[c g] l IH]; intros g0 W.
  - cbn [flat flat_map mapK map]. rewrite !app_nil_r. reflexivity.
  - inversion W as [|? ? [Hc Hg] W']; subst. cbn [fst snd] in *.
    rewrite flat_cons.
    assert (N.eqb 10 c = false) as N10
      by (rewrite N.eqb_sym; apply (space_not 10%N c); [reflexivity | exact Hc]).
    rewrite (sub_K_split_len (length g0) break c (g ++ flat l) N10 g0 (le_n _)).
    rewrite IH by exact W'. reflexivity.
Qed.

Lemma mapK_wf (l : list seg) : wf l -> wf (mapK l).
Proof.
  induction 1 as [|[c g] l [Hc Hg] W IH]; [constructor|].
  constructor; [|exact IH]. split; [exact Hc | apply Kg_blank; exact Hg].
Qed.

Lemma lstrip_blank (g s : str) : blank g -> lstrip U (g ++ s) = lstrip U s.
Proof.
  induction 1 as [|w g Hw Hg IH]; [reflexivity|].
  cbn [app lstrip]. rewrite Hw. exact IH.
Qed.

Lemma lstrip_app_ne (a b : str) :
  lstrip U a <> [] -> lstrip U (a ++ b) = lstrip U a ++ b.
Proof.
  induction a as [|c a IH]; intros H; [cbn in H; congruence|].
  cbn [app lstrip] in *. destruct (is_space U c); [apply IH; exact H | reflexivity].
Qed.

Lemma fin_wf (l : list seg) : wf l -> wf (fin l).
Proof.
  induction 1 as [|[c g] l [Hc Hg] W IH]; [constructor|].
  cbn [fin]. destruct l as [|s l].
  - constructor; [|constructor]. split; [exact Hc | constructor].
  - constructor; [|exact IH]. split; [exact Hc | apply Kg_blank; exact Hg].
Qed.

Lemma rstrip_flat (l : list seg) :
  wf l -> l <> [] -> rev (lstrip U (rev (flat (mapK l)))) = flat (fin l).
Proof.
  induction 1 as [|[c g] l [Hc Hg] W IH]; intros Hne; [congruence|].
  cbn [fst snd] in *. cbn [fin mapK map fst snd]. fold (mapK l).
  rewrite flat_cons. destruct l as [|s l].
  - cbn [mapK map flat flat_map]. rewrite app_nil_r.
    change (c :: Kg g) with ([c] ++ Kg g). rewrite rev_app_distr.
    rewrite lstrip_blank.
    + cbn. rewrite Hc. reflexivity.
    + apply Forall_rev. apply Kg_blank. exact Hg.
  - specialize (IH ltac:(discriminate)).
    change (c :: Kg g ++ flat (mapK (s :: l)))
      with ((c :: Kg g) ++ flat (mapK (s :: l))).
    rewrite rev_app_distr, lstrip_app_ne.
    + rewrite rev_app_distr, rev_involutive, IH. reflexivity.
    + intros E. rewrite E in IH. destruct s as [c' g']. cbn [fin] in IH.
      destruct l; discriminate.
Qed.

Lemma strip_bridge (g0 : str) (l : list seg) :
  blank g0 -> wf l -> strip U (Kg g0 ++ flat (mapK l)) = flat (fin l).
Proof.
  intros B W. unfold strip. rewrite lstrip_blank by (apply Kg_blank; exact B).
  destruct l as [|s l].
  - reflexivity.
  - rewrite (FormatFacts.lstrip_fixed U (flat (mapK (s :: l)))).
    + apply rstrip_flat; [exact W | discriminate].
    + apply flat_head. apply mapK_wf. exact W.
Qed.

(** *** Artifacts *)

(** Patterns that match no whitespace. *)
Definition solid (pat : list item) : Prop :=
  SubFacts.positive pat
  /\ Forall (fun it => forall c, is_space U c = true -> cls it c = false) pat.

Lemma match_here_cut (pat : list item) (z : str) :
  Forall (fun it => match z with [] => True | x :: _ => cls it x = false end) pat ->
  forall w : str, match_here pat (w ++ z) <> None -> match_here pat w <> None.
Proof.
  induction 1 as [|it pat Hit Hp IH]; intros w H; [discriminate|].
  cbn [match_here] in *. rewrite (run_cut (cls it) w z Hit) in H.
  pose proof (PyFacts.run_le (cls it) w) as Hlen.
  assert (forall lo k, k <= run (cls it) w ->
            backtrack (match_here pat) lo (w ++ z) k <> None ->
            backtrack (match_here pat) lo w k <> None) as X.
  { intros lo k Hk Hb. destruct (@FormatFacts.backtrack_inv _ _ _ _ Hb) as [j [Hj Hr]].
    apply (@FormatFacts.backtrack_found _ _ _ _ j Hj).
    apply IH. rewrite <- skipn_app_le by lia. exact Hr. }
  destruct (many it).
  - apply (X _ _ (le_n _)). exact H.
  - destruct (Nat.ltb_spec (run (cls it) w) (least it)); [congruence|].
    apply X; [lia | exact H].
Qed.

Lemma solid_blank (pat : list item) (w : char) (s : str) :
  solid pat -> is_space U w = true -> match_here pat (w :: s) = None.
Proof.
  intros [Pos Hs] Hw.
  destruct (match_here pat (w :: s)) eqn:E; [|reflexivity]. exfalso.
  apply (match_here_cut pat (w :: s)) with (w := []).
  - apply (Forall_impl _ (fun it H => H w Hw) Hs).
  - cbn [app]. congruence.
  - apply SubFacts.positive_not_empty. exact Pos.
Qed.

Lemma absent_skip (pat : list item) (a s : str) :
  absent pat (a ++ s) = true -> absent pat s = true.
Proof.
  induction a as [|c a IH]; intros H; [exact H|].
  apply IH. apply (FormatFacts.absent_tail _ _ _ H).
Qed.

Lemma absent_blank (pat : list item) (g s : str) :
  solid pat -> blank g -> absent pat s = true -> absent pat (g ++ s) = true.
Proof.
  intros S B H. induction B as [|w g Hw Hg IH]; [exact H|].
  cbn [app]. rewrite FormatFacts.absent_eq, (solid_blank _ _ _ S Hw). exact IH.
Qed.

(** An empty gap of the new list was empty in the old one. *)
Definition Cd (c : char) (n : list char) (g g' : str) : Prop :=
  n <> [] -> g' = [] -> g = [].

Lemma word_prefix (t t' : list seg) :
  crel Cd t t' -> wf t' ->
  exists w z z', flat t' = w ++ z' /\ flat t = w ++ z
    /\ match z' with [] => True | x :: _ => is_space U x = true end.
Proof.
  induction 1 as [|c g g' l l' Hr H IH]; intros W.
  - exists [], [], []. repeat split.
  - inversion W as [|? ? [Hc Hg] W']; subst. cbn [fst snd] in *.
    rewrite !flat_cons. destruct g' as [|x g'].
    + destruct l as [|s l].
      * inversion H; subst. exists [c], g, []. repeat split.
        cbn. rewrite app_nil_r. reflexivity.
      * rewrite (Hr ltac:(discriminate) eq_refl).
        destruct (IH W') as [w [z [z' [E1 [E2 Hz]]]]].
        exists (c :: w), z, z'. cbn [app]. rewrite E1, E2. repeat split.
        exact Hz.
    + exists [c], (g ++ flat l), ((x :: g') ++ flat l'). repeat split.
      inversion Hg; subst. assumption.
Qed.

Lemma absent_flat (pat : list item) (t t' : list seg) :
  solid pat -> crel Cd t t' -> wf t' ->
  absent pat (flat t) = true -> absent pat (flat t') = true.
Proof.
  intros S H. induction H as [|c g g' l l' Hr H IH]; intros W A; [exact A|].
  pose proof (word_prefix _ _ (crel_cons Cd c g g' l l' Hr H) W)
    as [w [z [z' [E1 [E2 Hz]]]]].
  inversion W as [|? ? [Hc Hg] W']; subst. cbn [fst snd] in *.
  rewrite flat_cons in *. rewrite FormatFacts.absent_eq.
  destruct (match_here pat (c :: g' ++ flat l')) eqn:M.
  - exfalso. rewrite E1 in M.
    assert (match_here pat w <> None) as Mw.
    { apply (match_here_cut pat z').
      - destruct S as [_ S]. destruct z' as [|x z'].
        + apply Forall_forall. intros ? _. exact I.
        + apply (Forall_impl _ (fun it X => X x Hz) S).
      - congruence. }
    apply (FormatFacts.match_here_app pat w z) in Mw.
    rewrite <- E2 in Mw. apply Mw. apply FormatFacts.absent_here. exact A.
  - apply absent_blank; [exact S | exact Hg|]. apply IH; [exact W'|].
    apply (absent_skip pat (c :: g)). exact A.
Qed.

Lemma absent_transfer (pat : list item) (g0 g0' : str) (t t' : list seg) :
  solid pat -> crel Cd t t' -> wf t' -> blank g0' ->
  absent pat (g0 ++ flat t) = true -> absent pat (g0' ++ flat t') = true.
Proof.
  intros S H W B A. apply absent_blank; [exact S | exact B|].
  apply (absent_flat pat t t' S H W). apply (absent_skip pat g0). exact A.
Qed.

Lemma solid_literal (s : str) :
  s <> [] -> forallb (not_space U) s = true -> solid (literal s).
Proof.
  intros Hne Hs. split.
  - destruct s as [|a s]; [congruence|]. left. cbn. lia.
  - unfold literal. apply Forall_map. apply Forall_forall. intros a Ha c Hc.
    cbn [cls one]. unfold chr. apply N.eqb_neq. intros ->.
    pose proof (proj1 (forallb_forall _ _) Hs c Ha) as X.
    unfold not_space in X. rewrite Hc in X. discriminate.
Qed.

Lemma solid_at_least (n : nat) (a : char) :
  1 <= n -> is_space U a = false -> solid [at_least n (chr a)].
Proof.
  intros Hn Ha. split; [left; exact Hn|]. constructor; [|constructor].
  intros c Hc. cbn [cls at_least]. unfold chr. apply N.eqb_neq. intros ->.
  congruence.
Qed.

(** *** The formatter on a text without artifact *)

Lemma Cd_trans (c : char) (n : list char) (x y z : str) :
  Cd c n x y -> Cd c n y z -> Cd c n x z.
Proof. unfold Cd. auto. Qed.

Lemma Ce_Cd (c : char) (n : list char) (g g' : str) : Ce c n g g' -> Cd c n g g'.
Proof. intros H _ E. apply H. exact E. Qed.

Lemma Cb_Cd (c : char) (n : list char) (g g' : str) : Cb c n g g' -> Cd c n g g'.
Proof. intros [->|[_ H]] _ E; [exact E | contradiction]. Qed.

Lemma pos_word (pat : list item) : SubFacts.positive (one (is_word U) :: pat).
Proof. left. cbn. lia. Qed.

Lemma no_blank_B (w : char) (s : str) :
  is_space U w = true -> match_here (bullet_pat U) (w :: s) = None.
Proof.
  intros H. unfold bullet_pat. rewrite match_cons_one. unfold not_space.
  rewrite H. reflexivity.
Qed.

Lemma cueA_bridge (letters : list char) :
  Forall (fun L => is_space U L = false) letters ->
  forall (g0 : str) (t : list seg), blank g0 -> wf t ->
  fold_left (fun t L => sub (subsection_pat U L) repl_A t) letters (g0 ++ flat t)
  = g0 ++ flat (cueA letters t)
  /\ wf (cueA letters t) /\ crel Cd t (cueA letters t).
Proof.
  induction 1 as [|L letters HL Hls IH]; intros g0 t B W.
  - split; [reflexivity|]. split; [exact W|]. apply crel_refl. intros c n g _ E. exact E.
  - cbn [fold_left cueA].
    rewrite (bridge (subsection_pat U L) repl_A (hit_A L) (pos_word _)
               (no_blank_word _) (hit_A_ok L HL) g0 t B W).
    pose proof (gpass_wf (subsection_pat U L) repl_A (hit_A L) (pos_word _)
                  (no_blank_word _) (hit_A_ok L HL) t W) as W1.
    destruct (IH g0 _ B W1) as [E [W2 C]].
    split; [exact E|]. split; [exact W2|].
    apply (crel_trans Cd Cd Cd t (gpass (hit_A L) 0 t)); [apply Cd_trans | | exact C].
    apply (crel_impl Ce Cd); [apply Ce_Cd | apply hit_A_crel].
Qed.

Section Format.
Variable fixes : list (str * str).
Variable labels : list str.

(** The labels, cut like the text. *)
Definition labs : list (list seg) :=
  map (fun label => snd (segments label)) labels.

Hypothesis fixes_fine :
  Forall (fun fx => fst fx <> [] /\ forallb (not_space U) (fst fx) = true) fixes.
Hypothesis labels_fine :
  Forall (fun label =>
            fst (segments label) = []
            /\ snd (segments label) <> []
            /\ snd (last (snd (segments label)) (0%N, [])) = []
            /\ gaps_ok (snd (segments label))
            /\ apart (LC labs) (snd (segments label))) labels.

Lemma labs_fine :
  Forall (fun lab => lab <> [] /\ gaps_ok lab /\ apart (LC labs) lab) labs.
Proof.
  unfold labs at 2. apply Forall_map.
  apply (Forall_impl _ (fun label H => conj (proj1 (proj2 H))
           (proj2 (proj2 (proj2 H)))) labels_fine).
Qed.

Lemma cueL_bridge (ls : list str) : incl ls labels ->
  forall (g0 : str) (t : list seg), blank g0 -> wf t ->
  fold_left (fun t label => sub (label_pat U label) repl_L t) ls (g0 ++ flat t)
  = g0 ++ flat (cueL (map (fun label => snd (segments label)) ls) t)
  /\ wf (cueL (map (fun label => snd (segments label)) ls) t).
Proof.
  induction ls as [|label ls IH]; intros Hin g0 t B W.
  - split; [reflexivity | exact W].
  - cbn [fold_left map cueL].
    assert (In label labels) as Hl by (apply Hin; left; reflexivity).
    pose proof (proj1 (Forall_forall _ _) labels_fine label Hl)
      as [H1 [H2 [H3 _]]].
    destruct (segments_spec label) as [E [_ Wl]]. rewrite H1 in E. cbn [app] in E.
    assert (label_shape (snd (segments label))) as Sh by (repeat split; assumption).
    rewrite E at 1.
    rewrite (bridge (label_pat U (flat (snd (segments label)))) repl_L
               (hit_L (snd (segments label))) (pos_word _) (no_blank_word _)
               (fun l => hit_L_ok _ l Sh) g0 t B W).
    apply IH; [intros x Hx; apply Hin; right; exact Hx | exact B|].
    apply (gpass_wf (label_pat U (flat (snd (segments label)))) repl_L
             (hit_L (snd (segments label))) (pos_word _) (no_blank_word _)
             (fun l => hit_L_ok _ l Sh) t W).
Qed.

Lemma cue_bridge (g0 : str) (t : list seg) :
  blank g0 -> wf t ->
  break_labels U labels
    (break_numbered U (break_bullets U (break_subsections U (g0 ++ flat t))))
  = g0 ++ flat (cue labs t)
  /\ wf (cue labs t) /\ crel Cd t (cue labs t).
Proof.
  intros B W. unfold cue, tailB, tailN.
  destruct (cueA_bridge (lit "ABCDE") ltac:(repeat constructor) g0 t B W)
    as [EA [WA CA]].
  unfold break_subsections. fold repl_A. rewrite EA.
  unfold break_bullets. fold repl_B.
  assert (SubFacts.positive (bullet_pat U)) as PB by (left; cbn; lia).
  rewrite (bridge (bullet_pat U) repl_B hit_B PB no_blank_B hit_B_ok g0 _ B WA).
  pose proof (gpass_wf (bullet_pat U) repl_B hit_B PB no_blank_B hit_B_ok _ WA)
    as WB.
  unfold break_numbered. fold repl_N.
  rewrite (bridge (numbered_pat U) repl_N hit_N (pos_word _) (no_blank_word _)
             hit_N_ok g0 _ B WB).
  pose proof (gpass_wf (numbered_pat U) repl_N hit_N (pos_word _)
                (no_blank_word _) hit_N_ok _ WB) as WN.
  unfold break_labels. fold repl_L.
  destruct (cueL_bridge labels (incl_refl _) g0 _ B WN) as [EL WL].
  fold labs in EL, WL. split; [exact EL|]. split; [exact WL|].
  apply (crel_trans Cd Cd Cd t (cueA (lit "ABCDE") t)); [apply Cd_trans | exact CA|].
  apply (crel_trans Cd Cd Cd _ (gpass hit_B 0 (cueA (lit "ABCDE") t)));
    [apply Cd_trans | apply (crel_impl Cb Cd); [apply Cb_Cd | apply hit_B_crel]|].
  apply (crel_trans Cd Cd Cd _
           (gpass hit_N 0 (gpass hit_B 0 (cueA (lit "ABCDE") t))));
    [apply Cd_trans | apply (crel_impl Ce Cd); [apply Ce_Cd | apply hit_N_crel]|].
  apply (crel_impl (Cl (LC labs)) Cd).
  - intros c n g g' H. apply Ce_Cd. apply (Cl_Ce (LC labs)). exact H.
  - apply (cueL_crel labs labs (incl_refl _)).
Qed.

(** What the formatter removes: the mis-decoded sequences, the code fences,
    the runs of dashes and the bold markers. *)
Definition artifacts : list (list item) :=
  map (fun fx => literal (fst fx)) fixes
  ++ [literal (lit "```"); [at_least 3 (chr 45%N)]; [at_least 2 (chr 42%N)]].

Definition artifact_free (text : str) : bool :=
  forallb (fun pat => absent pat text) artifacts.

Lemma artifacts_solid (pat : list item) : In pat artifacts -> solid pat.
Proof.
  unfold artifacts. rewrite in_app_iff. intros [H|H].
  - apply in_map_iff in H. destruct H as [fx [<- Hfx]].
    pose proof (proj1 (Forall_forall _ _) fixes_fine fx Hfx) as [H1 H2].
    apply solid_literal; assumption.
  - cbn [In] in H. destruct H as [<-|[<-|[<-|[]]]].
    + apply solid_literal; [discriminate | reflexivity].
    + apply solid_at_least; [lia | reflexivity].
    + apply solid_at_least; [lia | reflexivity].
Qed.

Lemma G_crel (t : list seg) : wf t -> wf (G labs t) /\ crel Cd t (G labs t).
Proof.
  intros W. destruct (cue_bridge [] t ltac:(constructor) W) as [_ [Wc C]].
  split; [apply fin_wf; exact Wc|].
  apply (crel_trans Cd Cfin Cd t (cue labs t)); [|exact C | apply fin_crel].
  intros c n x y z H [F _] Hn E. apply H; [exact Hn|].
  rewrite (F Hn) in E. apply Kg_nil_iff. exact E.
Qed.

Lemma format_flat (g0 : str) (t : list seg) :
  blank g0 -> wf t -> artifact_free (g0 ++ flat t) = true ->
  _format_structured_content U fixes labels (g0 ++ flat t) = flat (G labs t)
  /\ artifact_free ([] ++ flat (G labs t)) = true.
Proof.
  intros B W A.
  assert (forall pat, In pat artifacts -> absent pat (g0 ++ flat t) = true) as Ab
    by (apply forallb_forall; exact A).
  destruct (cue_bridge g0 t B W) as [EC [WC CC]].
  split.
  - unfold _format_structured_content.
    unfold fix_encoding, replace.
    rewrite (FormatFacts.fold_sub_absent (fun fx => literal (fst fx))
               (fun fx _ => snd fx)).
    2:{ intros fx Hfx. apply Ab. unfold artifacts. apply in_or_app. left.
        apply (in_map (fun fx => literal (fst fx))). exact Hfx. }
    unfold remove_fences.
    rewrite FormatFacts.sub_absent
      by (apply Ab; unfold artifacts; apply in_or_app; right; cbn; auto).
    rewrite EC.
    unfold remove_dashes.
    rewrite FormatFacts.sub_absent.
    2:{ apply (absent_transfer _ g0 g0 t _); [|exact CC | exact WC | exact B|].
        - apply artifacts_solid. unfold artifacts. apply in_or_app. right. cbn. auto.
        - apply Ab. unfold artifacts. apply in_or_app. right. cbn. auto. }
    unfold remove_bold.
    rewrite FormatFacts.sub_absent.
    2:{ apply (absent_transfer _ g0 g0 t _); [|exact CC | exact WC | exact B|].
        - apply artifacts_solid. unfold artifacts. apply in_or_app. right. cbn. auto.
        - apply Ab. unfold artifacts. apply in_or_app. right. cbn. auto. }
    rewrite collapse_bridge by exact WC.
    apply strip_bridge; [exact B | exact WC].
  - apply forallb_forall. intros pat Hp. destruct (G_crel t W) as [WG CG].
    apply (absent_transfer pat g0 [] t _ (artifacts_solid pat Hp) CG WG).
    + constructor.
    + apply Ab. exact Hp.
Qed.

Lemma format_twice (text : str) :
  artifact_free text = true ->
  _format_structured_content U fixes labels
    (_format_structured_content U fixes labels text)
  = _format_structured_content U fixes labels text.
Proof.
  intros A. destruct (segments_spec text) as [E [B W]]. rewrite E in A |- *.
  destruct (format_flat _ _ B W A) as [F1 A1]. rewrite F1.
  destruct (G_crel _ W) as [WG _].
  change (flat (G labs (snd (segments text))))
    with ([] ++ flat (G labs (snd (segments text)))) at 1.
  destruct (format_flat [] _ ltac:(constructor) WG A1) as [F2 _].
  rewrite F2, (G_idem labs labs_fine). reflexivity.
Qed.

End Format.

(** *** The conditions on the tables, as tests *)

(** One text begins with the other. *)
Definition comparable (a b : str) : bool := startswith a b || startswith b a.

(** The text without its whitespace. *)
Definition squeeze (s : str) : str := filter (not_space U) s.

(** Every whitespace character of the text is a space, followed by a
    character that is not whitespace. *)
Fixpoint spaced (s : str) : bool :=
  match s with
  | [] => true
  | c :: s' =>
      (if is_space U c then
         N.eqb c 32 && match s' with [] => false | d :: _ => not_space U d end
       else true)
      && spaced s'
  end.

(** A label starts with a character that is not whitespace, and its words
    are separated by single spaces. *)
Definition label_ok (label : str) : bool :=
  match label with [] => false | c :: _ => not_space U c end && spaced label.

(** After a space of the label that follows an alphanumeric character, the
    rest of the label neither begins with one of the [others] nor is the
    beginning of one, whitespace apart. *)
Fixpoint apart_from (others : list str) (s : str) : bool :=
  match s with
  | [] => true
  | a :: s' =>
      match s' with
      | b :: post =>
          if is_word U a && N.eqb b 32 then
            forallb (fun o => negb (comparable (squeeze post) (squeeze o))) others
          else true
      | [] => true
      end
      && apart_from others s'
  end.

Definition labels_ok (labels : list str) : bool :=
  forallb label_ok labels && forallb (apart_from labels) labels.

(** A mis-decoded sequence is not empty and contains no whitespace. *)
Definition fixes_ok (fixes : list (str * str)) : bool :=
  forallb (fun fx => negb (is_nil (fst fx)) && forallb (not_space U) (fst fx))
    fixes.

Lemma squeeze_segments (s : str) : map fst (snd (segments s)) = squeeze s.
Proof.
  induction s as [|c s IH]; [reflexivity|].
  cbn [segments squeeze filter]. unfold not_space at 1.
  destruct (segments s) as [g l]. cbn [snd] in IH.
  destruct (is_space U c); cbn [negb snd map fst]; [exact IH|].
  f_equal. exact IH.
Qed.

Lemma squeeze_flat (l : list seg) : wf l -> squeeze (flat l) = map fst l.
Proof.
  induction 1 as [|[c g] l [Hc Hg] W IH]; [reflexivity|].
  cbn [fst snd] in *. rewrite flat_cons. unfold squeeze in *.
  cbn [filter]. unfold not_space at 1. rewrite Hc. cbn [negb map fst].
  f_equal. rewrite filter_app, IH.
  replace (filter (not_space U) g) with (@nil char); [reflexivity|].
  clear -Hg. induction Hg as [|w g Hw Hg IH]; [reflexivity|].
  cbn [filter]. unfold not_space at 1. rewrite Hw. exact IH.
Qed.

Lemma segments_head (c : char) (s : str) :
  is_space U c = false ->
  fst (segments (c :: s)) = [] /\ snd (segments (c :: s)) <> [].
Proof.
  intros H. cbn [segments]. destruct (segments s) as [g l]. rewrite H.
  split; [reflexivity | discriminate].
Qed.

Lemma spaced_segments (s : str) :
  spaced s = true ->
  (fst (segments s) = [] \/ (fst (segments s) = sp /\ snd (segments s) <> []))
  /\ gaps_ok (snd (segments s))
  /\ snd (last (snd (segments s)) (0%N, [])) = []
  /\ (snd (segments s) = [] -> fst (segments s) = []).
Proof.
  induction s as [|c s IH]; intros H.
  - cbn. repeat split; [left; reflexivity | constructor].
  - cbn [spaced] in H. apply andb_true_iff in H. destruct H as [H1 H2].
    specialize (IH H2). destruct IH as [I1 [I2 [I3 I4]]].
    cbn [segments]. destruct (is_space U c) eqn:E.
    + apply andb_true_iff in H1. destruct H1 as [H1 H3].
      apply N.eqb_eq in H1. subst c.
      destruct s as [|d s]; [discriminate|].
      unfold not_space in H3. apply negb_true_iff in H3.
      destruct (segments_head d s H3) as [P1 P2].
      destruct (segments (d :: s)) as [g l]. cbn [fst snd] in *. subst g.
      split; [right; split; [reflexivity | exact P2]|].
      split; [exact I2|]. split; [exact I3|]. intros X. contradiction.
    + destruct (segments s) as [g l]. cbn [fst snd] in *.
      split; [left; reflexivity|]. split.
      * constructor; [|exact I2]. cbn [snd].
        destruct I1 as [->|[-> _]]; [left | right]; reflexivity.
      * split; [|discriminate]. destruct l as [|s0 l].
        -- cbn. apply I4. reflexivity.
        -- rewrite last_cons_cons. exact I3.
Qed.

Lemma label_ok_segments (label : str) :
  label_ok label = true ->
  fst (segments label) = [] /\ snd (segments label) <> []
  /\ snd (last (snd (segments label)) (0%N, [])) = []
  /\ gaps_ok (snd (segments label)).
Proof.
  unfold label_ok. intros H. apply andb_true_iff in H. destruct H as [H1 H2].
  destruct label as [|c s]; [discriminate|].
  unfold not_space in H1. apply negb_true_iff in H1.
  destruct (segments_head c s H1) as [P1 P2].
  destruct (spaced_segments _ H2) as [_ [I2 [I3 _]]].
  repeat split; assumption.
Qed.

Lemma comparable_app (a : str) : forall b r1 r2 : str,
  a ++ r1 = b ++ r2 -> comparable a b = true.
Proof.
  unfold comparable.
  induction a as [|x a IH]; intros b r1 r2 H; [reflexivity|].
  destruct b as [|y b]; [apply orb_true_r|].
  cbn [app] in H. injection H as -> H. cbn [startswith].
  rewrite N.eqb_refl. cbn [andb]. apply (IH _ _ _ H).
Qed.

Lemma apart_from_at (others : list str) (a : char) (y : str) :
  is_word U a = true -> forall x : str,
  apart_from others (x ++ a :: 32%N :: y) = true ->
  forallb (fun o => negb (comparable (squeeze y) (squeeze o))) others = true.
Proof.
  intros Ha. induction x as [|c x IH]; intros H.
  - cbn [app apart_from] in H. rewrite Ha in H. cbn [andb N.eqb Pos.eqb] in H.
    apply andb_true_iff in H. apply H.
  - cbn [app apart_from] in H. apply andb_true_iff in H. apply IH, H.
Qed.

Lemma apart_from_apart (labels : list str) (label : str) :
  fst (segments label) = [] -> apart_from labels label = true ->
  apart (LC (labs labels)) (snd (segments label)).
Proof.
  intros P A pre a post E Ha l2 r1 r2 Hin Hr.
  destruct (segments_spec label) as [El [_ W]].
  rewrite P, E, flat_app, flat_cons in El. cbn [app] in El.
  change (sp ++ flat post) with (32%N :: flat post) in El.
  rewrite El in A. apply (apart_from_at labels a (flat post) Ha) in A.
  rewrite E in W. apply wf_app in W. destruct W as [_ W].
  inversion W as [|? ? _ Wp]; subst.
  rewrite (squeeze_flat _ Wp) in A.
  unfold LC, labs in Hin. rewrite map_map in Hin.
  apply in_map_iff in Hin. destruct Hin as [o [<- Ho]].
  rewrite squeeze_segments in Hr.
  pose proof (proj1 (forallb_forall _ _) A o Ho) as X. cbv beta in X.
  rewrite (comparable_app _ _ _ _ Hr) in X. discriminate.
Qed.

Lemma labels_ok_fine (labels : list str) :
  labels_ok labels = true ->
  Forall (fun label =>
            fst (segments label) = []
            /\ snd (segments label) <> []
            /\ snd (last (snd (segments label)) (0%N, [])) = []
            /\ gaps_ok (snd (segments label))
            /\ apart (LC (labs labels)) (snd (segments label))) labels.
Proof.
  unfold labels_ok. intros H. apply andb_true_iff in H. destruct H as [H1 H2].
  apply Forall_forall. intros label Hl.
  destruct (label_ok_segments label (proj1 (forallb_forall _ _) H1 label Hl))
    as [P1 [P2 [P3 P4]]].
  repeat split; try assumption.
  apply apart_from_apart; [exact P1|].
  apply (proj1 (forallb_forall _ _) H2 label Hl).
Qed.

Lemma fixes_ok_fine (fixes : list (str * str)) :
  fixes_ok fixes = true ->
  Forall (fun fx => fst fx <> [] /\ forallb (not_space U) (fst fx) = true) fixes.
Proof.
  unfold fixes_ok. intros H. apply Forall_forall. intros fx Hfx.
  pose proof (proj1 (forallb_forall _ _) H fx Hfx) as X.
  apply andb_true_iff in X. destruct X as [X1 X2]. split; [|exact X2].
  intros E. rewrite E in X1. discriminate.
Qed.

End Tables.

(** Each kind of artifact, alone in a text, can make the second run differ
    from the first. *)
Lemma each_artifact_matters :
  let format := _format_structured_content ascii_only shown_fixes shown_labels in
  format (format [194; 194; 178]%N) <> format [194; 194; 178]%N
  /\ format (format (lit "`-```--``")) <> format (lit "`-```--``")
  /\ format (format (lit "`---``")) <> format (lit "`---``")
  /\ format (format (lit "-**--")) <> format (lit "-**--").
Proof. vm_compute. repeat split; discriminate. Qed.

(** Labels that overlap can do the same on a text without artifact: with
    the labels "x y" and "y x", the break written before "y x" in
    "a x y x y" hides the label "x y", which the next run finds. *)
Lemma overlapping_labels_matter :
  let labels := [lit "x y"; lit "y x"] in
  let format := _format_structured_content ascii_only shown_fixes labels in
  artifact_free shown_fixes (lit "a x y x y") = true
  /\ forallb (label_ok ascii_only) labels = true
  /\ labels_ok ascii_only labels = false
  /\ format (format (lit "a x y x y")) <> format (lit "a x y x y").
Proof. vm_compute. repeat split; discriminate. Qed.



End GapFacts.
